(** * jal-kicad-pcm: the index builder and the resource packer

    A shallow embedding of [scripts/build_index.py] and of the entry point of
    [scripts/update_resources.py], with the properties of the release
    scanner, the tolerant manifest loader, the mirror importer, the index
    writer and the packer's top-level guard.

    Conventions.  A Python [str] is a [string]; its characters are the code
    points below 256.  A value produced by [json.loads] is a [json].  A
    Python [dict] is an association list in insertion order.  A call that may
    raise returns a [result].

    Part III covers more of the code: the reader of archives and the loop of
    [main] in [scripts/build_index.py], the calls of the packer into the
    file system, the README generator [scripts/update_readme.py] (whose
    texts are lists of code points) and the configuration editor
    [scripts/manage_repos.py]. *)

From Stdlib Require Import List String Ascii ZArith NArith Bool Lia Arith.
From Stdlib Require Import Sorted Permutation.
From Stdlib Require OrderedTypeEx DecimalString.
Import ListNotations.
Open Scope string_scope.

Set Implicit Arguments.
Set Warnings "-register-all".

(* ================================================================== *)
(** * Part I.  Definitions                                             *)
(* ================================================================== *)

(** ** Characters and strings *)

Definition ch_tab : ascii := "009"%char.
Definition ch_nl  : ascii := "010"%char.
Definition ch_vt  : ascii := "011"%char.
Definition ch_ff  : ascii := "012"%char.
Definition ch_cr  : ascii := "013"%char.
Definition ch_backslash : ascii := "\"%char.
Definition ch_quote : ascii := "034"%char.

Definition chr_in (c : ascii) (set : string) : bool :=
  existsb (Ascii.eqb c) (list_ascii_of_string set).

Definition between (lo hi c : ascii) : bool :=
  (Ascii.leb lo c && Ascii.leb c hi)%bool.

Definition is_digit (c : ascii) : bool := between "0" "9" c.

Definition is_ascii_alnum (c : ascii) : bool :=
  (is_digit c || between "a" "z" c || between "A" "Z" c)%bool.

(** Whether [s] starts with the character [x]. *)
Definition head_is (x : ascii) (s : string) : bool :=
  match s with
  | String c _ => Ascii.eqb c x
  | EmptyString => false
  end.

(** [str.replace(old, new)]: the occurrences of [old] are found from the
    left and do not overlap.  [skip] counts the characters of an occurrence
    still to be dropped. *)
Fixpoint replace_from (skip : nat) (old new s : string) : string :=
  match s with
  | EmptyString => EmptyString
  | String c r =>
      match skip with
      | S k => replace_from k old new r
      | O =>
          if prefix old s
          then new ++ replace_from (String.length old - 1) old new r
          else String c (replace_from 0 old new r)
      end
  end.

Fixpoint intersperse_str (new s : string) : string :=
  match s with
  | EmptyString => new
  | String c r => new ++ String c (intersperse_str new r)
  end.

Definition str_replace (old new s : string) : string :=
  match old with
  | EmptyString => intersperse_str new s
  | _ => replace_from 0 old new s
  end.

(** ** The glob of a release-scan source, as a regular expression *)

(** [re.escape]: the characters of [re._special_chars_map] get a backslash. *)
Definition re_special (c : ascii) : bool :=
  (chr_in c "()[]{}?*+-|^$\.&~# "
   || Ascii.eqb c ch_tab || Ascii.eqb c ch_nl || Ascii.eqb c ch_cr
   || Ascii.eqb c ch_vt || Ascii.eqb c ch_ff)%bool.

Fixpoint re_escape (s : string) : string :=
  match s with
  | EmptyString => EmptyString
  | String c r =>
      if re_special c
      then String ch_backslash (String c (re_escape r))
      else String c (re_escape r)
  end.

(** The fragment of [re] patterns that the scanner can produce: characters,
    [.], [^], [$] and a postfix [*] on a one-character matcher. *)
Inductive rx_class : Type :=
| RxChar (c : ascii)
| RxDot.

Inductive rx_item : Type :=
| RxOne (k : rx_class)
| RxStar (k : rx_class)
| RxBol
| RxEol.

Definition regex : Type := list rx_item.

Inductive rx_token : Type :=
| TClass (k : rx_class)
| TStar
| TBol
| TEol.

(** Lexing: a backslash before a non-alphanumeric character makes it a
    literal; the other escapes and the other operators lie outside the
    fragment ([None]). *)
Fixpoint rx_tokens (s : string) : option (list rx_token) :=
  match s with
  | EmptyString => Some []
  | String c r =>
      if Ascii.eqb c ch_backslash then
        match r with
        | EmptyString => None
        | String d r' =>
            if is_ascii_alnum d then None
            else option_map (cons (TClass (RxChar d))) (rx_tokens r')
        end
      else if Ascii.eqb c "." then option_map (cons (TClass RxDot)) (rx_tokens r)
      else if Ascii.eqb c "*" then option_map (cons TStar) (rx_tokens r)
      else if Ascii.eqb c "^" then option_map (cons TBol) (rx_tokens r)
      else if Ascii.eqb c "$" then option_map (cons TEol) (rx_tokens r)
      else if chr_in c "+?{}()[]|" then None
      else option_map (cons (TClass (RxChar c))) (rx_tokens r)
  end.

(** Parsing: a [*] binds to the one-character matcher before it; a [*] with
    nothing to repeat is an error. *)
Fixpoint rx_items (ts : list rx_token) : option regex :=
  match ts with
  | [] => Some []
  | TClass k :: TStar :: r => option_map (cons (RxStar k)) (rx_items r)
  | TClass k :: r => option_map (cons (RxOne k)) (rx_items r)
  | TBol :: r => option_map (cons RxBol) (rx_items r)
  | TEol :: r => option_map (cons RxEol) (rx_items r)
  | TStar :: _ => None
  end.

Definition re_compile (s : string) : option regex :=
  match rx_tokens s with
  | Some ts => rx_items ts
  | None => None
  end.

(** Without [re.DOTALL], [.] is any character but the newline. *)
Definition class_accepts (k : rx_class) (c : ascii) : bool :=
  match k with
  | RxChar d => Ascii.eqb c d
  | RxDot => negb (Ascii.eqb c ch_nl)
  end.

(** Without [re.MULTILINE], [$] holds at the end of the string and just
    before a newline that ends the string. *)
Definition at_dollar (s : string) : bool :=
  match s with
  | EmptyString => true
  | String c EmptyString => Ascii.eqb c ch_nl
  | _ => false
  end.

(** Backtracking search: [rx_run r bol s] says whether some prefix of [s]
    matches [r], [bol] telling whether [s] starts the subject string. *)
Fixpoint rx_run (r : regex) : bool -> string -> bool :=
  match r with
  | [] => fun _ _ => true
  | RxBol :: r' => fun bol s => (bol && rx_run r' bol s)%bool
  | RxEol :: r' => fun bol s => (at_dollar s && rx_run r' bol s)%bool
  | RxOne k :: r' => fun _ s =>
      match s with
      | EmptyString => false
      | String c s' => (class_accepts k c && rx_run r' false s')%bool
      end
  | RxStar k :: r' =>
      fix star (bol : bool) (s : string) {struct s} : bool :=
        (rx_run r' bol s
         || match s with
            | EmptyString => false
            | String c s' => (class_accepts k c && star false s')%bool
            end)%bool
  end.

(** [Pattern.match(name)]: a match that starts at the first character. *)
Definition rx_match (r : regex) (name : string) : bool := rx_run r true name.

(** [build_from_release_scan], the line that builds [rx]. *)
Definition glob_regex_source (glob_pat : string) : string :=
  "^" ++ str_replace "\?" "." (str_replace "\*" ".*" (re_escape glob_pat)) ++ "$".

Definition glob_rx (glob_pat : string) : option regex :=
  re_compile (glob_regex_source glob_pat).

(** The scanner's test [rx.match(name)]; [None] when [re.compile] rejects. *)
Definition asset_name_matches (glob_pat name : string) : option bool :=
  option_map (fun r => rx_match r name) (glob_rx glob_pat).

(** Shell-glob matching with [*] and [?] only, as the specification words
    it: [*] is any run of characters, [?] any single character, every other
    character stands for itself. *)
Fixpoint glob_match (p : string) : string -> bool :=
  match p with
  | EmptyString => fun f => match f with EmptyString => true | _ => false end
  | String c p' =>
      if Ascii.eqb c "*" then
        fix star (f : string) {struct f} : bool :=
          (glob_match p' f
           || match f with
              | EmptyString => false
              | String _ f' => star f'
              end)%bool
      else if Ascii.eqb c "?" then
        fun f => match f with
                 | EmptyString => false
                 | String _ f' => glob_match p' f'
                 end
      else
        fun f => match f with
                 | EmptyString => false
                 | String x f' => (Ascii.eqb x c && glob_match p' f')%bool
                 end
  end.

Fixpoint has_newline (s : string) : bool :=
  match s with
  | EmptyString => false
  | String c r => (Ascii.eqb c ch_nl || has_newline r)%bool
  end.

(** ** Exceptions and fallible calls *)

(** The exception classes that the scripts can meet.  The first three derive
    from [BaseException] only; the others derive from [Exception]. *)
Inductive exn_class : Type :=
| KeyboardInterrupt
| SystemExit
| GeneratorExit
| TypeError
| AttributeError
| ValueError
| KeyError
| OSError
| ReError
| JSONDecodeError
| OtherException (name : string).

Definition is_Exception (c : exn_class) : bool :=
  match c with
  | KeyboardInterrupt | SystemExit | GeneratorExit => false
  | _ => true
  end.

Inductive result (A : Type) : Type :=
| Ok (a : A)
| Raise (e : exn_class).

Arguments Ok {A} a.
Arguments Raise {A} e.

Definition bind {A B : Type} (r : result A) (k : A -> result B) : result B :=
  match r with
  | Ok a => k a
  | Raise e => Raise e
  end.

Notation "x <- r ;; k" := (bind r (fun x => k))
  (at level 61, r at next level, right associativity).

(** ** Python values *)

(** A [float]: not-a-number, an infinity, or the finite value
    [(-1)^neg * m * 2^e]. *)
Inductive pyfloat : Type :=
| FNan
| FInf (neg : bool)
| FFinite (neg : bool) (m : N) (e : Z).

(** What [json.loads] returns (and what YAML scalars and mappings are). *)
Inductive json : Type :=
| JNull
| JBool (b : bool)
| JInt (z : Z)
| JFloat (f : pyfloat)
| JStr (s : string)
| JList (l : list json)
| JObj (kv : list (string * json)).

(** Truth value testing, as [or], [if] and [not] apply it. *)
Definition truthy (v : json) : bool :=
  match v with
  | JNull => false
  | JBool b => b
  | JInt z => negb (Z.eqb z 0)
  | JFloat (FFinite _ m _) => negb (N.eqb m 0)
  | JFloat _ => true
  | JStr s => negb (String.eqb s EmptyString)
  | JList l => match l with [] => false | _ => true end
  | JObj kv => match kv with [] => false | _ => true end
  end.

(** [a or b] *)
Definition py_or (a b : json) : json := if truthy a then a else b.

(** A [dict] with string keys: lookup, and assignment that keeps the place
    of a key already present and appends a new one. *)
Fixpoint dict_get {V : Type} (k : string) (d : list (string * V)) : option V :=
  match d with
  | [] => None
  | (k', v) :: r => if String.eqb k k' then Some v else dict_get k r
  end.

Fixpoint dict_set {V : Type} (k : string) (v : V) (d : list (string * V))
  : list (string * V) :=
  match d with
  | [] => [(k, v)]
  | (k', v') :: r =>
      if String.eqb k k' then (k', v) :: r else (k', v') :: dict_set k v r
  end.

Definition dict_has {V : Type} (k : string) (d : list (string * V)) : bool :=
  match dict_get k d with
  | Some _ => true
  | None => false
  end.

Definition dict_values {V : Type} (d : list (string * V)) : list V :=
  map snd d.

(** [d.get(k)] and [d.get(k, default)] *)
Definition py_get (d : list (string * json)) (k : string) : json :=
  match dict_get k d with
  | Some v => v
  | None => JNull
  end.

Definition py_get_default (d : list (string * json)) (k : string) (dflt : json)
  : json :=
  match dict_get k d with
  | Some v => v
  | None => dflt
  end.

(** ** String methods *)

(** [str.isspace] on the code points below 256. *)
Definition is_space (c : ascii) : bool :=
  (between ch_tab ch_cr c || between "028" "031" c || Ascii.eqb c " "
   || Ascii.eqb c "133" || Ascii.eqb c "160")%bool.

Fixpoint lstrip_while (drop : ascii -> bool) (s : string) : string :=
  match s with
  | EmptyString => EmptyString
  | String c r => if drop c then lstrip_while drop r else s
  end.

Fixpoint rstrip_while (drop : ascii -> bool) (s : string) : string :=
  match s with
  | EmptyString => EmptyString
  | String c r =>
      match rstrip_while drop r with
      | EmptyString => if drop c then EmptyString else String c EmptyString
      | r' => String c r'
      end
  end.

(** [s.strip()] and [s.lstrip(chars)] *)
Definition str_strip (s : string) : string :=
  rstrip_while is_space (lstrip_while is_space s).

Definition str_lstrip (chars s : string) : string :=
  lstrip_while (fun c => chr_in c chars) s.

(** [s.split(sep, 1)] for a one-character separator, when it has two parts. *)
Fixpoint split_once (sep : ascii) (s : string) : option (string * string) :=
  match s with
  | EmptyString => None
  | String c r =>
      if Ascii.eqb c sep then Some (EmptyString, r)
      else match split_once sep r with
           | Some (a, b) => Some (String c a, b)
           | None => None
           end
  end.

(** [needle in s] on strings *)
Fixpoint str_contains (needle s : string) : bool :=
  (prefix needle s
   || match s with
      | EmptyString => false
      | String _ r => str_contains needle r
      end)%bool.

(** ** Builtins and libraries that the scripts call *)

(** [int(v)]: an integer, a boolean, a finite float (truncated towards zero)
    or a string that holds a decimal integer literal; anything else raises. *)
Definition float_trunc (neg : bool) (m : N) (e : Z) : Z :=
  let a := (if 0 <=? e then Z.of_N m * 2 ^ e else Z.of_N m / 2 ^ (- e))%Z in
  if neg then (- a)%Z else a.

Definition digit_value (c : ascii) : Z :=
  (Z.of_N (N_of_ascii c) - 48)%Z.

(** Digits with single underscores between them; [prev] tells whether the
    character before was a digit. *)
Fixpoint int_digits (acc : Z) (prev : bool) (s : string) : option Z :=
  match s with
  | EmptyString => if prev then Some acc else None
  | String c r =>
      if is_digit c then int_digits (10 * acc + digit_value c)%Z true r
      else if (Ascii.eqb c "_" && prev)%bool then int_digits acc false r
      else None
  end.

(** The whitespace that [int] lets surround the literal. *)
Definition is_int_space (c : ascii) : bool :=
  (between ch_tab ch_cr c || Ascii.eqb c " " || Ascii.eqb c "133"
   || Ascii.eqb c "160")%bool.

Definition int_of_str (s : string) : option Z :=
  match rstrip_while is_int_space (lstrip_while is_int_space s) with
  | String "-" r => option_map Z.opp (int_digits 0%Z false r)
  | String "+" r => int_digits 0%Z false r
  | t => int_digits 0%Z false t
  end.

Definition py_int (v : json) : result Z :=
  match v with
  | JBool b => Ok (if b then 1 else 0)%Z
  | JInt z => Ok z
  | JFloat (FFinite neg m e) => Ok (float_trunc neg m e)
  | JFloat FNan => Raise ValueError
  | JFloat (FInf _) => Raise (OtherException "OverflowError")
  | JStr s => match int_of_str s with
              | Some z => Ok z
              | None => Raise ValueError
              end
  | JNull | JList _ | JObj _ => Raise TypeError
  end.

(** What the embedding takes from outside the scripts: [str()] of a value,
    [repr] of a float, the SHA-256 digest in hexadecimal, the reading of a
    float literal, the manifest found in a downloaded archive
    ([read_manifest_from_archive], with the name of the file it came from)
    and the files under [assets/] next to the scripts, by package
    identifier.  The local files do not change during a run. *)
Class Env : Type := {
  py_str : json -> string;
  float_repr : pyfloat -> string;
  float_of_literal : string -> pyfloat;
  sha256_hex : list Byte.byte -> string;
  read_manifest_from_archive : list Byte.byte -> result (option (json * string));
  assets_dir_exists : string -> bool;
  icon_exists : string -> bool;
  screenshot_exists : string -> bool
}.

Definition sha256_bytes `{Env} (b : list Byte.byte) : string := sha256_hex b.

(** ** The release scanner: data *)

(** A release-scan source of [repos.yaml]. *)
Record source : Type := {
  src_repo : string;
  src_asset_glob : option string;
  src_only_latest : bool;
  src_id : option json
}.

(** An asset of a release as the hosting API lists it (its name and its
    URL are strings or missing), with what [http_get] of its URL yields. *)
Record asset : Type := {
  asset_name : option string;
  asset_url : option string;
  asset_body : result (list Byte.byte)
}.

(** A release as the hosting API lists it: the tag is a string or missing,
    the creation time a string (empty when missing). *)
Record release : Type := {
  rel_tag_name : option string;
  rel_created_at : string;
  rel_assets : list asset
}.

(** A version entry and a package of the index.  The optional keys are the
    ones the scanner may leave out. *)
Record version_entry : Type := {
  ve_version : string;
  ve_download_url : string;
  ve_download_sha256 : string;
  ve_download_size : Z;
  ve_status : string;
  ve_kicad_version : string;
  ve_install_size : option Z
}.

Record package : Type := {
  pkg_identifier : string;
  pkg_name : json;
  pkg_type : json;
  pkg_description : json;
  pkg_description_full : option json;
  pkg_license : json;
  pkg_author : option json;
  pkg_maintainer : option json;
  pkg_resources : json;
  pkg_versions : list version_entry
}.

(** The lines that [log] prints, as events. *)
Inductive log_event : Type :=
| LogScanning (owner_repo : string) (only_latest : bool) (glob_pat : string)
| LogNoReleases
| LogRelease (tag : option string) (n_assets : nat)
| LogSkipMissing
| LogSkipGlob (name : string)
| LogFetch (name : string)
| LogSkipNoManifest
| LogDuplicate (version : string)
| LogOK (mf_name : string) (version : string)
| LogNoneMatched.

(** [packages], keyed by identifier in insertion order, and the log. *)
Record scan_state : Type := {
  st_packages : list (string * package);
  st_log : list log_event
}.

Definition add_log (e : log_event) (st : scan_state) : scan_state :=
  {| st_packages := st_packages st; st_log := st_log st ++ [e] |}.

(** ** The release scanner: operations *)

(** [list.sort(key=..., reverse=True)]: descending by key, elements of equal
    key in their original order. *)
Fixpoint insert_desc {A : Type} (key : A -> string) (x : A) (l : list A)
  : list A :=
  match l with
  | [] => [x]
  | y :: r =>
      if String.ltb (key x) (key y) then y :: insert_desc key x r
      else x :: y :: r
  end.

Fixpoint sort_desc {A : Type} (key : A -> string) (l : list A) : list A :=
  match l with
  | [] => []
  | x :: r => insert_desc key x (sort_desc key r)
  end.

(** An f-string shows a missing tag ([None]) by its name. *)
Definition fmt_tag (tag : option string) : string :=
  match tag with
  | Some t => t
  | None => "None"
  end.

Definition asset_download_url (owner_repo : string) (tag : option string)
  (name : string) : result string :=
  match split_once "/" owner_repo with
  | Some (owner, repo) =>
      Ok ("https://github.com/" ++ owner ++ "/" ++ repo
          ++ "/releases/download/" ++ fmt_tag tag ++ "/" ++ name)
  | None => Raise ValueError
  end.

(** [manifest.get("identifier") or src["id"]]; an identifier that is not a
    string cannot key [packages] or extend a path. *)
Definition package_id (src : source) (manifest : list (string * json))
  : result string :=
  let declared := py_get manifest "identifier" in
  v <- (if truthy declared then Ok declared
        else match src_id src with
             | Some v => Ok v
             | None => Raise KeyError
             end) ;;
  match v with
  | JStr s => Ok s
  | _ => Raise TypeError
  end.

(** The dictionary that [packages.setdefault] receives as default. *)
Definition new_package (pkg_id : string) (manifest : list (string * json))
  : package :=
  {| pkg_identifier := pkg_id;
     pkg_name := py_get_default manifest "name" (JStr pkg_id);
     pkg_type := py_get_default manifest "type" (JStr "library");
     pkg_description :=
       py_get_default manifest "description" (JStr (pkg_id ++ " package"));
     pkg_description_full :=
       if truthy (py_get manifest "description_full")
       then Some (py_get manifest "description_full") else None;
     pkg_license := py_get_default manifest "license" (JStr EmptyString);
     pkg_author :=
       match py_get manifest "author" with
       | JObj kv => Some (JObj kv)
       | _ => None
       end;
     pkg_maintainer :=
       match py_get manifest "maintainer" with
       | JObj kv => Some (JObj kv)
       | _ => None
       end;
     pkg_resources := py_get_default manifest "resources" (JObj []);
     pkg_versions := [] |}.

Definition with_resources (p : package) (r : json) : package :=
  {| pkg_identifier := pkg_identifier p; pkg_name := pkg_name p;
     pkg_type := pkg_type p; pkg_description := pkg_description p;
     pkg_description_full := pkg_description_full p;
     pkg_license := pkg_license p; pkg_author := pkg_author p;
     pkg_maintainer := pkg_maintainer p; pkg_resources := r;
     pkg_versions := pkg_versions p |}.

Definition with_versions (p : package) (vs : list version_entry) : package :=
  {| pkg_identifier := pkg_identifier p; pkg_name := pkg_name p;
     pkg_type := pkg_type p; pkg_description := pkg_description p;
     pkg_description_full := pkg_description_full p;
     pkg_license := pkg_license p; pkg_author := pkg_author p;
     pkg_maintainer := pkg_maintainer p; pkg_resources := pkg_resources p;
     pkg_versions := vs |}.

Definition json_is_str (s : string) (v : json) : bool :=
  match v with
  | JStr t => String.eqb t s
  | _ => false
  end.

(** [if file_exists and key not in resources: resources[key] = rel].  The
    test [in] works on a mapping, a list and a string and raises on the
    other values; the assignment works on a mapping only. *)
Definition wire_one (file_exists : bool) (key rel : string) (resources : json)
  : result json :=
  if file_exists then
    match resources with
    | JObj kv =>
        Ok (if dict_has key kv then resources
            else JObj (dict_set key (JStr rel) kv))
    | JList l =>
        if existsb (json_is_str key) l then Ok resources else Raise TypeError
    | JStr s =>
        if str_contains key s then Ok resources else Raise TypeError
    | _ => Raise TypeError
    end
  else Ok resources.

Definition wire_resources `{Env} (pkg_id : string) (resources : json)
  : result json :=
  if assets_dir_exists pkg_id then
    r1 <- wire_one (icon_exists pkg_id) "icon" (pkg_id ++ "/icon.png")
            resources ;;
    wire_one (screenshot_exists pkg_id) "screenshot"
      (pkg_id ++ "/screenshot.png") r1
  else Ok resources.

(** [(manifest.get("version") or (tag.lstrip("v") if tag else "0.0.0")).strip()] *)
Definition tag_version (tag : option string) : string :=
  match tag with
  | Some t => if String.eqb t EmptyString then "0.0.0" else str_lstrip "v" t
  | None => "0.0.0"
  end.

Definition version_str_of (manifest : list (string * json))
  (tag : option string) : result string :=
  let declared := py_get manifest "version" in
  if truthy declared then
    match declared with
    | JStr s => Ok (str_strip s)
    | _ => Raise AttributeError
    end
  else Ok (str_strip (tag_version tag)).

(** The optional [install_size]: set when the manifest's value is truthy and
    [int] converts it; [except Exception: pass] otherwise. *)
Definition install_size_of (manifest : list (string * json))
  : result (option Z) :=
  if truthy (py_get manifest "install_size") then
    match py_int (py_get manifest "install_size") with
    | Ok z => Ok (Some z)
    | Raise e => if is_Exception e then Ok None else Raise e
    end
  else Ok None.

Definition make_version_entry `{Env} (owner_repo : string)
  (tag : option string) (name file_sha : string) (file_size : Z)
  (manifest : list (string * json)) (version_str : string)
  : result version_entry :=
  url <- asset_download_url owner_repo tag name ;;
  size <- install_size_of manifest ;;
  Ok {| ve_version := version_str;
        ve_download_url := url;
        ve_download_sha256 := file_sha;
        ve_download_size := file_size;
        ve_status := py_str (py_get_default manifest "status" (JStr "testing"));
        ve_kicad_version :=
          py_str (py_get_default manifest "kicad_version" (JStr "8.0"));
        ve_install_size := size |}.

Definition has_version (version_str : string) (vs : list version_entry) : bool :=
  existsb (fun v => String.eqb (ve_version v) version_str) vs.

(** The body of the loop over assets, from [pkg_id = ...] on. *)
Definition merge_asset `{Env} (src : source) (tag : option string)
  (name file_sha : string) (file_size : Z)
  (manifest : list (string * json)) (mf_name : string) (st : scan_state)
  : result scan_state :=
  pkg_id <- package_id src manifest ;;
  let pkg := match dict_get pkg_id (st_packages st) with
             | Some p => p
             | None => new_package pkg_id manifest
             end in
  resources <- wire_resources pkg_id (pkg_resources pkg) ;;
  let pkg := with_resources pkg resources in
  version_str <- version_str_of manifest tag ;;
  if has_version version_str (pkg_versions pkg) then
    Ok {| st_packages := dict_set pkg_id pkg (st_packages st);
          st_log := st_log st ++ [LogDuplicate version_str] |}
  else
    entry <- make_version_entry (src_repo src) tag name file_sha file_size
               manifest version_str ;;
    Ok {| st_packages :=
            dict_set pkg_id (with_versions pkg (pkg_versions pkg ++ [entry]))
              (st_packages st);
          st_log := st_log st ++ [LogOK mf_name version_str] |}.

Definition str_falsy (o : option string) : bool :=
  match o with
  | Some s => String.eqb s EmptyString
  | None => true
  end.

(** One asset of a release; [matched] counts the assets that pass the glob. *)
Definition process_asset `{Env} (src : source) (rx : regex)
  (tag : option string) (a : asset) (acc : scan_state * nat)
  : result (scan_state * nat) :=
  let (st, matched) := acc in
  match asset_name a with
  | Some name =>
      if (str_falsy (asset_name a) || str_falsy (asset_url a))%bool then
        Ok (add_log LogSkipMissing st, matched)
      else if negb (rx_match rx name) then
        Ok (add_log (LogSkipGlob name) st, matched)
      else
        let st := add_log (LogFetch name) st in
        data <- asset_body a ;;
        let file_sha := sha256_bytes data in
        let file_size := Z.of_nat (List.length data) in
        found <- read_manifest_from_archive data ;;
        match found with
        | Some (JObj manifest, mf_name) =>
            st' <- merge_asset src tag name file_sha file_size manifest
                     mf_name st ;;
            Ok (st', S matched)
        | _ => Ok (add_log LogSkipNoManifest st, S matched)
        end
  | None => Ok (add_log LogSkipMissing st, matched)
  end.

Fixpoint scan_assets `{Env} (src : source) (rx : regex) (tag : option string)
  (assets : list asset) (acc : scan_state * nat) : result (scan_state * nat) :=
  match assets with
  | [] => Ok acc
  | a :: rest =>
      acc' <- process_asset src rx tag a acc ;;
      scan_assets src rx tag rest acc'
  end.

(** One release: its assets, the note when none matched. *)
Definition scan_release `{Env} (src : source) (rx : regex) (rel : release)
  (st : scan_state) : result scan_state :=
  let tag := rel_tag_name rel in
  let st := add_log (LogRelease tag (List.length (rel_assets rel))) st in
  acc <- scan_assets src rx tag (rel_assets rel) (st, 0) ;;
  let (st', matched) := acc in
  Ok (if Nat.eqb matched 0 then add_log LogNoneMatched st' else st').

(** The loop over releases, left at the first one when [only_latest]. *)
Fixpoint scan_releases `{Env} (src : source) (rx : regex)
  (releases : list release) (st : scan_state) : result scan_state :=
  match releases with
  | [] => Ok st
  | rel :: rest =>
      st' <- scan_release src rx rel st ;;
      if src_only_latest src then Ok st' else scan_releases src rx rest st'
  end.

Definition sort_versions (p : package) : package :=
  with_versions p (sort_desc ve_version (pkg_versions p)).

(** [build_from_release_scan(src, token)], given what the listing of the
    releases answers. *)
Definition build_from_release_scan `{Env} (src : source)
  (listing : result (list release)) : result (list package * list log_event) :=
  let owner_repo := src_repo src in
  let glob_pat := match src_asset_glob src with
                  | Some g => g
                  | None => "*.zip"
                  end in
  rx <- match glob_rx glob_pat with
        | Some r => Ok r
        | None => Raise ReError
        end ;;
  listed <- listing ;;
  let releases := sort_desc rel_created_at listed in
  let st := {| st_packages := [];
               st_log := [LogScanning owner_repo (src_only_latest src) glob_pat] |} in
  let st := match releases with
            | [] => add_log LogNoReleases st
            | _ => st
            end in
  st' <- scan_releases src rx releases st ;;
  Ok (map sort_versions (dict_values (st_packages st')), st_log st').

(** ** The release scanner: what a scan has seen *)

(** Python orders strings by code point: [str_ge a b] is [a >= b]. *)
Definition str_ge (a b : string) : Prop := String.ltb a b = false.

(** The (tag, asset) pairs in the order of the two loops. *)
Definition scanned_releases (src : source) (listed : list release)
  : list release :=
  let sorted := sort_desc rel_created_at listed in
  if src_only_latest src then firstn 1 sorted else sorted.

Definition release_pairs (rel : release) : list (option string * asset) :=
  map (pair (rel_tag_name rel)) (rel_assets rel).

Definition processed (src : source) (listed : list release)
  : list (option string * asset) :=
  flat_map release_pairs (scanned_releases src listed).

(** The asset passes the name, URL and glob tests, its download succeeds and
    its archive holds a manifest that is an object. *)
Definition usable_manifest `{Env} (rx : regex) (a : asset)
  : option (string * list Byte.byte * list (string * json) * string) :=
  match asset_name a with
  | Some name =>
      if (str_falsy (asset_name a) || str_falsy (asset_url a))%bool then None
      else if negb (rx_match rx name) then None
      else match asset_body a with
           | Ok data =>
               match read_manifest_from_archive data with
               | Ok (Some (JObj manifest, mf_name)) =>
                   Some (name, data, manifest, mf_name)
               | _ => None
               end
           | Raise _ => None
           end
  | None => None
  end.

(** The manifest of the first pair seen for package [i]. *)
Fixpoint first_manifest `{Env} (src : source) (rx : regex) (i : string)
  (l : list (option string * asset)) : option (list (string * json)) :=
  match l with
  | [] => None
  | (tag, a) :: r =>
      match usable_manifest rx a with
      | Some (_, _, m, _) =>
          match package_id src m with
          | Ok j => if String.eqb j i then Some m else first_manifest src rx i r
          | Raise _ => first_manifest src rx i r
          end
      | None => first_manifest src rx i r
      end
  end.

(** The version entry built from the first pair seen for package [i] with
    version string [v]. *)
Fixpoint first_entry `{Env} (src : source) (rx : regex) (i v : string)
  (l : list (option string * asset)) : option (result version_entry) :=
  match l with
  | [] => None
  | (tag, a) :: r =>
      match usable_manifest rx a with
      | Some (name, data, m, _) =>
          match package_id src m, version_str_of m tag with
          | Ok j, Ok w =>
              if (String.eqb j i && String.eqb w v)%bool then
                Some (make_version_entry (src_repo src) tag name
                        (sha256_bytes data) (Z.of_nat (List.length data)) m w)
              else first_entry src rx i v r
          | _, _ => first_entry src rx i v r
          end
      | None => first_entry src rx i v r
      end
  end.

(** The glob of a source and its compiled form. *)
Definition source_glob (src : source) : string :=
  match src_asset_glob src with
  | Some g => g
  | None => "*.zip"
  end.

Definition source_rx (src : source) : regex :=
  match glob_rx (source_glob src) with
  | Some r => r
  | None => []
  end.

(** The display fields of a package. *)
Definition display (p : package)
  : json * json * json * option json * json * option json * option json :=
  (pkg_name p, pkg_type p, pkg_description p, pkg_description_full p,
   pkg_license p, pkg_author p, pkg_maintainer p).

(** ** [json.loads] *)

Inductive loads_error : Type :=
| DecodeError          (* json.JSONDecodeError *)
| NotModelled          (* an escape for a code point from 256 on *)
| OutOfFuel.

Inductive parsed (A : Type) : Type :=
| POk (a : A) (rest : string)
| PFail (e : loads_error).

Arguments POk {A} a rest.
Arguments PFail {A} e.

Definition is_json_ws (c : ascii) : bool :=
  (Ascii.eqb c " " || Ascii.eqb c ch_tab || Ascii.eqb c ch_nl
   || Ascii.eqb c ch_cr)%bool.

Definition skip_ws (s : string) : string := lstrip_while is_json_ws s.

Definition hex_value (c : ascii) : option N :=
  if is_digit c then Some (N_of_ascii c - 48)%N
  else if between "a" "f" c then Some (N_of_ascii c - 87)%N
  else if between "A" "F" c then Some (N_of_ascii c - 55)%N
  else None.

Definition hex4 (a b c d : ascii) : option N :=
  match hex_value a, hex_value b, hex_value c, hex_value d with
  | Some x, Some y, Some z, Some w => Some (((x * 16 + y) * 16 + z) * 16 + w)%N
  | _, _, _, _ => None
  end.

Definition simple_escape (c : ascii) : option ascii :=
  if Ascii.eqb c ch_quote then Some ch_quote
  else if Ascii.eqb c ch_backslash then Some ch_backslash
  else if Ascii.eqb c "/" then Some "/"%char
  else if Ascii.eqb c "b" then Some "008"%char
  else if Ascii.eqb c "f" then Some ch_ff
  else if Ascii.eqb c "n" then Some ch_nl
  else if Ascii.eqb c "r" then Some ch_cr
  else if Ascii.eqb c "t" then Some ch_tab
  else None.

Definition cons_char (c : ascii) (p : parsed string) : parsed string :=
  match p with
  | POk t rest => POk (String c t) rest
  | PFail e => PFail e
  end.

(** The characters of a string literal after its opening quote, up to the
    closing quote; a control character is an error (strict mode). *)
Fixpoint scan_string (s : string) : parsed string :=
  match s with
  | EmptyString => PFail DecodeError
  | String c r =>
      if Ascii.eqb c ch_quote then POk EmptyString r
      else if Ascii.eqb c ch_backslash then
        match r with
        | EmptyString => PFail DecodeError
        | String e r1 =>
            if Ascii.eqb e "u" then
              match r1 with
              | String h1 (String h2 (String h3 (String h4 r2))) =>
                  match hex4 h1 h2 h3 h4 with
                  | Some n =>
                      if (n <? 256)%N then cons_char (ascii_of_N n) (scan_string r2)
                      else PFail NotModelled
                  | None => PFail DecodeError
                  end
              | _ => PFail DecodeError
              end
            else
              match simple_escape e with
              | Some x => cons_char x (scan_string r1)
              | None => PFail DecodeError
              end
        end
      else if Ascii.ltb c " " then PFail DecodeError
      else cons_char c (scan_string r)
  end.

Fixpoint take_digits (s : string) : string * string :=
  match s with
  | String c r =>
      if is_digit c then let (d, rest) := take_digits r in (String c d, rest)
      else (EmptyString, s)
  | EmptyString => (EmptyString, EmptyString)
  end.

Fixpoint digits_value (acc : Z) (s : string) : Z :=
  match s with
  | EmptyString => acc
  | String c r => digits_value (10 * acc + digit_value c)%Z r
  end.

(** The integer part of a number: [0], or a non-zero digit and digits. *)
Definition scan_int_part (s : string) : option (string * string) :=
  match s with
  | String c r =>
      if Ascii.eqb c "0" then Some ("0", r)
      else if is_digit c then
        let (d, rest) := take_digits r in Some (String c d, rest)
      else None
  | EmptyString => None
  end.

Definition scan_frac (s : string) : string * string :=
  match s with
  | String "." r =>
      match take_digits r with
      | (EmptyString, _) => (EmptyString, s)
      | (d, rest) => (String "." d, rest)
      end
  | _ => (EmptyString, s)
  end.

Definition scan_exp (s : string) : string * string :=
  match s with
  | String e r =>
      if (Ascii.eqb e "e" || Ascii.eqb e "E")%bool then
        let (sign, r1) :=
          match r with
          | String g r' =>
              if (Ascii.eqb g "+" || Ascii.eqb g "-")%bool
              then (String g EmptyString, r') else (EmptyString, r)
          | EmptyString => (EmptyString, r)
          end in
        match take_digits r1 with
        | (EmptyString, _) => (EmptyString, s)
        | (d, rest) => (String e (sign ++ d), rest)
        end
      else (EmptyString, s)
  | EmptyString => (EmptyString, s)
  end.

(** A number: an [int] when it has neither fraction nor exponent, else the
    [float] that the literal denotes. *)
Definition scan_number `{Env} (s : string) : option (json * string) :=
  let (neg, r) := match s with
                  | String "-" r => (true, r)
                  | _ => (false, s)
                  end in
  match scan_int_part r with
  | Some (ip, r1) =>
      let (fr, r2) := scan_frac r1 in
      let (ex, r3) := scan_exp r2 in
      match fr, ex with
      | EmptyString, EmptyString =>
          let z := digits_value 0 ip in
          Some (JInt (if neg then (- z)%Z else z), r3)
      | _, _ =>
          Some (JFloat (float_of_literal
                          ((if neg then "-" else EmptyString) ++ ip ++ fr ++ ex)),
                r3)
      end
  | None => None
  end.

Definition after_prefix (p s : string) : option string :=
  if prefix p s then Some (substring (String.length p)
                             (String.length s - String.length p) s)
  else None.

(** A constant of the grammar, or a number. *)
Definition scan_atom `{Env} (s : string) : parsed json :=
  match after_prefix "null" s, after_prefix "true" s, after_prefix "false" s with
  | Some r, _, _ => POk JNull r
  | _, Some r, _ => POk (JBool true) r
  | _, _, Some r => POk (JBool false) r
  | None, None, None =>
      match scan_number s with
      | Some (v, r) => POk v r
      | None =>
          match after_prefix "NaN" s, after_prefix "Infinity" s,
                after_prefix "-Infinity" s with
          | Some r, _, _ => POk (JFloat FNan) r
          | _, Some r, _ => POk (JFloat (FInf false)) r
          | _, _, Some r => POk (JFloat (FInf true)) r
          | None, None, None => PFail DecodeError
          end
      end
  end.

Definition str_value (p : parsed string) : parsed json :=
  match p with
  | POk t rest => POk (JStr t) rest
  | PFail e => PFail e
  end.

(** Values, the members of an object after its opening brace and the
    elements of an array after its opening bracket.  [first] tells that
    nothing was read yet in the object or array, where it may close at once.
    Each call uses one unit of [fuel]. *)
Fixpoint scan_value `{Env} (fuel : nat) (s : string) {struct fuel}
  : parsed json :=
  match fuel with
  | O => PFail OutOfFuel
  | S n =>
      match s with
      | EmptyString => PFail DecodeError
      | String c r =>
          if Ascii.eqb c ch_quote then str_value (scan_string r)
          else if Ascii.eqb c "{" then scan_members n (skip_ws r) [] true
          else if Ascii.eqb c "[" then scan_elements n (skip_ws r) [] true
          else scan_atom s
      end
  end
with scan_members `{Env} (fuel : nat) (s : string) (acc : list (string * json))
  (first : bool) {struct fuel} : parsed json :=
  match fuel with
  | O => PFail OutOfFuel
  | S n =>
      match s with
      | EmptyString => PFail DecodeError
      | String c r =>
          if (Ascii.eqb c "}" && first)%bool then POk (JObj acc) r
          else if Ascii.eqb c ch_quote then
            match scan_string r with
            | PFail e => PFail e
            | POk key rest =>
                match skip_ws rest with
                | String ":" rest1 =>
                    match scan_value n (skip_ws rest1) with
                    | PFail e => PFail e
                    | POk v rest2 =>
                        let acc' := dict_set key v acc in
                        match skip_ws rest2 with
                        | String "}" rest3 => POk (JObj acc') rest3
                        | String "," rest3 =>
                            scan_members n (skip_ws rest3) acc' false
                        | _ => PFail DecodeError
                        end
                    end
                | _ => PFail DecodeError
                end
            end
          else PFail DecodeError
      end
  end
with scan_elements `{Env} (fuel : nat) (s : string) (acc : list json)
  (first : bool) {struct fuel} : parsed json :=
  match fuel with
  | O => PFail OutOfFuel
  | S n =>
      match s with
      | String "]" r =>
          if first then POk (JList acc) r else PFail DecodeError
      | _ =>
          match scan_value n s with
          | PFail e => PFail e
          | POk v rest =>
              let acc' := (acc ++ [v])%list in
              match skip_ws rest with
              | String "]" rest1 => POk (JList acc') rest1
              | String "," rest1 => scan_elements n (skip_ws rest1) acc' false
              | _ => PFail DecodeError
              end
          end
      end
  end.

Inductive loaded : Type :=
| Loaded (v : json)
| LoadFailed (e : loads_error).

(** [json.loads(s)]: one value with whitespace around it. *)
Definition json_loads `{Env} (s : string) : loaded :=
  match scan_value (2 * String.length s + 2) (skip_ws s) with
  | POk v rest =>
      match skip_ws rest with
      | EmptyString => Loaded v
      | _ => LoadFailed DecodeError
      end
  | PFail e => LoadFailed e
  end.

(** ** The tolerant loader *)

Inductive strip_mode : Type :=
| Normal
| InLineComment
| Skipping (n : nat).

(** The length of the rest of a block comment on its line, closing
    characters included, when it closes there. *)
Fixpoint block_rest (s : string) : option nat :=
  match s with
  | EmptyString => None
  | String c r =>
      if (Ascii.eqb c "*" && head_is "/" r)%bool then Some 2
      else if Ascii.eqb c ch_nl then None
      else option_map S (block_rest r)
  end.

(** [_comment_re.sub("", s)]: from [//] to the end of the line, and from
    [/*] to the next [*/] of the same line. *)
Fixpoint strip_comments_from (mode : strip_mode) (s : string) : string :=
  match s with
  | EmptyString => EmptyString
  | String c r =>
      match mode with
      | Skipping (S n) => strip_comments_from (Skipping n) r
      | InLineComment =>
          if Ascii.eqb c ch_nl then String c (strip_comments_from Normal r)
          else strip_comments_from InLineComment r
      | _ =>
          if (Ascii.eqb c "/" && head_is "/" r)%bool then
            strip_comments_from InLineComment r
          else if (Ascii.eqb c "/" && head_is "*" r)%bool then
            match r with
            | String _ r' =>
                match block_rest r' with
                | Some k => strip_comments_from (Skipping (S k)) r
                | None => String c (strip_comments_from Normal r)
                end
            | EmptyString => String c (strip_comments_from Normal r)
            end
          else String c (strip_comments_from Normal r)
      end
  end.

Definition strip_comments (s : string) : string :=
  strip_comments_from Normal s.

Definition closes_after_space (s : string) : bool :=
  match lstrip_while is_space s with
  | String c _ => (Ascii.eqb c "}" || Ascii.eqb c "]")%bool
  | EmptyString => false
  end.

(** [_trailing_comma_re.sub(r"\1", s)]: a comma, and the whitespace after
    it, before a closing brace or bracket. *)
Fixpoint strip_trailing_commas_from (dropping : bool) (s : string) : string :=
  match s with
  | EmptyString => EmptyString
  | String c r =>
      if (dropping && is_space c)%bool then strip_trailing_commas_from true r
      else if (Ascii.eqb c "," && closes_after_space r)%bool then
        strip_trailing_commas_from true r
      else String c (strip_trailing_commas_from false r)
  end.

Definition strip_trailing_commas (s : string) : string :=
  strip_trailing_commas_from false s.

(** [json_loads_tolerant(s)] *)
Definition json_loads_tolerant `{Env} (s : string) : loaded :=
  match json_loads s with
  | LoadFailed DecodeError =>
      let s2 := strip_comments s in
      let s2 := strip_trailing_commas s2 in
      json_loads s2
  | r => r
  end.

(** ** The mirror importer *)

(** [build_from_mirror], from the parsed document on. *)
Definition mirror_packages (pkgs : json) : json :=
  match pkgs with
  | JObj d => py_or (py_or (py_get d "packages") (py_get d "data")) (JList [])
  | _ => pkgs
  end.

(** [build_from_mirror(src)], given the text that the download and the
    decoding yield. *)
Definition build_from_mirror `{Env} (text : result string) : result json :=
  data <- text ;;
  match json_loads data with
  | Loaded pkgs => Ok (mirror_packages pkgs)
  | LoadFailed DecodeError => Raise JSONDecodeError
  | LoadFailed NotModelled => Raise (OtherException "NotModelled")
  | LoadFailed OutOfFuel => Raise (OtherException "OutOfFuel")
  end.

(** What the mirror importer returns for an object, by the keys present. *)
Definition mirror_choice (d : list (string * json)) : json :=
  let second := match dict_get "data" d with
                | Some b => if truthy b then b else JList []
                | None => JList []
                end in
  match dict_get "packages" d with
  | Some a => if truthy a then a else second
  | None => second
  end.

(** ** The index writer *)

(** [str(n)] for an integer. *)
Definition decimal (z : Z) : string :=
  DecimalString.NilZero.string_of_int (Z.to_int z).

Definition hex_digit (n : N) : ascii :=
  if (n <? 10)%N then ascii_of_N (n + 48) else ascii_of_N (n + 87).

(** The escapes of [json.dumps(..., ensure_ascii=False)]. *)
Definition escape_char (c : ascii) : string :=
  if Ascii.eqb c ch_quote then String ch_backslash (String ch_quote EmptyString)
  else if Ascii.eqb c ch_backslash then "\\"
  else if Ascii.eqb c ch_nl then "\n"
  else if Ascii.eqb c ch_cr then "\r"
  else if Ascii.eqb c ch_tab then "\t"
  else if Ascii.eqb c "008" then "\b"
  else if Ascii.eqb c ch_ff then "\f"
  else if Ascii.ltb c " " then
    "\u00" ++ String (hex_digit (N_of_ascii c / 16))
                (String (hex_digit (N_of_ascii c mod 16)) EmptyString)
  else String c EmptyString.

Fixpoint escape_str (s : string) : string :=
  match s with
  | EmptyString => EmptyString
  | String c r => escape_char c ++ escape_str r
  end.

Definition dump_str (s : string) : string :=
  String ch_quote (escape_str s ++ String ch_quote EmptyString).

Fixpoint spaces (n : nat) : string :=
  match n with
  | O => EmptyString
  | S k => String " " (spaces k)
  end.

(** A newline and the indentation of nesting level [level], two spaces per
    level. *)
Definition newline_indent (level : nat) : string :=
  String ch_nl (spaces (2 * level)).

Definition dump_float `{Env} (f : pyfloat) : string :=
  match f with
  | FNan => "NaN"
  | FInf false => "Infinity"
  | FInf true => "-Infinity"
  | _ => float_repr f
  end.

(** [json.dumps(v, indent=2, ensure_ascii=False)], [v] at nesting level
    [level]: the keys in the order of the dictionary. *)
Fixpoint dumps_at `{Env} (level : nat) (v : json) {struct v} : string :=
  match v with
  | JNull => "null"
  | JBool true => "true"
  | JBool false => "false"
  | JInt z => decimal z
  | JFloat f => dump_float f
  | JStr s => dump_str s
  | JList [] => "[]"
  | JList (x :: r) =>
      "[" ++ newline_indent (S level) ++ dumps_at (S level) x
      ++ (fix items (l : list json) : string :=
            match l with
            | [] => EmptyString
            | y :: l' =>
                "," ++ newline_indent (S level) ++ dumps_at (S level) y
                ++ items l'
            end) r
      ++ newline_indent level ++ "]"
  | JObj [] => "{}"
  | JObj ((k, x) :: r) =>
      "{" ++ newline_indent (S level) ++ dump_str k ++ ": "
      ++ dumps_at (S level) x
      ++ (fix members (l : list (string * json)) : string :=
            match l with
            | [] => EmptyString
            | (k', y) :: l' =>
                "," ++ newline_indent (S level) ++ dump_str k' ++ ": "
                ++ dumps_at (S level) y ++ members l'
            end) r
      ++ newline_indent level ++ "}"
  end.

Definition json_dumps `{Env} (v : json) : string := dumps_at 0 v.

Definition byte_of_N (n : N) : Byte.byte :=
  match Byte.of_N n with
  | Some b => b
  | None => Byte.x00
  end.

(** The UTF-8 encoding of the code points below 256. *)
Fixpoint utf8_encode (s : string) : list Byte.byte :=
  match s with
  | EmptyString => []
  | String c r =>
      let n := N_of_ascii c in
      if (n <? 128)%N then byte_of_N n :: utf8_encode r
      else byte_of_N (192 + n / 64) :: byte_of_N (128 + n mod 64)
           :: utf8_encode r
  end.

(** A version entry and a package as the dictionaries that the scanner
    builds, key by key. *)
Definition optional_key (k : string) (o : option json) : list (string * json) :=
  match o with
  | Some v => [(k, v)]
  | None => []
  end.

Definition version_to_json (e : version_entry) : json :=
  JObj ([("version", JStr (ve_version e));
         ("download_url", JStr (ve_download_url e));
         ("download_sha256", JStr (ve_download_sha256 e));
         ("download_size", JInt (ve_download_size e));
         ("status", JStr (ve_status e));
         ("kicad_version", JStr (ve_kicad_version e))]
        ++ optional_key "install_size" (option_map JInt (ve_install_size e)))%list.

Definition package_to_json (p : package) : json :=
  JObj ([("$schema", JStr "https://go.kicad.org/pcm/schemas/v1");
         ("identifier", JStr (pkg_identifier p));
         ("name", pkg_name p);
         ("type", pkg_type p);
         ("description", pkg_description p)]
        ++ optional_key "description_full" (pkg_description_full p)
        ++ [("license", pkg_license p)]
        ++ optional_key "author" (pkg_author p)
        ++ optional_key "maintainer" (pkg_maintainer p)
        ++ [("resources", pkg_resources p);
            ("versions", JList (map version_to_json (pkg_versions p)))])%list.

(** What a run of [main] finds around it: the environment variable, the
    clock at its two readings and the files next to the scripts.  Files are
    written as on POSIX, a newline staying one byte. *)
Record world : Type := {
  github_repository : option string;
  now_first : string * Z;
  now_second : string * Z;
  files : list (string * list Byte.byte)
}.

Definition packages_obj (all_packages : list json) : json :=
  JObj [("packages", JList all_packages)].

(** The bytes of [packages.json]. *)
Definition index_bytes `{Env} (all_packages : list json) : list Byte.byte :=
  utf8_encode (json_dumps (packages_obj all_packages)).

Definition repo_fullname (w : world) : string :=
  match github_repository w with
  | Some r => r
  | None => "justinlevinedotme/jal-kicad-pcm"
  end.

Definition file_block (url sha : string) (now : string * Z) : json :=
  JObj [("url", JStr url); ("sha256", JStr sha);
        ("update_time_utc", JStr (fst now));
        ("update_timestamp", JInt (snd now))].

(** [repo_json], given the bytes read back from [packages.json]. *)
Definition repository_descriptor `{Env} (repo_name maintainer : json)
  (pk_bytes : list Byte.byte) (w : world) : json :=
  JObj ([("$schema",
          JStr "https://gitlab.com/kicad/code/kicad/-/raw/master/kicad/pcm/schemas/pcm.v1.schema.json#/definitions/Repository");
         ("name", repo_name);
         ("maintainer", maintainer);
         ("packages",
          file_block ("https://raw.githubusercontent.com/" ++ repo_fullname w
                      ++ "/main/packages.json")
            (sha256_bytes pk_bytes) (now_first w))]
        ++ match dict_get "resources.zip" (files w) with
           | Some res_bytes =>
               [("resources",
                 file_block ("https://raw.githubusercontent.com/"
                             ++ repo_fullname w ++ "/main/resources.zip")
                   (sha256_bytes res_bytes) (now_second w))]
           | None => []
           end)%list.

(** [main], from [packages_obj] on: the two files written, and the
    descriptor for reference. *)
Definition write_outputs `{Env} (repo_name maintainer : json)
  (all_packages : list json) (w : world)
  : result (list (string * list Byte.byte) * json) :=
  let fs1 := dict_set "packages.json" (index_bytes all_packages) (files w) in
  match dict_get "packages.json" fs1 with
  | Some pk_bytes =>
      let repo_json := repository_descriptor repo_name maintainer pk_bytes w in
      Ok (dict_set "repository.json" (utf8_encode (json_dumps repo_json)) fs1,
          repo_json)
  | None => Raise OSError
  end.

(** ** The resource packer ([update_resources.py]) *)

(** An exception: its class and the text that [str] gives for it. *)
Record exn : Type := {
  exn_class_of : exn_class;
  exn_message : string
}.

Inductive outcome (A : Type) : Type :=
| Returned (a : A)
| Raised (e : exn).

Arguments Returned {A} a.
Arguments Raised {A} e.

(** The process: the file system [W] behind the operating system's calls,
    and the two output streams.  Writing to a stream succeeds. *)
Record process (W : Type) : Type := {
  proc_os : W;
  proc_stdout : list string;
  proc_stderr : list string
}.

Arguments proc_os {W} p.
Arguments proc_stdout {W} p.
Arguments proc_stderr {W} p.

(** The calls of the packer into [pathlib] and [zipfile]; each may raise. *)
Class PackerOS (W : Type) : Type := {
  path_exists : string -> W -> outcome bool * W;
  path_unlink : string -> W -> outcome unit * W;
  package_dirs : W -> outcome (list string) * W;
  files_under : string -> W -> outcome (list string) * W;
  zip_open : W -> outcome unit * W;
  zip_write : string -> string -> W -> outcome unit * W;
  zip_close : W -> outcome unit * W;
  zip_size : W -> outcome Z * W
}.

Definition io (W A : Type) : Type := process W -> outcome A * process W.

Definition io_ret {W A : Type} (a : A) : io W A := fun p => (Returned a, p).

Definition io_bind {W A B : Type} (m : io W A) (k : A -> io W B) : io W B :=
  fun p =>
    match m p with
    | (Returned a, p') => k a p'
    | (Raised e, p') => (Raised e, p')
    end.

Notation "x <~ m ;; k" := (io_bind m (fun x => k))
  (at level 61, m at next level, right associativity).

Definition os_call {W A : Type} (f : W -> outcome A * W) : io W A :=
  fun p =>
    let (r, w') := f (proc_os p) in
    (r, {| proc_os := w'; proc_stdout := proc_stdout p;
           proc_stderr := proc_stderr p |}).

Definition print {W : Type} (line : string) : io W unit :=
  fun p =>
    (Returned tt,
     {| proc_os := proc_os p;
        proc_stdout := (proc_stdout p ++ [line])%list;
        proc_stderr := proc_stderr p |}).

Definition print_err {W : Type} (line : string) : io W unit :=
  fun p =>
    (Returned tt,
     {| proc_os := proc_os p;
        proc_stdout := proc_stdout p;
        proc_stderr := (proc_stderr p ++ [line])%list |}).

(** [with ... as z: body]: the archive is closed on the way out, also when
    the body raises; an exception of the closing wins. *)
Definition with_zip {W : Type} `{PackerOS W} (body : io W unit) : io W unit :=
  _ <~ os_call zip_open ;;
  fun p =>
    match body p with
    | (Returned tt, p1) => os_call zip_close p1
    | (Raised e, p1) =>
        match os_call zip_close p1 with
        | (Returned tt, p2) => (Raised e, p2)
        | (Raised e2, p2) => (Raised e2, p2)
        end
    end.

Fixpoint io_for {W A : Type} (l : list A) (body : A -> io W unit) : io W unit :=
  match l with
  | [] => io_ret tt
  | x :: r => _ <~ body x ;; io_for r body
  end.

(** [str.lower] on the code points below 256. *)
Definition chr_lower (c : ascii) : ascii :=
  if (between "A" "Z" c
      || (between "192" "222" c && negb (Ascii.eqb c "215")))%bool
  then ascii_of_N (N_of_ascii c + 32) else c.

Fixpoint str_lower (s : string) : string :=
  match s with
  | EmptyString => EmptyString
  | String c r => String (chr_lower c) (str_lower r)
  end.

(** [sorted(l, key=...)]: ascending by key, elements of equal key in their
    original order. *)
Fixpoint insert_asc {A : Type} (key : A -> string) (x : A) (l : list A)
  : list A :=
  match l with
  | [] => [x]
  | y :: r =>
      if String.ltb (key y) (key x) then y :: insert_asc key x r
      else x :: y :: r
  end.

Fixpoint sort_asc {A : Type} (key : A -> string) (l : list A) : list A :=
  match l with
  | [] => []
  | x :: r => insert_asc key x (sort_asc key r)
  end.

Definition assets_path : string := "assets".
Definition out_zip_path : string := "resources.zip".

(** [add_dir_to_zip(z, base_dir, arc_prefix)] *)
Definition add_dir_to_zip {W : Type} `{PackerOS W} (pkg_dir : string)
  : io W unit :=
  rels <~ os_call (files_under pkg_dir) ;;
  io_for rels
    (fun rel =>
       os_call (zip_write (assets_path ++ "/" ++ pkg_dir ++ "/" ++ rel)
                  (pkg_dir ++ "/" ++ rel))).

(** The two early returns of [main]: a stale archive is removed. *)
Definition nothing_to_build {W : Type} `{PackerOS W} (removed kept : string)
  : io W unit :=
  stale <~ os_call (path_exists out_zip_path) ;;
  if stale then
    _ <~ os_call (path_unlink out_zip_path) ;;
    print removed
  else print kept.

(** [main()] of the packer. *)
Definition packer_main {W : Type} `{PackerOS W} : io W unit :=
  present <~ os_call (path_exists assets_path) ;;
  if negb present then
    nothing_to_build "Removed stale resources.zip (no assets/ found)."
      "No assets/ directory; nothing to build."
  else
    pkg_dirs <~ os_call package_dirs ;;
    match pkg_dirs with
    | [] =>
        nothing_to_build "Removed stale resources.zip (assets/ empty)."
          "assets/ has no package folders; nothing to build."
    | _ =>
        _ <~ with_zip (io_for (sort_asc str_lower pkg_dirs) add_dir_to_zip) ;;
        size <~ os_call zip_size ;;
        print ("Built resources.zip (" ++ decimal size ++ " bytes) from "
               ++ decimal (Z.of_nat (List.length pkg_dirs))
               ++ " package folder(s).")
    end.

(** How the process ends: with an exit status, or on an exception that
    nothing handles (a traceback and no success status). *)
Inductive termination : Type :=
| Exited (status : Z)
| Unhandled (e : exn).

(** The [__main__] guard: [except Exception] handles the exceptions that
    derive from [Exception], prints the warning and exits with status 0. *)
Definition packer_script {W : Type} `{PackerOS W} (p : process W)
  : termination * process W :=
  match packer_main p with
  | (Returned tt, p') => (Exited 0, p')
  | (Raised e, p') =>
      if is_Exception (exn_class_of e) then
        let (_, p'') :=
          print_err ("[update_resources] warning: " ++ exn_message e) p' in
        (Exited 0, p'')
      else (Unhandled e, p')
  end.

(** Two operating systems for the examples: one where the first call is
    interrupted from the keyboard, one where removing the stale archive is
    refused. *)
Definition raise_in {A : Type} (c : exn_class) (msg : string) (w : unit)
  : outcome A * unit :=
  (Raised {| exn_class_of := c; exn_message := msg |}, w).

Definition interrupted_os : PackerOS unit :=
  {| path_exists := fun _ => raise_in KeyboardInterrupt EmptyString;
     path_unlink := fun _ w => (Returned tt, w);
     package_dirs := fun w => (Returned [], w);
     files_under := fun _ w => (Returned [], w);
     zip_open := fun w => (Returned tt, w);
     zip_write := fun _ _ w => (Returned tt, w);
     zip_close := fun w => (Returned tt, w);
     zip_size := fun w => (Returned 0%Z, w) |}.

Definition readonly_os : PackerOS unit :=
  {| path_exists := fun path w =>
       (Returned (String.eqb path out_zip_path), w);
     path_unlink := fun _ =>
       raise_in OSError "[Errno 13] Permission denied: 'resources.zip'";
     package_dirs := fun w => (Returned [], w);
     files_under := fun _ w => (Returned [], w);
     zip_open := fun w => (Returned tt, w);
     zip_write := fun _ _ w => (Returned tt, w);
     zip_close := fun w => (Returned tt, w);
     zip_size := fun w => (Returned 0%Z, w) |}.

Definition fresh_process : process unit :=
  {| proc_os := tt; proc_stdout := []; proc_stderr := [] |}.

(** [v[k]] read off a descriptor, [None] when it is not there. *)
Definition json_field (v : json) (k : string) : json :=
  match v with
  | JObj d => py_get d k
  | _ => JNull
  end.

(** ** Documents for the tolerant loader *)

Definition quoted (s : string) : string :=
  String ch_quote (s ++ String ch_quote EmptyString).

Fixpoint join_lines (l : list string) : string :=
  match l with
  | [] => EmptyString
  | [x] => x
  | x :: r => x ++ String ch_nl (join_lines r)
  end.

(** A manifest with a comment line and a trailing comma, and the same
    without them. *)
Definition doc_plain : string :=
  join_lines ["{"; "// generated"; quoted "name" ++ ": " ++ quoted "Foo" ++ ","; "}"].

Definition doc_plain_clean : string :=
  join_lines ["{"; quoted "name" ++ ": " ++ quoted "Foo"; "}"].

(** The same with a URL in a string. *)
Definition doc_url : string :=
  join_lines ["{"; "// generated";
              quoted "homepage" ++ ": " ++ quoted "https://example.org/foo" ++ ",";
              "}"].

Definition doc_url_clean : string :=
  join_lines ["{";
              quoted "homepage" ++ ": " ++ quoted "https://example.org/foo";
              "}"].

(** The same with a comma and a brace in a string. *)
Definition doc_brace : string :=
  join_lines ["{"; "// generated";
              quoted "description" ++ ": " ++ quoted "sets {a, }" ++ ",";
              "}"].

Definition doc_brace_clean : string :=
  join_lines ["{";
              quoted "description" ++ ": " ++ quoted "sets {a, }";
              "}"].

(** ** The version string and the install size, in the words of the
    specification *)

(** The version string as the specification states it: the declared version
    when present and non-empty, else the tag without its leading [v], else
    [0.0.0]. *)
Definition claimed_version_str (manifest : list (string * json))
  (tag : option string) : string :=
  let from_tag := match tag with
                  | Some (String "v" t) => t
                  | Some t => t
                  | None => "0.0.0"
                  end in
  match dict_get "version" manifest with
  | Some (JStr s) => if String.eqb s EmptyString then from_tag else s
  | _ => from_tag
  end.

(** The same with what the code adds: surrounding whitespace is removed,
    every leading [v] of the tag goes, and an empty tag counts as none. *)
Definition stripped_version_str (manifest : list (string * json))
  (tag : option string) : string :=
  let from_tag := match tag with
                  | Some t => if String.eqb t EmptyString then "0.0.0"
                              else str_lstrip "v" t
                  | None => "0.0.0"
                  end in
  str_strip match dict_get "version" manifest with
            | Some (JStr s) => if String.eqb s EmptyString then from_tag else s
            | _ => from_tag
            end.

(** The install size of an entry: the integer that [int] makes of a truthy
    value, nothing for a falsy value or when [int] raises. *)
Definition converted_install_size (manifest : list (string * json))
  : option Z :=
  match dict_get "install_size" manifest with
  | Some v =>
      if truthy v then
        match py_int v with
        | Ok z => Some z
        | Raise _ => None
        end
      else None
  | None => None
  end.

(** ** A small scan, for the examples *)

(** Three archives, named by one byte each, and the manifests in them. *)
Definition example_manifest (identifier name version : string) : json :=
  JObj [("identifier", JStr identifier); ("name", JStr name);
        ("version", JStr version)].

Definition example_archive (data : list Byte.byte)
  : result (option (json * string)) :=
  match data with
  | [Byte.x01] =>
      Ok (Some (example_manifest "com.example.foo" "Foo" "1.2.0", "manifest.json"))
  | [Byte.x02] =>
      Ok (Some (example_manifest "com.example.foo" "Foo again" "1.9.0",
                "metadata.json"))
  | [Byte.x03] =>
      Ok (Some (example_manifest "com.example.foo" "Foo the third" "1.10.0",
                "manifest.json"))
  | [Byte.x04] =>
      Ok (Some (example_manifest "com.example.foo" "Foo repeated" "1.2.0",
                "manifest.json"))
  | _ => Ok None
  end.

(** An environment for the examples: [str] is given on strings, the only
    values the examples pass to it; no float occurs; the digest is left
    empty; [assets/] holds an icon for [com.example.foo]. *)
Definition example_env : Env :=
  {| py_str := fun v => match v with JStr t => t | _ => EmptyString end;
     float_repr := fun _ => EmptyString;
     float_of_literal := fun _ => FNan;
     sha256_hex := fun _ => EmptyString;
     read_manifest_from_archive := example_archive;
     assets_dir_exists := fun i => String.eqb i "com.example.foo";
     icon_exists := fun i => String.eqb i "com.example.foo";
     screenshot_exists := fun _ => false |}.

Definition example_asset (name : string) (b : Byte.byte) : asset :=
  {| asset_name := Some name;
     asset_url := Some ("https://example.invalid/" ++ name);
     asset_body := Ok [b] |}.

Definition example_source : source :=
  {| src_repo := "example/foo";
     src_asset_glob := None;
     src_only_latest := false;
     src_id := Some (JStr "foo") |}.

Definition example_release : release :=
  {| rel_tag_name := Some "v2";
     rel_created_at := "2024-05-01T00:00:00Z";
     rel_assets := [example_asset "a.zip" Byte.x01;
                    example_asset "b.zip" Byte.x02;
                    example_asset "notes.txt" Byte.x02;
                    example_asset "c.zip" Byte.x03;
                    example_asset "d.zip" Byte.x04] |}.

Definition example_listing : result (list release) := Ok [example_release].

(** ** Auxiliary definitions of the proofs *)

(** The text that the two replacements leave: one regular-expression
    fragment per character of the glob. *)
Definition star_step (c : ascii) : string :=
  if Ascii.eqb c "*" then ".*"
  else if re_special c then String ch_backslash (String c EmptyString)
  else String c EmptyString.

Definition glob_step (c : ascii) : string :=
  if Ascii.eqb c "*" then ".*"
  else if Ascii.eqb c "?" then "."
  else if re_special c then String ch_backslash (String c EmptyString)
  else String c EmptyString.

Fixpoint expand (step : ascii -> string) (p : string) : string :=
  match p with
  | EmptyString => EmptyString
  | String c r => step c ++ expand step r
  end.

(** The tokens and the items of the compiled glob, per glob character. *)
Definition glob_toks (c : ascii) : list rx_token :=
  if Ascii.eqb c "*" then [TClass RxDot; TStar]
  else if Ascii.eqb c "?" then [TClass RxDot]
  else [TClass (RxChar c)].

Definition glob_item (c : ascii) : rx_item :=
  if Ascii.eqb c "*" then RxStar RxDot
  else if Ascii.eqb c "?" then RxOne RxDot
  else RxOne (RxChar c).

Fixpoint glob_items (p : string) : regex :=
  match p with
  | EmptyString => []
  | String c r => glob_item c :: glob_items r
  end.

Fixpoint glob_tokens (p : string) : list rx_token :=
  match p with
  | EmptyString => []
  | String c r => glob_toks c ++ glob_tokens r
  end.

Definition starts_with_star (ts : list rx_token) : bool :=
  match ts with
  | TStar :: _ => true
  | _ => false
  end.

Fixpoint all_chars_in (f : ascii -> bool) (s : string) : bool :=
  match s with
  | EmptyString => true
  | String c r => (f c && all_chars_in f r)%bool
  end.

(** The entry that an asset contributes, field by field. *)
Definition entry_of `{Env} (url : string) (sha : string) (size : Z)
  (m : list (string * json)) (w : string) : version_entry :=
  {| ve_version := w;
     ve_download_url := url;
     ve_download_sha256 := sha;
     ve_download_size := size;
     ve_status := py_str (py_get_default m "status" (JStr "testing"));
     ve_kicad_version := py_str (py_get_default m "kicad_version" (JStr "8.0"));
     ve_install_size := converted_install_size m |}.

(** The versions of package [j] before a merge: none when it is new. *)
Definition versions_before (j : string) (st : scan_state) : list version_entry :=
  match dict_get j (st_packages st) with
  | Some p => pkg_versions p
  | None => []
  end.

(** Descending order of the keys. *)
Definition key_ge {A : Type} (key : A -> string) (x y : A) : Prop :=
  str_ge (key x) (key y).

(** After the pairs [l], the packages [pk] are exactly what the first
    sightings in [l] say. *)
Record scan_inv `{Env} (src : source) (rx : regex)
  (l : list (option string * asset)) (pk : list (string * package)) : Prop := {
  inv_keys : NoDup (map fst pk);
  inv_ident : forall i p, dict_get i pk = Some p -> pkg_identifier p = i;
  inv_created : forall i m,
    first_manifest src rx i l = Some m -> dict_has i pk = true;
  inv_display : forall i p,
    dict_get i pk = Some p ->
    exists m, first_manifest src rx i l = Some m
              /\ display p = display (new_package i m)
              /\ wire_resources i (pkg_resources (new_package i m))
                 = Ok (pkg_resources p);
  inv_nodup : forall i p,
    dict_get i pk = Some p -> NoDup (map ve_version (pkg_versions p));
  inv_sound : forall i p e,
    dict_get i pk = Some p -> In e (pkg_versions p) ->
    first_entry src rx i (ve_version e) l = Some (Ok e);
  inv_complete : forall i v r,
    first_entry src rx i v l = Some r ->
    exists p e, r = Ok e /\ dict_get i pk = Some p /\ In e (pkg_versions p)
}.

(** ** More of the index builder: the manifest inside an archive *)

(** [c in s] for a character. *)
Fixpoint has_char (c : ascii) (s : string) : bool :=
  match s with
  | EmptyString => false
  | String x r => (Ascii.eqb x c || has_char c r)%bool
  end.

(** [n in names] *)
Definition in_names (n : string) (names : list string) : bool :=
  existsb (String.eqb n) names.

(** [p.split("/", 1)[0]] for the names that hold a slash. *)
Fixpoint top_folders (names : list string) : list string :=
  match names with
  | [] => []
  | p :: r =>
      match split_once "/" p with
      | Some (top, _) => top :: top_folders r
      | None => top_folders r
      end
  end.

(** [_select_manifest_name(names)]: a manifest at the root, else under the
    top-level folder when the set of top-level folders has one element. *)
Definition select_manifest_name (names : list string) : option string :=
  if in_names "manifest.json" names then Some "manifest.json"
  else if in_names "metadata.json" names then Some "metadata.json"
  else
    match nodup string_dec (top_folders names) with
    | [root] =>
        if in_names (root ++ "/manifest.json") names
        then Some (root ++ "/manifest.json")
        else if in_names (root ++ "/metadata.json") names
        then Some (root ++ "/metadata.json")
        else None
    | _ => None
    end.

(** What [zipfile] and [tarfile] make of a blob: the names of a zip archive
    ([None] on [BadZipFile]) and the decoded text of a member; the names of
    the regular files of a tar archive ([None] on [ReadError]) and the
    decoded text of a member ([None] when [extractfile] gives nothing). *)
Class ArchiveLib : Type := {
  zip_namelist : list Byte.byte -> option (list string);
  zip_read_text : list Byte.byte -> string -> result string;
  tar_file_names : list Byte.byte -> option (list string);
  tar_read_text : list Byte.byte -> string -> result (option string)
}.

(** The inner [try]: the member's text through the tolerant loader.  The
    second component is the file named in the logged parse error, if any. *)
Definition load_member `{Env} (target : string) (text : result (option string))
  : result (option (json * string) * option string) :=
  match text with
  | Ok (Some t) =>
      match json_loads_tolerant t with
      | Loaded v => Ok (Some (v, target), None)
      | LoadFailed DecodeError => Ok (None, Some target)
      | LoadFailed NotModelled => Raise (OtherException "NotModelled")
      | LoadFailed OutOfFuel => Raise (OtherException "OutOfFuel")
      end
  | Ok None => Ok (None, None)
  | Raise e => if is_Exception e then Ok (None, Some target) else Raise e
  end.

Definition zip_target `{ArchiveLib} (blob : list Byte.byte) : option string :=
  match zip_namelist blob with
  | Some names => select_manifest_name names
  | None => None
  end.

Definition tar_target `{ArchiveLib} (blob : list Byte.byte) : option string :=
  match tar_file_names blob with
  | Some names => select_manifest_name names
  | None => None
  end.

(** [read_manifest_from_archive(blob)] over an archive library. *)
Definition read_manifest_with `{Env} `{ArchiveLib} (blob : list Byte.byte)
  : result (option (json * string) * option string) :=
  match zip_target blob with
  | Some target =>
      load_member target
        (match zip_read_text blob target with
         | Ok t => Ok (Some t)
         | Raise e => Raise e
         end)
  | None =>
      match tar_target blob with
      | Some target => load_member target (tar_read_text blob target)
      | None => Ok (None, None)
      end
  end.

(** The environment of a scan whose archives are read through the library. *)
Definition env_with_archives (E : Env) (L : ArchiveLib) : Env :=
  {| py_str := @py_str E;
     float_repr := @float_repr E;
     float_of_literal := @float_of_literal E;
     sha256_hex := @sha256_hex E;
     read_manifest_from_archive := fun blob =>
       match @read_manifest_with E L blob with
       | Ok (found, _) => Ok found
       | Raise e => Raise e
       end;
     assets_dir_exists := @assets_dir_exists E;
     icon_exists := @icon_exists E;
     screenshot_exists := @screenshot_exists E |}.

(** ** More of the index builder: what a scan has seen, continued *)

(** The asset has a name and a URL and its name passes the glob: the assets
    that the scanner downloads. *)
Definition fetched (rx : regex) (a : asset) : bool :=
  match asset_name a with
  | Some name =>
      (negb (str_falsy (asset_name a) || str_falsy (asset_url a))
       && rx_match rx name)%bool
  | None => false
  end.

(** The identifier under which a pair is merged, when it is. *)
Definition sighted_id `{Env} (src : source) (rx : regex)
  (x : option string * asset) : option string :=
  match usable_manifest rx (snd x) with
  | Some (_, _, m, _) =>
      match package_id src m with
      | Ok j => Some j
      | Raise _ => None
      end
  | None => None
  end.

(** A new key goes to the end of a dictionary; a key already there keeps its
    place. *)
Definition add_once (acc : list string) (j : string) : list string :=
  if in_names j acc then acc else (acc ++ [j])%list.

(** The identifiers seen, each once, in the order of their first sighting. *)
Definition ids_in_order `{Env} (src : source) (rx : regex)
  (l : list (option string * asset)) : list string :=
  fold_left (fun acc x => match sighted_id src rx x with
                          | Some j => add_once acc j
                          | None => acc
                          end) l [].

(** ** More of the index builder: [main] *)

(** A source of [repos.yaml] by its mode, with what the network answers for
    it: the listing of the releases, or the text of the mirrored index. *)
Inductive configured_source : Type :=
| ReleaseScanSource (src : source) (listing : result (list release))
| MirrorSource (text : result string)
| OtherModeSource (id : json).

(** [all_packages.extend(v)]: the elements of a list, the characters of a
    string, the keys of a mapping; the other values cannot be iterated. *)
Definition py_extend (acc : list json) (v : json) : result (list json) :=
  match v with
  | JList l => Ok (acc ++ l)%list
  | JStr s =>
      Ok (acc ++ map (fun c => JStr (String c EmptyString))
                   (list_ascii_of_string s))%list
  | JObj d => Ok (acc ++ map (fun kv => JStr (fst kv)) d)%list
  | _ => Raise TypeError
  end.

(** What [main] prints for a source: the lines of its scan, or the warning
    about its mode. *)
Inductive main_event : Type :=
| Scanned (events : list log_event)
| UnknownMode (id : json).

(** What one source adds to [all_packages]. *)
Definition source_packages `{Env} (s : configured_source)
  : result (list json * list main_event) :=
  match s with
  | ReleaseScanSource src listing =>
      r <- build_from_release_scan src listing ;;
      Ok (map package_to_json (fst r), [Scanned (snd r)])
  | MirrorSource text =>
      v <- build_from_mirror text ;;
      l <- py_extend [] v ;;
      Ok (l, [])
  | OtherModeSource id => Ok ([], [UnknownMode id])
  end.

(** The loop of [main] over the sources. *)
Fixpoint collect_packages `{Env} (sources : list configured_source)
  (all_packages : list json) (printed : list main_event)
  : result (list json * list main_event) :=
  match sources with
  | [] => Ok (all_packages, printed)
  | s :: rest =>
      r <- source_packages s ;;
      collect_packages rest (all_packages ++ fst r)%list (printed ++ snd r)%list
  end.

(** [main()] of the index builder: the configuration gives the sources, and
    the name and the maintainer when it has them. *)
Definition index_main `{Env} (cfg_name cfg_maintainer : option json)
  (sources : list configured_source) (w : world)
  : result (list (string * list Byte.byte) * json * list main_event * nat) :=
  let maintainer :=
    match cfg_maintainer with
    | Some m => m
    | None => JObj [("name", JStr "Unknown"); ("contact", JObj [])]
    end in
  let repo_name :=
    match cfg_name with
    | Some n => n
    | None => JStr "Custom KiCad PCM Repository"
    end in
  r <- collect_packages sources [] [] ;;
  out <- write_outputs repo_name maintainer (fst r) w ;;
  Ok (fst out, snd out, snd r, List.length (fst r)).

(** ** Archives for the examples *)

(** A library for the examples: every blob is a zip archive of one folder
    with a [manifest.json] in it, whose text is the blob itself, one
    character per byte. *)
Definition text_archives : ArchiveLib :=
  {| zip_namelist := fun _ => Some ["pkg/"; "pkg/manifest.json"];
     zip_read_text := fun blob _ => Ok (string_of_list_byte blob);
     tar_file_names := fun _ => None;
     tar_read_text := fun _ _ => Ok None |}.

Definition archive_env : Env := env_with_archives example_env text_archives.

Definition text_asset (name text : string) : asset :=
  {| asset_name := Some name;
     asset_url := Some ("https://example.invalid/" ++ name);
     asset_body := Ok (list_byte_of_string text) |}.

Definition text_release (tag created : string) (assets : list asset) : release :=
  {| rel_tag_name := Some tag; rel_created_at := created; rel_assets := assets |}.

(** A manifest with an identifier and a version, and one whose version is a
    number. *)
Definition doc_foo : string :=
  "{" ++ quoted "identifier" ++ ":" ++ quoted "com.example.foo" ++ ","
  ++ quoted "version" ++ ":" ++ quoted "1.0.0" ++ "}".

Definition doc_numbered : string :=
  "{" ++ quoted "identifier" ++ ":" ++ quoted "com.example.foo" ++ ","
  ++ quoted "version" ++ ": 2}".

(** ** A run of [main], for the examples *)

Definition example_sources : list configured_source :=
  [ReleaseScanSource example_source example_listing;
   OtherModeSource (JStr "elsewhere");
   MirrorSource (Ok "[1, 2]")].

Definition example_world : world :=
  {| github_repository := None;
     now_first := ("2024-05-02 10:00:00", 1714644000%Z);
     now_second := ("2024-05-02 10:00:01", 1714644001%Z);
     files := [("resources.zip", [Byte.x50; Byte.x4b])] |}.

(** ** The calls of the packer, recorded *)

(** A call of the packer into the operating system.  The listing of the
    package folders is kept with what it returned, the opening of the
    archive with whether it succeeded. *)
Inductive os_event : Type :=
| EvExists (path : string)
| EvUnlink (path : string)
| EvDirs (dirs : option (list string))
| EvFiles (dir : string)
| EvOpen (opened : bool)
| EvWrite (path arcname : string)
| EvClose
| EvSize.

Definition returned {A : Type} (r : outcome A) : option A :=
  match r with
  | Returned a => Some a
  | Raised _ => None
  end.

Definition has_returned {A : Type} (r : outcome A) : bool :=
  match r with
  | Returned _ => true
  | Raised _ => false
  end.

(** A call that is passed on and written down. *)
Definition recorded {W A : Type} (ev : outcome A -> os_event)
  (f : W -> outcome A * W) (s : W * list os_event)
  : outcome A * (W * list os_event) :=
  let (r, w') := f (fst s) in (r, (w', (snd s ++ [ev r])%list)).

(** An operating system with a record of the calls made to it. *)
Definition recording_os {W : Type} (os : PackerOS W)
  : PackerOS (W * list os_event) :=
  {| path_exists := fun path =>
       recorded (fun _ => EvExists path) (@path_exists W os path);
     path_unlink := fun path =>
       recorded (fun _ => EvUnlink path) (@path_unlink W os path);
     package_dirs :=
       recorded (fun r => EvDirs (returned r)) (@package_dirs W os);
     files_under := fun dir =>
       recorded (fun _ => EvFiles dir) (@files_under W os dir);
     zip_open := recorded (fun r => EvOpen (has_returned r)) (@zip_open W os);
     zip_write := fun path arcname =>
       recorded (fun _ => EvWrite path arcname) (@zip_write W os path arcname);
     zip_close := recorded (fun _ => EvClose) (@zip_close W os);
     zip_size := recorded (fun _ => EvSize) (@zip_size W os) |}.

Definition events {W : Type} (p : process (W * list os_event))
  : list os_event :=
  snd (proc_os p).

Definition recording {W : Type} (p : process W) : process (W * list os_event) :=
  {| proc_os := (proc_os p, []);
     proc_stdout := proc_stdout p;
     proc_stderr := proc_stderr p |}.

Definition unrecorded {W : Type} (p : process (W * list os_event)) : process W :=
  {| proc_os := fst (proc_os p);
     proc_stdout := proc_stdout p;
     proc_stderr := proc_stderr p |}.

(** A monitor reads a record of calls from a state; [None] when a call is
    not allowed in the state it is made in. *)
Fixpoint monitor {S : Type} (step : S -> os_event -> option S) (s : S)
  (tr : list os_event) : option S :=
  match tr with
  | [] => Some s
  | e :: r =>
      match step s e with
      | Some s' => monitor step s' r
      | None => None
      end
  end.

(** The archive: not opened yet, open, or done with (closed, or never
    opened because the opening failed).  Files are written to an open
    archive only; nothing is looked up, removed, listed anew or measured
    while it is open; once done with, it is measured at most. *)
Inductive zip_phase : Type :=
| NotOpened
| Opened
| Done.

Definition zip_step (s : zip_phase) (e : os_event) : option zip_phase :=
  match s, e with
  | NotOpened, EvOpen true => Some Opened
  | NotOpened, EvOpen false => Some Done
  | NotOpened, (EvExists _ | EvUnlink _ | EvDirs _) => Some NotOpened
  | NotOpened, _ => None
  | Opened, (EvFiles _ | EvWrite _ _) => Some Opened
  | Opened, EvClose => Some Done
  | Opened, _ => None
  | Done, EvSize => Some Done
  | Done, _ => None
  end.

(** The folders: those still to visit once they are listed, in the order of
    their names in lower case, and the one being visited.  A folder is
    visited when it is the next in that order; a file is written from the
    folder being visited, under its path below [assets/]; only
    [resources.zip] is removed. *)
Record visit : Type := {
  to_visit : option (list string);
  visiting : option string
}.

Definition visit_step (s : visit) (e : os_event) : option visit :=
  match e with
  | EvDirs dirs =>
      match to_visit s with
      | None => Some {| to_visit := option_map (sort_asc str_lower) dirs;
                        visiting := None |}
      | Some _ => None
      end
  | EvFiles dir =>
      match to_visit s with
      | Some (next :: rest) =>
          if String.eqb dir next
          then Some {| to_visit := Some rest; visiting := Some dir |}
          else None
      | _ => None
      end
  | EvWrite path arcname =>
      match visiting s with
      | Some dir =>
          if (String.eqb path (assets_path ++ "/" ++ arcname)
              && String.prefix (dir ++ "/") arcname)%bool
          then Some s else None
      | None => None
      end
  | EvUnlink path => if String.eqb path out_zip_path then Some s else None
  | _ => Some s
  end.

(** From a record that the monitor reads up to state [s], the computation
    adds calls that the monitor reads on, up to a state that goes with the
    outcome as [T] says. *)
Definition moves {W S A : Type} (step : S -> os_event -> option S)
  (m : io (W * list os_event) A) (s : S) (T : outcome A -> S -> Prop) : Prop :=
  forall p s0,
    monitor step s0 (events p) = Some s ->
    exists s',
      monitor step s0 (events (snd (m p))) = Some s' /\ T (fst (m p)) s'.

(** The computation on the recording system does what the computation on
    the system itself does, the record apart. *)
Definition mirrors {W A : Type} (m' : io (W * list os_event) A) (m : io W A)
  : Prop :=
  forall p, (fst (m' p), unrecorded (snd (m' p))) = m (unrecorded p).

(** The computation prints nothing. *)
Definition quiet {W A : Type} (m : io W A) : Prop :=
  forall p,
    proc_stdout (snd (m p)) = proc_stdout p
    /\ proc_stderr (snd (m p)) = proc_stderr p.

(** The computation prints one line to the standard output, as the last
    thing it does, and nothing when it raises. *)
Definition prints_last {W A : Type} (m : io W A) : Prop :=
  forall p,
    proc_stderr (snd (m p)) = proc_stderr p
    /\ if has_returned (fst (m p))
       then exists line, proc_stdout (snd (m p)) = (proc_stdout p ++ [line])%list
       else proc_stdout (snd (m p)) = proc_stdout p.

(** ** The README generator ([update_readme.py]) *)

(** The text of the README and of the block written into it: code points,
    since the block holds characters beyond the range of the strings of the
    package data.  A string of the package data is a text through [txt]. *)
Definition text : Type := list N.

Definition txt (s : string) : text := map N_of_ascii (list_ascii_of_string s).

Definition line_break : text := [10%N].

Definition START : text := txt "<!-- AUTO-INDEX:START -->".
Definition END : text := txt "<!-- AUTO-INDEX:END -->".

(** [t.startswith(p)] and [p in t] *)
Fixpoint starts_with (p t : text) : bool :=
  match p, t with
  | [], _ => true
  | x :: p', y :: t' => (N.eqb x y && starts_with p' t')%bool
  | _ :: _, [] => false
  end.

Fixpoint contains (p t : text) : bool :=
  match t with
  | [] => starts_with p []
  | _ :: r => (starts_with p t || contains p r)%bool
  end.

(** [sep.join(parts)] *)
Fixpoint join_text (sep : text) (parts : list text) : text :=
  match parts with
  | [] => []
  | [x] => x
  | x :: r => (x ++ sep ++ join_text sep r)%list
  end.

Fixpoint join_str (sep : string) (parts : list string) : string :=
  match parts with
  | [] => EmptyString
  | [x] => x
  | x :: r => x ++ sep ++ join_str sep r
  end.

(** A loop that stops at the first exception. *)
Fixpoint map_result {A B : Type} (f : A -> result B) (l : list A)
  : result (list B) :=
  match l with
  | [] => Ok []
  | x :: r =>
      y <- f x ;;
      ys <- map_result f r ;;
      Ok (y :: ys)
  end.

(** [load_packages()], given the text read from [packages.json]. *)
Definition load_packages `{Env} (content : result string) : result json :=
  s <- content ;;
  match json_loads s with
  | Loaded (JObj d) =>
      if dict_has "packages" d then Ok (py_get d "packages") else Ok (JObj d)
  | Loaded data => Ok data
  | LoadFailed DecodeError => Raise JSONDecodeError
  | LoadFailed NotModelled => Raise (OtherException "NotModelled")
  | LoadFailed OutOfFuel => Raise (OtherException "OutOfFuel")
  end.

(** [v.get] is there on a mapping only. *)
Definition as_dict (v : json) : result (list (string * json)) :=
  match v with
  | JObj d => Ok d
  | _ => Raise AttributeError
  end.

(** A value in an f-string: a string as it is, another value by [str]. *)
Definition fmt `{Env} (v : json) : string :=
  match v with
  | JStr s => s
  | _ => py_str v
  end.

Definition pkg_display_name (pkg : json) : result json :=
  d <- as_dict pkg ;;
  Ok (py_get_default d "name"
        (py_get_default d "identifier" (JStr "(unknown)"))).

Definition pkg_home_link `{Env} (pkg : json) : result json :=
  d <- as_dict pkg ;;
  res <- as_dict (py_or (py_get d "resources") (JObj [])) ;;
  let home := py_get res "homepage" in
  name <- pkg_display_name pkg ;;
  Ok (if truthy home
      then JStr ("[" ++ fmt name ++ "](" ++ fmt home ++ ")")
      else name).

Definition URL_KEYS : list string :=
  ["homepage"; "website"; "web"; "url"; "github"; "gitlab"; "source"; "repo";
   "repository"; "twitter"].

Definition starts_http (v : string) : bool :=
  (String.prefix "http://" v || String.prefix "https://" v)%bool.

Fixpoint first_url_in (keys : list string) (d : list (string * json))
  : option string :=
  match keys with
  | [] => None
  | k :: r =>
      match py_get d k with
      | JStr v => if starts_http v then Some v else first_url_in r d
      | _ => first_url_in r d
      end
  end.

Definition first_url_like (d : json) : option string :=
  match d with
  | JObj kv => first_url_in URL_KEYS kv
  | _ => None
  end.

(** The name of a maintainer or author, stripped; the empty string when
    there is none. *)
Definition stripped_name (m : list (string * json)) : result string :=
  match py_or (py_get m "name") (JStr EmptyString) with
  | JStr s => Ok (str_strip s)
  | _ => Raise AttributeError
  end.

(** [f"[{name}]({url})" if url else name] *)
Definition named_link (name : string) (url : option string) : string :=
  match url with
  | Some u => "[" ++ name ++ "](" ++ u ++ ")"
  | None => name
  end.

Definition get_maintainer (pkg : json) : result string :=
  d <- as_dict pkg ;;
  m <- as_dict (py_or (py_get d "maintainer") (JObj [])) ;;
  name <- stripped_name m ;;
  let contact := py_or (py_get m "contact") (JObj []) in
  let url := first_url_like contact in
  if negb (String.eqb name EmptyString) then Ok (named_link name url)
  else
    a <- as_dict (py_or (py_get d "author") (JObj [])) ;;
    aname <- stripped_name a ;;
    let aurl := first_url_like (py_or (py_get a "contact") (JObj [])) in
    if negb (String.eqb aname EmptyString) then Ok (named_link aname aurl)
    else Ok "-".

Definition LICENSE_KEYS : list string :=
  ["spdx_id"; "id"; "name"; "license"; "title"].

Fixpoint first_license_in (keys : list string) (d : list (string * json))
  : option string :=
  match keys with
  | [] => None
  | k :: r =>
      match py_get d k with
      | JStr v =>
          if negb (String.eqb (str_strip v) EmptyString)
          then Some (str_strip v) else first_license_in r d
      | _ => first_license_in r d
      end
  end.

(** [s or None] for a string, and the test [if s] on a string or [None]. *)
Definition nonempty (s : string) : option string :=
  if String.eqb s EmptyString then None else Some s.

Definition is_truthy_str (o : option string) : bool :=
  match o with
  | Some s => negb (String.eqb s EmptyString)
  | None => false
  end.

(** The list comprehension of [normalize_license_field]: the normalized
    items that are truthy. *)
Definition license_parts (normalize : json -> option string)
  : list json -> list string :=
  fix parts_of (items : list json) : list string :=
    match items with
    | [] => []
    | item :: r =>
        if is_truthy_str (normalize item)
        then match normalize item with
             | Some s => s :: parts_of r
             | None => parts_of r
             end
        else parts_of r
    end.

Fixpoint normalize_license_field (value : json) : option string :=
  if negb (truthy value) then None
  else
    match value with
    | JStr s => nonempty (str_strip s)
    | JObj d => first_license_in LICENSE_KEYS d
    | JList l =>
        match license_parts normalize_license_field l with
        | [] => None
        | parts => Some (join_str ", " parts)
        end
    | _ => None
    end.

(** [versions[0]] *)
Definition first_item (versions : json) : result json :=
  match versions with
  | JList (x :: _) => Ok x
  | JList [] => Raise (OtherException "IndexError")
  | JStr (String c _) => Ok (JStr (String c EmptyString))
  | JStr EmptyString => Raise (OtherException "IndexError")
  | JObj _ => Raise KeyError
  | _ => Raise TypeError
  end.

(** [if s: return s], else what follows. *)
Definition or_else (s : option string) (otherwise : result string)
  : result string :=
  match s with
  | Some v => if is_truthy_str s then Ok v else otherwise
  | None => otherwise
  end.

Definition get_license (pkg : json) : result string :=
  d <- as_dict pkg ;;
  or_else (normalize_license_field (py_get d "license"))
    (or_else (normalize_license_field (py_get d "licenses"))
       (res <- as_dict (py_or (py_get d "resources") (JObj [])) ;;
        or_else
          (normalize_license_field
             (py_or (py_get res "license") (py_get res "licenses")))
          (let versions := py_or (py_get d "versions") (JList []) in
           if truthy versions then
             newest <- first_item versions ;;
             n <- as_dict newest ;;
             or_else
               (normalize_license_field
                  (py_or (py_get n "license") (py_get n "licenses")))
               (nres <- as_dict (py_or (py_get n "resources") (JObj [])) ;;
                or_else (normalize_license_field (py_get nres "license"))
                  (Ok "not specified"))
           else Ok "not specified"))).

Definition pkg_row `{Env} (pkg : json) : result string :=
  disp <- pkg_home_link pkg ;;
  maint <- get_maintainer pkg ;;
  lic <- get_license pkg ;;
  Ok ("| " ++ fmt disp ++ " | " ++ maint ++ " | " ++ lic ++ " |").

(** The header of the table; its three pictures are the code points
    U+1F4E6, U+1F464 and U+1F9FE. *)
Definition table_header : text :=
  (txt "| " ++ [128230%N] ++ txt " Package | " ++ [128100%N]
   ++ txt " Maintainer | " ++ [129534%N] ++ txt " License |"
   ++ line_break ++ txt "|---|---|---|")%list.

(** The key of the sort: [pkg_display_name(x).lower()]. *)
Definition sort_key (pkg : json) : result (string * json) :=
  n <- pkg_display_name pkg ;;
  match n with
  | JStr s => Ok (str_lower s, pkg)
  | _ => Raise AttributeError
  end.

Definition build_table `{Env} (pkgs : json) : result text :=
  if negb (truthy pkgs) then Ok (txt "_No packages indexed yet._")
  else
    match pkgs with
    | JList l =>
        keyed <- map_result sort_key l ;;
        rows <- map_result pkg_row (map snd (sort_asc fst keyed)) ;;
        Ok (join_text line_break (table_header :: map txt rows))
    | JObj _ | JStr _ => Raise AttributeError
    | _ => Raise TypeError
    end.

(** [len(pkgs)] *)
Definition py_len (v : json) : result nat :=
  match v with
  | JStr s => Ok (String.length s)
  | JList l => Ok (List.length l)
  | JObj d => Ok (List.length d)
  | _ => Raise TypeError
  end.

(** The note above the table; it holds U+2696 U+FE0F and, twice, U+2019. *)
Definition preface : text :=
  (txt "> " ++ [9878%N; 65039%N]
   ++ txt " **Licensing Note:** This index aggregates third-party KiCad packages. "
   ++ txt "Please review and respect each project" ++ [8217%N]
   ++ txt "s license before use or redistribution. "
   ++ txt "If a license isn" ++ [8217%N]
   ++ txt "t specified here, check the upstream repository."
   ++ txt "While this repository itself is MIT-licensed, the packages included retain their original licenses.")%list.

(** [render_block(pkgs)], given the time as [strftime] formats it; the line
    under the table holds U+2022. *)
Definition render_block `{Env} (ts : string) (pkgs : json) : result text :=
  count <- py_len pkgs ;;
  table <- build_table pkgs ;;
  Ok (START ++ line_break ++ line_break
      ++ preface ++ line_break ++ line_break
      ++ table ++ line_break ++ line_break
      ++ txt "_Last updated: **" ++ txt ts ++ txt "** " ++ [8226%N]
      ++ txt " Packages: **" ++ txt (decimal (Z.of_nat count)) ++ txt "**_"
      ++ line_break ++ END)%list.

(** [str.isspace] on a code point, and [t.rstrip()]. *)
Definition is_uspace (c : N) : bool :=
  ((9 <=? c) && (c <=? 13) || (28 <=? c) && (c <=? 32)
   || (c =? 133) || (c =? 160) || (c =? 5760)
   || (8192 <=? c) && (c <=? 8202)
   || (c =? 8232) || (c =? 8233) || (c =? 8239) || (c =? 8287)
   || (c =? 12288))%N%bool.

Fixpoint text_rstrip (t : text) : text :=
  match t with
  | [] => []
  | c :: r =>
      match text_rstrip r with
      | [] => if is_uspace c then [] else [c]
      | r' => c :: r'
      end
  end.

Definition ensure_markers (t : text) : text :=
  if (contains START t && contains END t)%bool then t
  else (text_rstrip t ++ line_break ++ line_break ++ txt "## Packages"
        ++ line_break ++ line_break ++ START ++ line_break ++ END
        ++ line_break)%list.

(** The replacement of [pattern.sub] is a template: a backslash starts an
    escape.  The escapes for control characters and for the backslash
    itself give one character; a backslash before an ASCII letter that
    starts no escape, and a backslash at the end, are rejected; a backslash
    before any other character stays with it.  References to groups
    ([\g<...>] and a backslash before a digit) are not modelled. *)
Definition control_escape (c : N) : option N :=
  if (c =? 97)%N then Some 7%N
  else if (c =? 98)%N then Some 8%N
  else if (c =? 102)%N then Some 12%N
  else if (c =? 110)%N then Some 10%N
  else if (c =? 114)%N then Some 13%N
  else if (c =? 116)%N then Some 9%N
  else if (c =? 118)%N then Some 11%N
  else if (c =? 92)%N then Some 92%N
  else None.

Definition is_ascii_letter (c : N) : bool :=
  ((65 <=? c) && (c <=? 90) || (97 <=? c) && (c <=? 122))%N%bool.

Definition is_ascii_digit (c : N) : bool := ((48 <=? c) && (c <=? 57))%N%bool.

Fixpoint expand_template (escaped : bool) (t : text) : result text :=
  match t with
  | [] => if escaped then Raise ReError else Ok []
  | c :: r =>
      if escaped then
        if ((c =? 103)%N || is_ascii_digit c)%bool
        then Raise (OtherException "NotModelled")
        else
          match control_escape c with
          | Some x => rest <- expand_template false r ;; Ok (x :: rest)
          | None =>
              if is_ascii_letter c then Raise ReError
              else rest <- expand_template false r ;; Ok (92%N :: c :: rest)
          end
      else if (c =? 92)%N then expand_template true r
      else rest <- expand_template false r ;; Ok (c :: rest)
  end.

(** The length of [t] up to the end of the first [END] in it. *)
Fixpoint find_end (t : text) : option nat :=
  match t with
  | [] => None
  | _ :: r =>
      if starts_with END t then Some (List.length END)
      else option_map S (find_end r)
  end.

(** [pattern.sub(new, t)] for the pattern [START.*?END] with [DOTALL]: from
    the left, every [START] with an [END] after it is replaced, up to the
    first such [END], by [new]; [skip] counts the characters of a match
    still to be dropped. *)
Fixpoint sub_from (skip : nat) (new t : text) : text :=
  match t with
  | [] => []
  | c :: r =>
      match skip with
      | S n => sub_from n new r
      | O =>
          if starts_with START t then
            match find_end (skipn (List.length START) t) with
            | Some k => (new ++ sub_from (List.length START + k - 1) new r)%list
            | None => c :: sub_from 0 new r
            end
          else c :: sub_from 0 new r
      end
  end.

Definition replace_block (t new_block : text) : result text :=
  template <- expand_template false new_block ;;
  Ok (sub_from 0 template t).

(** The README of a repository that has none. *)
Definition default_readme : text :=
  (txt "# JAL KiCad PCM Repository" ++ line_break ++ line_break
   ++ txt "This repository hosts a custom KiCad PCM index."
   ++ line_break ++ line_break ++ txt "## Packages" ++ line_break ++ line_break
   ++ START ++ line_break ++ END ++ line_break)%list.

(** [main()] of the generator, given the text of [packages.json], the time
    and the README when there is one: the text written to the README, if
    any, and the line printed.  Writing the file succeeds. *)
Definition readme_main `{Env} (packages_text : result string) (ts : string)
  (readme : option (result text)) : result (option text * string) :=
  pkgs <- load_packages packages_text ;;
  block <- render_block ts pkgs ;;
  content <- match readme with
             | Some r => c <- r ;; Ok (ensure_markers c)
             | None => Ok default_readme
             end ;;
  updated <- replace_block content block ;;
  if list_eq_dec N.eq_dec updated content
  then Ok (None, "README.md is already up to date.")
  else Ok (Some updated, "README.md updated.").

(** [Path.read_text] opens the file with universal newlines: a carriage
    return, alone or followed by a line feed, is read as one line feed.
    [after_cr] tells that the character before was a carriage return. *)
Fixpoint universal_newlines_from (after_cr : bool) (t : text) : text :=
  match t with
  | [] => []
  | c :: r =>
      if (c =? 13)%N then 10%N :: universal_newlines_from true r
      else if (after_cr && (c =? 10)%N)%bool
           then universal_newlines_from false r
           else c :: universal_newlines_from false r
  end.

Definition universal_newlines (t : text) : text :=
  universal_newlines_from false t.

(** The README as the next run of [main] reads it: the text written, read
    back with universal newlines, or what was there ([readme] is a text as
    read already). *)
Definition readme_after (readme : option (result text)) (written : option text)
  : option (result text) :=
  match written with
  | Some new => Some (Ok (universal_newlines new))
  | None => readme
  end.

(** An index of one package, for the examples. *)
Definition doc_index : string :=
  "{" ++ quoted "packages" ++ ": [{"
  ++ quoted "identifier" ++ ": " ++ quoted "com.example.foo" ++ ", "
  ++ quoted "name" ++ ": " ++ quoted "Foo" ++ ", "
  ++ quoted "license" ++ ": " ++ quoted "MIT" ++ ", "
  ++ quoted "maintainer" ++ ": {" ++ quoted "name" ++ ": " ++ quoted " Ann "
  ++ ", " ++ quoted "contact" ++ ": {" ++ quoted "web" ++ ": "
  ++ quoted "https://example.org/ann" ++ "}}}]}".

Definition example_ts : string := "2024-05-02 10:00 UTC".

(** The README of a repository that has none, up to the markers. *)
Definition readme_head : text :=
  (txt "# JAL KiCad PCM Repository" ++ line_break ++ line_break
   ++ txt "This repository hosts a custom KiCad PCM index."
   ++ line_break ++ line_break ++ txt "## Packages" ++ line_break
   ++ line_break)%list.

(** ** The configuration editor ([manage_repos.py]) *)

(** The characters that the identifier of a source keeps:
    [a-z], [0-9], [-] and [_]. *)
Definition id_char (c : ascii) : bool :=
  (between "a" "z" c || is_digit c || Ascii.eqb c "-" || Ascii.eqb c "_")%bool.

(** [re.sub(r"[^a-z0-9-_]+", "-", s)]: every run of other characters becomes
    one [-]. *)
Fixpoint dash_runs (in_run : bool) (s : string) : string :=
  match s with
  | EmptyString => EmptyString
  | String c r =>
      if id_char c then String c (dash_runs false r)
      else if in_run then dash_runs true r
      else String "-" (dash_runs true r)
  end.

Definition slug (s : string) : string := dash_runs false (str_lower s).

(** [s.split("/")[-1]] *)
Fixpoint last_segment (s : string) : string :=
  match s with
  | EmptyString => EmptyString
  | String c r =>
      if has_char "/" r then last_segment r
      else if Ascii.eqb c "/" then r
      else s
  end.

(** [Path(url).stem]: the last component of the path that is neither empty
    nor a single dot, without its last suffix. *)
Fixpoint split_all (sep : ascii) (s : string) : list string :=
  match s with
  | EmptyString => [EmptyString]
  | String c r =>
      if Ascii.eqb c sep then EmptyString :: split_all sep r
      else match split_all sep r with
           | x :: xs => String c x :: xs
           | [] => [String c EmptyString]
           end
  end.

Definition path_name (path : string) : string :=
  last (filter (fun x => negb (String.eqb x EmptyString || String.eqb x "."))
          (split_all "/" path))
    EmptyString.

Fixpoint split_last (sep : ascii) (s : string) : option (string * string) :=
  match s with
  | EmptyString => None
  | String c r =>
      match split_last sep r with
      | Some (a, b) => Some (String c a, b)
      | None => if Ascii.eqb c sep then Some (EmptyString, r) else None
      end
  end.

Definition path_stem (path : string) : string :=
  let name := path_name path in
  match split_last "." name with
  | Some (a, b) =>
      if (String.eqb a EmptyString || String.eqb b EmptyString)%bool
      then name else a
  | None => name
  end.

(** The two new entries. *)
Definition release_source (owner_repo glob only_latest : string) : json :=
  JObj [("id", JStr (slug (last_segment owner_repo)));
        ("mode", JStr "release_scan");
        ("repo", JStr owner_repo);
        ("asset_glob", JStr glob);
        ("only_latest", JBool (String.eqb (str_lower only_latest) "true"))].

Definition mirror_source (url : string) : json :=
  JObj [("id", JStr (slug (path_stem url)));
        ("mode", JStr "mirror_packages_json");
        ("packages_url", JStr url)].

(** [sources.append(new)], with [sources] as [setdefault] gives it. *)
Definition append_source (cfg : list (string * json)) (new : json)
  : result json :=
  match dict_get "sources" cfg with
  | None => Ok (JObj (dict_set "sources" (JList [new]) cfg))
  | Some (JList l) => Ok (JObj (dict_set "sources" (JList (l ++ [new])) cfg))
  | Some _ => Raise AttributeError
  end.

(** The test of the comprehension of [remove]. *)
Definition keeps_source (rid : string) (s : json) : result bool :=
  d <- as_dict s ;;
  Ok (negb (json_is_str rid (py_get d "id"))).

Fixpoint filter_result {A : Type} (f : A -> result bool) (l : list A)
  : result (list A) :=
  match l with
  | [] => Ok []
  | x :: r =>
      keep <- f x ;;
      rest <- filter_result f r ;;
      Ok (if keep then x :: rest else rest)
  end.

(** The slice assignment of [remove]. *)
Definition remove_source (cfg : list (string * json)) (rid : string)
  : result json :=
  match dict_get "sources" cfg with
  | None => Ok (JObj (dict_set "sources" (JList []) cfg))
  | Some (JList l) =>
      kept <- filter_result (keeps_source rid) l ;;
      Ok (JObj (dict_set "sources" (JList kept) cfg))
  | Some (JObj (_ :: _)) | Some (JStr (String _ _)) => Raise AttributeError
  | Some _ => Raise TypeError
  end.

(** What a run of the editor does: it rewrites [repos.yaml] with a new
    configuration and says so, or it prints a line and exits with status 1,
    the file staying as it is. *)
Inductive edit_outcome : Type :=
| Rewritten (cfg : json)
| Refused (line : string).

(** [main()] of the editor, given [sys.argv] and what loading [repos.yaml]
    yields. *)
Definition manage_main (argv : list string) (loaded_cfg : result json)
  : result edit_outcome :=
  match argv with
  | [] | [_] =>
      Ok (Refused "Usage: manage_repos.py <add_release|add_mirror|remove> ...")
  | _ :: action :: args =>
      c <- loaded_cfg ;;
      cfg <- as_dict c ;;
      if String.eqb action "add_release" then
        match args with
        | owner_repo :: glob :: only_latest :: _ =>
            new_cfg <- append_source cfg
                         (release_source owner_repo glob only_latest) ;;
            Ok (Rewritten new_cfg)
        | _ =>
            Ok (Refused
                  "add_release <owner/repo> <asset_glob> <only_latest:true|false>")
        end
      else if String.eqb action "add_mirror" then
        match args with
        | url :: _ =>
            new_cfg <- append_source cfg (mirror_source url) ;;
            Ok (Rewritten new_cfg)
        | [] => Ok (Refused "add_mirror <packages_json_url>")
        end
      else if String.eqb action "remove" then
        match args with
        | rid :: _ =>
            new_cfg <- remove_source cfg rid ;;
            Ok (Rewritten new_cfg)
        | [] => Ok (Refused "remove <id>")
        end
      else Ok (Refused "Unknown action")
  end.

(** The folders whose files a run listed, in the order of the calls, and
    the folders that the listing of [assets/] gave. *)
Definition visited (tr : list os_event) : list string :=
  flat_map (fun e => match e with EvFiles dir => [dir] | _ => [] end) tr.

Definition listed (tr : list os_event) : list string :=
  flat_map (fun e => match e with EvDirs (Some dirs) => dirs | _ => [] end) tr.

(** [a] is not after [b] in the order of the keys. *)
Definition key_le {A : Type} (key : A -> string) (a b : A) : Prop :=
  String.ltb (key b) (key a) = false.

(** What the monitor of the folders knows of the calls so far: before the
    listing nothing is visited; after it, the folders visited followed by
    those still to visit are the listing in sorted order. *)
Definition visit_inv (s : visit) (v l : list string) : Prop :=
  match to_visit s with
  | None => v = [] /\ l = []
  | Some rest => (v ++ rest)%list = sort_asc str_lower l
  end.

(** ** The layout of the index, in the words of the specification *)

(** The specification names an envelope, a stable order of the keys and a
    fixed indentation.  Here is that layout said line by line, without nesting
    levels: a scalar is one line; a non-empty list is an opening bracket,
    the lines of its items moved in by two spaces, a comma after every
    item but the last, and a closing bracket; a non-empty object likewise,
    with braces, the members in the order of the dictionary and every
    member starting with its key in quotes, a colon and a space. *)
Definition indented (l : list string) : list string := map (append "  ") l.

Fixpoint add_comma (l : list string) : list string :=
  match l with
  | [] => []
  | [x] => [x ++ ","]
  | x :: r => x :: add_comma r
  end.

Fixpoint separated (blocks : list (list string)) : list string :=
  match blocks with
  | [] => []
  | [b] => b
  | b :: r => (add_comma b ++ separated r)%list
  end.

Definition prefix_head (p : string) (l : list string) : list string :=
  match l with
  | [] => [p]
  | x :: r => (p ++ x) :: r
  end.

Fixpoint value_lines `{Env} (v : json) : list string :=
  match v with
  | JNull => ["null"]
  | JBool true => ["true"]
  | JBool false => ["false"]
  | JInt z => [decimal z]
  | JFloat f => [dump_float f]
  | JStr s => [dump_str s]
  | JList [] => ["[]"]
  | JList l => (["["] ++ indented (separated (map value_lines l)) ++ ["]"])%list
  | JObj [] => ["{}"]
  | JObj kv =>
      (["{"]
       ++ indented
            (separated
               (map (fun m : string * json =>
                       let (k, x) := m in
                       prefix_head (dump_str k ++ ": ") (value_lines x))
                  kv))
       ++ ["}"])%list
  end.

(** The lines of a member of an object. *)
Definition member_lines `{Env} (m : string * json) : list string :=
  let (k, x) := m in prefix_head (dump_str k ++ ": ") (value_lines x).

(** The lines of the index: the envelope with the single key [packages],
    and the packages in the order of the list. *)
Definition index_lines `{Env} (all_packages : list json) : list string :=
  match all_packages with
  | [] => ["{"; "  " ++ quoted "packages" ++ ": []"; "}"]
  | _ =>
      (["{"; ("  " ++ quoted "packages" ++ ": [")%string]
       ++ indented (indented (separated (map value_lines all_packages)))
       ++ ["  ]"; "}"])%list
  end.

(* ================================================================== *)
(** * Part II.  Properties                                             *)
(* ================================================================== *)

#[local] Arguments Ascii.eqb : simpl never.
#[local] Arguments String.prefix : simpl never.

(** ** The glob matcher *)

Example ex_glob_src : glob_regex_source "a?*.zip" = "^a..*\.zip$".
Proof. reflexivity. Qed.

Example ex_glob1 : asset_name_matches "*.zip" "lib-1.0.zip" = Some true.
Proof. reflexivity. Qed.

Example ex_glob2 : asset_name_matches "*.zip" "lib-1.0.zip.sig" = Some false.
Proof. reflexivity. Qed.

(** Character facts, by enumeration of the 256 characters. *)
Ltac all_chars c :=
  destruct c as [b0 b1 b2 b3 b4 b5 b6 b7];
  destruct b0, b1, b2, b3, b4, b5, b6, b7.

Lemma special_not_alnum (c : ascii) :
  re_special c = true -> is_ascii_alnum c = false.
Proof. all_chars c; vm_compute; congruence. Qed.

Lemma plain_char_facts (c : ascii) :
  re_special c = false ->
  Ascii.eqb c ch_backslash = false /\ Ascii.eqb c "." = false /\
  Ascii.eqb c "*" = false /\ Ascii.eqb c "?" = false /\
  Ascii.eqb c "^" = false /\ Ascii.eqb c "$" = false /\
  chr_in c "+?{}()[]|" = false.
Proof. all_chars c; vm_compute; intuition congruence. Qed.

Lemma prefix_cons (a b : ascii) (s t : string) :
  prefix (String a s) (String b t) = (Ascii.eqb a b && prefix s t)%bool.
Proof.
  unfold prefix; fold prefix. destruct (ascii_dec a b) as [->|ne].
  - now rewrite Ascii.eqb_refl.
  - apply Ascii.eqb_neq in ne. now rewrite ne.
Qed.

Lemma prefix_nil (t : string) : prefix EmptyString t = true.
Proof. now destruct t. Qed.

Lemma re_escape_head (x : ascii) (p : string) :
  re_special x = true -> x <> ch_backslash -> head_is x (re_escape p) = false.
Proof.
  intros sp ne. destruct p as [|c r]; simpl; [reflexivity|].
  destruct (re_special c) eqn:E; simpl.
  - apply Ascii.eqb_neq. congruence.
  - apply Ascii.eqb_neq. intros ->. congruence.
Qed.

Lemma expand_cons (step : ascii -> string) (c : ascii) (r : string) :
  expand step (String c r) = step c ++ expand step r.
Proof. reflexivity. Qed.

Lemma re_escape_special (c : ascii) (r : string) :
  re_special c = true ->
  re_escape (String c r) = String ch_backslash (String c (re_escape r)).
Proof. intros E. cbn [re_escape]. now rewrite E. Qed.

Lemma re_escape_plain (c : ascii) (r : string) :
  re_special c = false -> re_escape (String c r) = String c (re_escape r).
Proof. intros E. cbn [re_escape]. now rewrite E. Qed.

(** A two-character needle that starts with a backslash is not found at a
    character [c] whose successor is not the needle's second character. *)
Lemma no_prefix_here (x c : ascii) (t : string) :
  head_is x t = false -> prefix (String "\" (String x EmptyString)) (String c t) = false.
Proof.
  intros Hh. rewrite prefix_cons.
  destruct (Ascii.eqb "\" c); [|reflexivity]. cbn [andb].
  destruct t as [|d u]; [reflexivity|].
  rewrite prefix_cons, prefix_nil, Bool.andb_true_r.
  cbn [head_is] in Hh. now rewrite Ascii.eqb_sym.
Qed.

Lemma prefix_two (a b a' b' : ascii) (t : string) :
  prefix (String a (String b EmptyString)) (String a' (String b' t))
  = (Ascii.eqb a a' && Ascii.eqb b b')%bool.
Proof. now rewrite !prefix_cons, prefix_nil, Bool.andb_true_r. Qed.

Lemma replace_miss (old new : string) (c : ascii) (r : string) :
  prefix old (String c r) = false ->
  replace_from 0 old new (String c r) = String c (replace_from 0 old new r).
Proof. intros H. cbn [replace_from]. now rewrite H. Qed.

Lemma replace_hit2 (a b : ascii) (new r : string) :
  replace_from 0 (String a (String b EmptyString)) new (String a (String b r))
  = new ++ replace_from 0 (String a (String b EmptyString)) new r.
Proof.
  cbn [replace_from]. now rewrite prefix_two, !Ascii.eqb_refl.
Qed.

Lemma no_prefix_plain (x c : ascii) (t : string) :
  Ascii.eqb c "\" = false -> prefix (String "\" (String x EmptyString)) (String c t) = false.
Proof. intros H. rewrite prefix_cons, Ascii.eqb_sym. now rewrite H. Qed.

Lemma no_prefix_second (x c : ascii) (t : string) :
  Ascii.eqb c x = false ->
  prefix (String "\" (String x EmptyString)) (String "\" (String c t)) = false.
Proof. intros H. rewrite prefix_two, (Ascii.eqb_sym x). now rewrite H, Bool.andb_false_r. Qed.

Lemma replace_star_escape (p : string) :
  replace_from 0 "\*" ".*" (re_escape p) = expand star_step p.
Proof.
  induction p as [|c r IH]; [reflexivity|].
  rewrite expand_cons. unfold star_step at 1.
  destruct (Ascii.eqb c "*") eqn:Estar.
  - apply Ascii.eqb_eq in Estar. subst c.
    rewrite re_escape_special by reflexivity.
    unfold ch_backslash. now rewrite replace_hit2, IH.
  - destruct (re_special c) eqn:Esp.
    + rewrite re_escape_special by assumption. unfold ch_backslash.
      rewrite replace_miss by now apply no_prefix_second.
      rewrite replace_miss
        by (apply no_prefix_here, re_escape_head; [reflexivity | discriminate]).
      now rewrite IH.
    + destruct (plain_char_facts c Esp) as (Hb & _).
      rewrite re_escape_plain by assumption.
      rewrite replace_miss by now apply no_prefix_plain.
      now rewrite IH.
Qed.

Lemma expand_star_head (p : string) :
  head_is "?" (expand star_step p) = false.
Proof.
  destruct p as [|c r]; [reflexivity|].
  rewrite expand_cons. unfold star_step at 1.
  destruct (Ascii.eqb c "*"); [reflexivity|].
  destruct (re_special c) eqn:E; cbn [append head_is]; [reflexivity|].
  now destruct (plain_char_facts c E) as (_ & _ & _ & H & _).
Qed.

Lemma replace_query_star (p : string) :
  replace_from 0 "\?" "." (expand star_step p) = expand glob_step p.
Proof.
  induction p as [|c r IH]; [reflexivity|].
  rewrite !expand_cons. unfold star_step at 1. unfold glob_step at 1.
  destruct (Ascii.eqb c "*") eqn:Estar.
  - cbn [append].
    rewrite replace_miss by now apply no_prefix_plain.
    rewrite replace_miss by now apply no_prefix_plain.
    now rewrite IH.
  - destruct (Ascii.eqb c "?") eqn:Eq.
    + apply Ascii.eqb_eq in Eq. subst c.
      replace (re_special "?") with true by reflexivity.
      unfold ch_backslash. cbn [append].
      now rewrite replace_hit2, IH.
    + destruct (re_special c) eqn:Esp.
      * unfold ch_backslash. cbn [append].
        rewrite replace_miss by now apply no_prefix_second.
        rewrite replace_miss by apply no_prefix_here, expand_star_head.
        now rewrite IH.
      * destruct (plain_char_facts c Esp) as (Hb & _).
        cbn [append].
        rewrite replace_miss by now apply no_prefix_plain.
        now rewrite IH.
Qed.

Lemma glob_regex_source_eq (p : string) :
  glob_regex_source p = "^" ++ expand glob_step p ++ "$".
Proof.
  unfold glob_regex_source, str_replace.
  now rewrite replace_star_escape, replace_query_star.
Qed.

Lemma append_assoc (a b c : string) : (a ++ b) ++ c = a ++ (b ++ c).
Proof. induction a as [|x a IH]; cbn; [reflexivity | now rewrite IH]. Qed.

Lemma option_map_app {A : Type} (l1 l2 : list A) (o : option (list A)) :
  option_map (app l1) (option_map (app l2) o) = option_map (app (l1 ++ l2)) o.
Proof. destruct o; cbn; [now rewrite app_assoc | reflexivity]. Qed.

Lemma rx_tokens_step (c : ascii) (t : string) :
  rx_tokens (glob_step c ++ t) = option_map (app (glob_toks c)) (rx_tokens t).
Proof.
  unfold glob_step, glob_toks.
  destruct (Ascii.eqb c "*") eqn:Estar.
  - cbn. now destruct (rx_tokens t).
  - destruct (Ascii.eqb c "?") eqn:Eq.
    + cbn. now destruct (rx_tokens t).
    + destruct (re_special c) eqn:Esp.
      * cbn [append rx_tokens]. unfold ch_backslash at 1.
        rewrite Ascii.eqb_refl, (special_not_alnum c Esp).
        now destruct (rx_tokens t).
      * destruct (plain_char_facts c Esp) as (H1 & H2 & H3 & H4 & H5 & H6 & H7).
        cbn [append rx_tokens]. rewrite H1, H2, H3, H5, H6, H7.
        now destruct (rx_tokens t).
Qed.

Lemma rx_tokens_expand (p t : string) :
  rx_tokens (expand glob_step p ++ t)
  = option_map (app (glob_tokens p)) (rx_tokens t).
Proof.
  induction p as [|c r IH]; cbn [expand glob_tokens].
  - cbn. now destruct (rx_tokens t).
  - now rewrite append_assoc, rx_tokens_step, IH, option_map_app.
Qed.

Lemma glob_tokens_head (p : string) (rest : list rx_token) :
  starts_with_star rest = false ->
  starts_with_star (glob_tokens p ++ rest) = false.
Proof.
  intros H. destruct p as [|c r]; [exact H|].
  cbn [glob_tokens]. unfold glob_toks.
  destruct (Ascii.eqb c "*"); [reflexivity|].
  now destruct (Ascii.eqb c "?").
Qed.

Lemma rx_items_class (k : rx_class) (ts : list rx_token) :
  starts_with_star ts = false ->
  rx_items (TClass k :: ts) = option_map (cons (RxOne k)) (rx_items ts).
Proof. destruct ts as [|[] ts]; cbn; congruence. Qed.

Lemma rx_items_glob (p : string) (rest : list rx_token) :
  starts_with_star rest = false ->
  rx_items (glob_tokens p ++ rest)
  = option_map (app (glob_items p)) (rx_items rest).
Proof.
  intros H. induction p as [|c r IH]; cbn [glob_tokens glob_items].
  - cbn. now destruct (rx_items rest).
  - rewrite <- app_assoc. unfold glob_toks, glob_item.
    pose proof (glob_tokens_head r rest H) as Hh.
    destruct (Ascii.eqb c "*"); [|destruct (Ascii.eqb c "?")].
    + cbn [app rx_items]. rewrite IH. now destruct (rx_items rest).
    + cbn [app]. rewrite rx_items_class, IH by assumption.
      now destruct (rx_items rest).
    + cbn [app]. rewrite rx_items_class, IH by assumption.
      now destruct (rx_items rest).
Qed.

(** [re.compile] accepts the pattern of every glob, and the result has one
    item per glob character between the two anchors. *)
Lemma glob_rx_eq (p : string) :
  glob_rx p = Some (RxBol :: glob_items p ++ [RxEol]).
Proof.
  unfold glob_rx, re_compile. rewrite glob_regex_source_eq.
  change ("^" ++ expand glob_step p ++ "$")
    with (String "^" (expand glob_step p ++ "$")).
  cbn [rx_tokens]. 
  replace (Ascii.eqb "^" ch_backslash) with false by reflexivity.
  replace (Ascii.eqb "^" ".") with false by reflexivity.
  replace (Ascii.eqb "^" "*") with false by reflexivity.
  rewrite Ascii.eqb_refl, rx_tokens_expand.
  change (rx_tokens "$") with (Some [TEol]).
  cbn [option_map rx_items].
  rewrite rx_items_glob by reflexivity. reflexivity.
Qed.

Lemma at_dollar_plain (f : string) :
  has_newline f = false ->
  at_dollar f = match f with EmptyString => true | _ => false end.
Proof.
  destruct f as [|c [|d r]]; cbn [has_newline at_dollar]; try reflexivity.
  intros H. apply Bool.orb_false_elim in H. tauto.
Qed.

Lemma rx_run_glob (p : string) :
  forall (bol : bool) (f : string),
    has_newline f = false ->
    rx_run (glob_items p ++ [RxEol])%list bol f = glob_match p f.
Proof.
  induction p as [|c r IH]; intros bol f Hf.
  - cbn. rewrite Bool.andb_true_r. now apply at_dollar_plain.
  - cbn [glob_items app glob_match]. unfold glob_item.
    destruct (Ascii.eqb c "*") eqn:Estar; [|destruct (Ascii.eqb c "?") eqn:Eq].
    + cbn [rx_run]. revert bol.
      induction f as [|x f' IHf]; intros bol.
      * now rewrite IH.
      * cbn [has_newline] in Hf. apply Bool.orb_false_elim in Hf.
        destruct Hf as [Hx Hf'].
        rewrite IH by (cbn [has_newline]; now rewrite Hx, Hf').
        cbn [class_accepts]. rewrite Hx. cbn [negb andb].
        now rewrite (IHf Hf').
    + cbn [rx_run]. destruct f as [|x f']; [reflexivity|].
      cbn [has_newline] in Hf. apply Bool.orb_false_elim in Hf.
      destruct Hf as [Hx Hf'].
      cbn [class_accepts]. rewrite Hx. cbn [negb andb]. now apply IH.
    + cbn [rx_run]. destruct f as [|x f']; [reflexivity|].
      cbn [has_newline] in Hf. apply Bool.orb_false_elim in Hf.
      destruct Hf as [Hx Hf'].
      cbn [class_accepts]. now rewrite IH.
Qed.

(** The matcher at a name that ends in a newline, and at a name with a
    newline inside: [$] holds before a final newline, and [.] is no
    newline. *)
Lemma glob_matcher_newline_counterexample :
  asset_name_matches "*.zip" (String.append "a.zip" (String ch_nl EmptyString))
  = Some true
  /\ glob_match "*.zip" (String.append "a.zip" (String ch_nl EmptyString)) = false
  /\ asset_name_matches "*.zip" (String.append "a" (String ch_nl "b.zip"))
     = Some false
  /\ glob_match "*.zip" (String.append "a" (String ch_nl "b.zip")) = true.
Proof. repeat split; vm_compute; reflexivity. Qed.

(** C1 (as amended).  For every glob and every name without a newline
    character, [re.compile] accepts the pattern built from the glob and the
    matcher accepts the name exactly when the name matches the glob, [*]
    standing for any run of characters, [?] for any single character and
    every other character for itself. *)
Theorem glob_matcher_correct (glob_pat name : string) :
  has_newline name = false ->
  asset_name_matches glob_pat name = Some (glob_match glob_pat name).
Proof.
  intros Hn. unfold asset_name_matches. rewrite glob_rx_eq.
  cbn [option_map]. f_equal. unfold rx_match.
  cbn [rx_run andb]. now apply rx_run_glob.
Qed.

Lemma glob_matcher_correct_witness :
  has_newline "lib-1.0.zip" = false
  /\ asset_name_matches "lib-?.?.z*" "lib-1.0.zip"
     = Some (glob_match "lib-?.?.z*" "lib-1.0.zip").
Proof.
  split; [reflexivity|].
  apply (glob_matcher_correct "lib-?.?.z*" "lib-1.0.zip"). reflexivity.
Defined.

(** ** Sorting *)

Lemma ltb_compare (a b : string) :
  String.ltb a b = true <-> String.compare a b = Lt.
Proof. unfold String.ltb. destruct (String.compare a b); intuition congruence. Qed.

Lemma str_ge_refl (a : string) : str_ge a a.
Proof.
  unfold str_ge, String.ltb.
  now replace (String.compare a a) with Eq
    by (symmetry; now apply OrderedTypeEx.String_as_OT.cmp_eq).
Qed.

Lemma str_lt_trans (a b c : string) :
  String.ltb a b = true -> String.ltb b c = true -> String.ltb a c = true.
Proof.
  rewrite !ltb_compare. intros H1 H2.
  apply OrderedTypeEx.String_as_OT.cmp_lt in H1, H2.
  apply OrderedTypeEx.String_as_OT.cmp_lt.
  eapply OrderedTypeEx.String_as_OT.lt_trans; eassumption.
Qed.

Lemma str_ge_cases (a b : string) : str_ge a b -> String.ltb b a = true \/ a = b.
Proof.
  unfold str_ge, String.ltb. intros H.
  rewrite (String.compare_antisym b a).
  destruct (String.compare a b) eqn:E; cbn; try discriminate.
  - right. now apply String.compare_eq_iff.
  - now left.
Qed.

Lemma str_lt_irrefl (a : string) : String.ltb a a = false.
Proof. apply str_ge_refl. Qed.

Lemma str_ge_trans (a b c : string) : str_ge a b -> str_ge b c -> str_ge a c.
Proof.
  intros Hab Hbc.
  destruct (str_ge_cases Hab) as [Hba | ->]; [|exact Hbc].
  destruct (str_ge_cases Hbc) as [Hcb | ->]; [|exact Hab].
  unfold str_ge. destruct (String.ltb a c) eqn:Hac; [|reflexivity].
  pose proof (str_lt_trans _ _ _ Hac (str_lt_trans _ _ _ Hcb Hba)) as Hx.
  now rewrite str_lt_irrefl in Hx.
Qed.

Section Sorting.
Context {A : Type} (key : A -> string).

Lemma insert_desc_perm (x : A) (l : list A) :
  Permutation (x :: l) (insert_desc key x l).
Proof.
  induction l as [|y r IH]; cbn; [reflexivity|].
  destruct (String.ltb (key x) (key y)); [|reflexivity].
  rewrite perm_swap. now apply perm_skip.
Qed.

Lemma sort_desc_perm (l : list A) : Permutation l (sort_desc key l).
Proof.
  induction l as [|x r IH]; cbn; [constructor|].
  rewrite <- insert_desc_perm. now apply perm_skip.
Qed.

Lemma insert_desc_sorted (x : A) (l : list A) :
  StronglySorted (key_ge key) l -> StronglySorted (key_ge key) (insert_desc key x l).
Proof.
  induction 1 as [|y r Hs IH Hall]; cbn.
  - repeat constructor.
  - destruct (String.ltb (key x) (key y)) eqn:E.
    + constructor; [exact IH|].
      eapply Permutation_Forall; [apply insert_desc_perm|].
      constructor; [|exact Hall].
      unfold key_ge, str_ge. destruct (String.ltb (key y) (key x)) eqn:E2;
        [|reflexivity].
      pose proof (str_lt_trans _ _ _ E E2) as Hx.
      now rewrite str_lt_irrefl in Hx.
    + constructor; [now constructor|].
      constructor; [exact E|].
      eapply Forall_impl; [|exact Hall].
      intros z Hz. eapply str_ge_trans; [exact E | exact Hz].
Qed.

Lemma sort_desc_sorted (l : list A) : StronglySorted (key_ge key) (sort_desc key l).
Proof.
  induction l as [|x r IH]; cbn; [constructor|].
  now apply insert_desc_sorted.
Qed.

Lemma insert_desc_map (x : A) (l : list A) :
  map key (insert_desc key x l) = insert_desc (fun s => s) (key x) (map key l).
Proof.
  induction l as [|y r IH]; cbn; [reflexivity|].
  destruct (String.ltb (key x) (key y)); cbn; [now rewrite IH | reflexivity].
Qed.

Lemma sort_desc_map (l : list A) :
  map key (sort_desc key l) = sort_desc (fun s => s) (map key l).
Proof.
  induction l as [|x r IH]; cbn; [reflexivity|].
  now rewrite insert_desc_map, IH.
Qed.
End Sorting.

(** ** Dictionaries *)

Section Dict.
Context {V : Type}.
Implicit Types (d : list (string * V)) (k : string) (v : V).

Lemma dict_get_set_same k v d : dict_get k (dict_set k v d) = Some v.
Proof.
  induction d as [|[k' v'] r IH]; cbn.
  - now rewrite String.eqb_refl.
  - destruct (String.eqb k k') eqn:E; cbn; rewrite E; [reflexivity | exact IH].
Qed.

Lemma dict_get_set_other k k' v d :
  k' <> k -> dict_get k' (dict_set k v d) = dict_get k' d.
Proof.
  intros ne. induction d as [|[k0 v0] r IH]; cbn.
  - apply String.eqb_neq in ne. now rewrite ne.
  - destruct (String.eqb k k0) eqn:E; cbn.
    + apply String.eqb_eq in E. subst k0.
      apply String.eqb_neq in ne. now rewrite ne.
    + now rewrite IH.
Qed.

Lemma dict_set_keys k v d x :
  In x (map fst (dict_set k v d)) <-> x = k \/ In x (map fst d).
Proof.
  induction d as [|[k0 v0] r IH]; cbn.
  - intuition.
  - destruct (String.eqb k k0) eqn:E; cbn.
    + apply String.eqb_eq in E. subst k0. intuition.
    + rewrite IH. intuition.
Qed.

Lemma dict_set_nodup k v d :
  NoDup (map fst d) -> NoDup (map fst (dict_set k v d)).
Proof.
  induction d as [|[k0 v0] r IH]; cbn; intros Hnd.
  - repeat constructor. intros [].
  - inversion Hnd as [|? ? Hnotin Hnd']; subst.
    destruct (String.eqb k k0) eqn:E; cbn.
    + now constructor.
    + constructor; [|now apply IH].
      rewrite dict_set_keys. intros [-> | Hin]; [|contradiction].
      now rewrite String.eqb_refl in E.
Qed.

Lemma dict_get_in k v d : dict_get k d = Some v -> In (k, v) d.
Proof.
  induction d as [|[k0 v0] r IH]; cbn; [discriminate|].
  destruct (String.eqb k k0) eqn:E.
  - apply String.eqb_eq in E. subst k0. intros [= ->]. now left.
  - intros H. right. now apply IH.
Qed.

Lemma dict_in_get k v d : NoDup (map fst d) -> In (k, v) d -> dict_get k d = Some v.
Proof.
  induction d as [|[k0 v0] r IH]; cbn; intros Hnd Hin; [contradiction|].
  inversion Hnd as [|? ? Hnotin Hnd']; subst.
  destruct Hin as [[= -> ->] | Hin].
  - now rewrite String.eqb_refl.
  - destruct (String.eqb k k0) eqn:E; [|now apply IH].
    apply String.eqb_eq in E. subst k0. exfalso. apply Hnotin.
    now apply (in_map fst) in Hin.
Qed.

Lemma dict_has_set k v d : dict_has k (dict_set k v d) = true.
Proof. unfold dict_has. now rewrite dict_get_set_same. Qed.

Lemma dict_has_set_other k k' v d :
  dict_has k' d = true -> dict_has k' (dict_set k v d) = true.
Proof.
  unfold dict_has. destruct (String.eqb_spec k' k) as [->|ne].
  - now rewrite dict_get_set_same.
  - now rewrite dict_get_set_other.
Qed.
End Dict.

(** ** Wiring the local assets is idempotent *)

Lemma wire_one_idem (ex : bool) (key rel : string) (r r' : json) :
  wire_one ex key rel r = Ok r' -> wire_one ex key rel r' = Ok r'.
Proof.
  unfold wire_one. destruct ex; [|congruence].
  destruct r as [| | | | s | l | kv]; try discriminate.
  - destruct (str_contains key s) eqn:E; [|discriminate].
    intros [= <-]. now rewrite E.
  - destruct (existsb (json_is_str key) l) eqn:E; [|discriminate].
    intros [= <-]. now rewrite E.
  - destruct (dict_has key kv) eqn:E; intros [= <-].
    + now rewrite E.
    + now rewrite dict_has_set.
Qed.

Lemma wire_one_keeps (ex ex2 : bool) (key key2 rel rel2 : string) (r r' : json) :
  wire_one ex key rel r = Ok r ->
  wire_one ex2 key2 rel2 r = Ok r' ->
  wire_one ex key rel r' = Ok r'.
Proof.
  unfold wire_one. destruct ex; [|congruence].
  destruct ex2; [|intros Hr [= <-]; exact Hr].
  destruct r as [| | | | s | l | kv]; try discriminate.
  - destruct (str_contains key s) eqn:E; [|discriminate].
    destruct (str_contains key2 s); [|discriminate].
    intros _ [= <-]. now rewrite E.
  - destruct (existsb (json_is_str key) l) eqn:E; [|discriminate].
    destruct (existsb (json_is_str key2) l); [|discriminate].
    intros _ [= <-]. now rewrite E.
  - destruct (dict_has key kv) eqn:E.
    + intros _. destruct (dict_has key2 kv); intros [= <-].
      * now rewrite E.
      * now rewrite dict_has_set_other.
    + intros [= H]. exfalso.
      assert (Hh : dict_has key (dict_set key (JStr rel) kv) = true)
        by apply dict_has_set.
      rewrite H in Hh. congruence.
Qed.

Lemma wire_resources_idem `{Env} (i : string) (r r' : json) :
  wire_resources i r = Ok r' -> wire_resources i r' = Ok r'.
Proof.
  unfold wire_resources. destruct (assets_dir_exists i); [|congruence].
  destruct (wire_one (icon_exists i) "icon" (i ++ "/icon.png") r)
    as [r1|e] eqn:E1; cbn [bind]; [|discriminate].
  intros E2.
  pose proof (wire_one_idem _ _ _ _ E1) as I1.
  pose proof (wire_one_keeps _ _ _ _ _ _ I1 E2) as I2.
  rewrite I2. cbn [bind]. now apply wire_one_idem in E2.
Qed.

(** ** The invariant of the scan *)

Lemma make_version_entry_version `{Env} (owner_repo : string)
  (tag : option string) (name sha : string) (size : Z)
  (m : list (string * json)) (w : string) (e : version_entry) :
  make_version_entry owner_repo tag name sha size m w = Ok e ->
  ve_version e = w.
Proof.
  unfold make_version_entry.
  destruct (asset_download_url owner_repo tag name); cbn [bind]; [|discriminate].
  destruct (install_size_of m); cbn [bind]; [|discriminate].
  now intros [= <-].
Qed.

Lemma has_version_true (v : string) (vs : list version_entry) :
  has_version v vs = true <-> exists e, In e vs /\ ve_version e = v.
Proof.
  unfold has_version. rewrite existsb_exists.
  split; intros (e & Hin & He); exists e; split; trivial.
  - now apply String.eqb_eq.
  - now apply String.eqb_eq.
Qed.

Lemma has_version_false (v : string) (vs : list version_entry) :
  has_version v vs = false -> ~ In v (map ve_version vs).
Proof.
  intros Hf Hin. apply in_map_iff in Hin. destruct Hin as (e & He & Hin).
  assert (Ht : has_version v vs = true) by (apply has_version_true; eauto).
  congruence.
Qed.

Section ScanInvariant.
Context `{Env} (src : source) (rx : regex).

Lemma first_manifest_app (i : string) (l1 l2 : list (option string * asset)) :
  first_manifest src rx i (l1 ++ l2)
  = match first_manifest src rx i l1 with
    | Some m => Some m
    | None => first_manifest src rx i l2
    end.
Proof.
  induction l1 as [|[tag a] r IH]; cbn [app first_manifest]; [reflexivity|].
  destruct (usable_manifest rx a) as [[[[name data] m] mf]|]; [|exact IH].
  destruct (package_id src m) as [j|]; [|exact IH].
  destruct (String.eqb j i); [reflexivity | exact IH].
Qed.

Lemma first_entry_app (i v : string) (l1 l2 : list (option string * asset)) :
  first_entry src rx i v (l1 ++ l2)
  = match first_entry src rx i v l1 with
    | Some e => Some e
    | None => first_entry src rx i v l2
    end.
Proof.
  induction l1 as [|[tag a] r IH]; cbn [app first_entry]; [reflexivity|].
  destruct (usable_manifest rx a) as [[[[name data] m] mf]|]; [|exact IH].
  destruct (package_id src m) as [j|]; [|exact IH].
  destruct (version_str_of m tag) as [w|]; [|exact IH].
  destruct (String.eqb j i && String.eqb w v)%bool; [reflexivity | exact IH].
Qed.

Lemma scan_inv_nil : scan_inv src rx [] [].
Proof.
  constructor; cbn; try discriminate.
  constructor.
Qed.

(** A pair that is no sighting changes nothing. *)
Lemma scan_inv_skip (l : list (option string * asset)) (x : option string * asset)
  (pk : list (string * package)) :
  (forall i, first_manifest src rx i [x] = None) ->
  (forall i v, first_entry src rx i v [x] = None) ->
  scan_inv src rx l pk -> scan_inv src rx (l ++ [x]) pk.
Proof.
  intros Hm He [I1 I2 I3 I4 I5 I6 I7].
  assert (Fm : forall i, first_manifest src rx i (l ++ [x]) = first_manifest src rx i l).
  { intros i. rewrite first_manifest_app, Hm. now destruct (first_manifest src rx i l). }
  assert (Fe : forall i v, first_entry src rx i v (l ++ [x]) = first_entry src rx i v l).
  { intros i v. rewrite first_entry_app, He. now destruct (first_entry src rx i v l). }
  constructor; trivial.
  - intros i m. rewrite Fm. apply I3.
  - intros i p Hp. rewrite Fm. now apply I4.
  - intros i p e Hp Hin. rewrite Fe. now apply I6 with (p := p).
  - intros i v r. rewrite Fe. apply I7.
Qed.

(** A sighting for package [j] that leaves [p'] under [j]. *)
Lemma scan_inv_update (l : list (option string * asset)) (x : option string * asset)
  (pk : list (string * package)) (j : string) (p' : package) :
  scan_inv src rx l pk ->
  (forall i, i <> j -> first_manifest src rx i [x] = None) ->
  (forall i v, i <> j -> first_entry src rx i v [x] = None) ->
  pkg_identifier p' = j ->
  (exists m, first_manifest src rx j (l ++ [x]) = Some m
             /\ display p' = display (new_package j m)
             /\ wire_resources j (pkg_resources (new_package j m))
                = Ok (pkg_resources p')) ->
  NoDup (map ve_version (pkg_versions p')) ->
  (forall e, In e (pkg_versions p') ->
             first_entry src rx j (ve_version e) (l ++ [x]) = Some (Ok e)) ->
  (forall v r, first_entry src rx j v (l ++ [x]) = Some r ->
               exists e, r = Ok e /\ In e (pkg_versions p')) ->
  scan_inv src rx (l ++ [x]) (dict_set j p' pk).
Proof.
  intros [I1 I2 I3 I4 I5 I6 I7] Hm He Hid Hdisp Hnd Hsound Hcompl.
  assert (Fm : forall i, i <> j ->
            first_manifest src rx i (l ++ [x]) = first_manifest src rx i l).
  { intros i ne. rewrite first_manifest_app, Hm by assumption.
    now destruct (first_manifest src rx i l). }
  assert (Fe : forall i v, i <> j ->
            first_entry src rx i v (l ++ [x]) = first_entry src rx i v l).
  { intros i v ne. rewrite first_entry_app, He by assumption.
    now destruct (first_entry src rx i v l). }
  constructor.
  - now apply dict_set_nodup.
  - intros i p. destruct (String.eqb_spec i j) as [->|ne].
    + rewrite dict_get_set_same. now intros [= <-].
    + rewrite dict_get_set_other by assumption. apply I2.
  - intros i m. destruct (String.eqb_spec i j) as [->|ne].
    + intros _. apply dict_has_set.
    + rewrite Fm by assumption. intros Hf.
      unfold dict_has. rewrite dict_get_set_other by assumption.
      exact (I3 i m Hf).
  - intros i p. destruct (String.eqb_spec i j) as [->|ne].
    + rewrite dict_get_set_same. intros [= <-]. exact Hdisp.
    + rewrite dict_get_set_other, Fm by assumption. apply I4.
  - intros i p. destruct (String.eqb_spec i j) as [->|ne].
    + rewrite dict_get_set_same. now intros [= <-].
    + rewrite dict_get_set_other by assumption. apply I5.
  - intros i p e. destruct (String.eqb_spec i j) as [->|ne].
    + rewrite dict_get_set_same. intros [= <-]. apply Hsound.
    + rewrite dict_get_set_other, Fe by assumption. apply I6.
  - intros i v r. destruct (String.eqb_spec i j) as [->|ne].
    + intros Hf. destruct (Hcompl v r Hf) as (e & -> & Hin).
      exists p', e. now rewrite dict_get_set_same.
    + rewrite Fe by assumption. intros Hf.
      destruct (I7 i v r Hf) as (p & e & -> & Hp & Hin).
      exists p, e. now rewrite dict_get_set_other.
Qed.

Lemma first_entry_version (i v : string) (l : list (option string * asset))
  (e : version_entry) :
  first_entry src rx i v l = Some (Ok e) -> ve_version e = v.
Proof.
  induction l as [|[tag a] r IH]; cbn [first_entry]; [discriminate|].
  destruct (usable_manifest rx a) as [[[[name data] m] mf]|]; [|exact IH].
  destruct (package_id src m) as [j|]; [|exact IH].
  destruct (version_str_of m tag) as [w|]; [|exact IH].
  destruct (String.eqb j i && String.eqb w v)%bool eqn:E; [|exact IH].
  apply Bool.andb_true_iff in E. destruct E as [_ E].
  apply String.eqb_eq in E. subst w. intros [= Hm].
  now apply make_version_entry_version in Hm.
Qed.

Lemma display_with_resources (p : package) (r : json) :
  display (with_resources p r) = display p.
Proof. reflexivity. Qed.

Lemma display_with_versions (p : package) (vs : list version_entry) :
  display (with_versions p vs) = display p.
Proof. reflexivity. Qed.

(** The merge of a sighting keeps the invariant. *)
Lemma merge_asset_inv (l : list (option string * asset)) (st st' : scan_state)
  (tag : option string) (a : asset) (name : string) (data : list Byte.byte)
  (m : list (string * json)) (mf : string) :
  usable_manifest rx a = Some (name, data, m, mf) ->
  scan_inv src rx l (st_packages st) ->
  merge_asset src tag name (sha256_bytes data) (Z.of_nat (List.length data))
    m mf st = Ok st' ->
  scan_inv src rx (l ++ [(tag, a)]) (st_packages st').
Proof.
  intros Hu Inv. pose proof Inv as [I1 I2 I3 I4 I5 I6 I7].
  unfold merge_asset.
  destruct (package_id src m) as [j|] eqn:Ej; cbn [bind]; [|discriminate].
  set (pk := st_packages st) in *.
  set (p0 := match dict_get j pk with
             | Some p => p
             | None => new_package j m
             end).
  destruct (wire_resources j (pkg_resources p0)) as [res|] eqn:Ew;
    cbn [bind]; [|discriminate].
  destruct (version_str_of m tag) as [w|] eqn:Ev; cbn [bind]; [|discriminate].
  set (mk := make_version_entry (src_repo src) tag name (sha256_bytes data)
               (Z.of_nat (List.length data)) m w).
  assert (F1 : forall i, first_manifest src rx i [(tag, a)]
                         = if String.eqb j i then Some m else None).
  { intros i. cbn [first_manifest]. rewrite Hu, Ej.
    now destruct (String.eqb j i). }
  assert (F2 : forall i v, first_entry src rx i v [(tag, a)]
                 = if (String.eqb j i && String.eqb w v)%bool
                   then Some mk else None).
  { intros i v. cbn [first_entry]. rewrite Hu, Ej, Ev.
    now destruct (String.eqb j i && String.eqb w v)%bool. }
  assert (Hm : forall i, i <> j -> first_manifest src rx i [(tag, a)] = None).
  { intros i ne. rewrite F1. destruct (String.eqb_spec j i); congruence. }
  assert (He : forall i v, i <> j -> first_entry src rx i v [(tag, a)] = None).
  { intros i v ne. rewrite F2. destruct (String.eqb_spec j i); [congruence|reflexivity]. }
  assert (Hid : pkg_identifier p0 = j).
  { subst p0. destruct (dict_get j pk) eqn:Eg; [now apply I2 | reflexivity]. }
  assert (Hdisp : exists m0,
             first_manifest src rx j (l ++ [(tag, a)]) = Some m0
             /\ display p0 = display (new_package j m0)
             /\ wire_resources j (pkg_resources (new_package j m0)) = Ok res).
  { subst p0. rewrite first_manifest_app, F1, String.eqb_refl.
    destruct (dict_get j pk) as [p|] eqn:Eg.
    - destruct (I4 j p Eg) as (m0 & Hf & Hd & Hw). exists m0.
      rewrite Hf. repeat split; trivial.
      pose proof (wire_resources_idem _ _ Hw) as Hi. congruence.
    - destruct (first_manifest src rx j l) as [m1|] eqn:Ef.
      + apply I3 in Ef. unfold dict_has in Ef. now rewrite Eg in Ef.
      + exists m. auto. }
  assert (V1 : NoDup (map ve_version (pkg_versions p0))).
  { subst p0. destruct (dict_get j pk) eqn:Eg; [now apply I5 with (i := j)|constructor]. }
  assert (V2 : forall e, In e (pkg_versions p0) ->
               first_entry src rx j (ve_version e) l = Some (Ok e)).
  { subst p0. destruct (dict_get j pk) as [p|] eqn:Eg.
    - intros e. now apply I6.
    - intros e []. }
  assert (V3 : forall v r, first_entry src rx j v l = Some r ->
               exists e, r = Ok e /\ In e (pkg_versions p0)).
  { intros v r Hf. destruct (I7 j v r Hf) as (p & e & -> & Hp & Hin).
    subst p0. rewrite Hp. eauto. }
  assert (S1 : forall e, In e (pkg_versions p0) ->
               first_entry src rx j (ve_version e) (l ++ [(tag, a)]) = Some (Ok e)).
  { intros e Hin. now rewrite first_entry_app, (V2 e Hin). }
  cbn [with_resources pkg_versions].
  destruct (has_version w (pkg_versions p0)) eqn:Ehv.
  - intros [= <-]. cbn [st_packages].
    apply scan_inv_update;
      [exact Inv | exact Hm | exact He | exact Hid | | exact V1 | exact S1 | ].
    + destruct Hdisp as (m0 & ? & ? & ?). exists m0. auto.
    + cbn [with_resources pkg_versions]. intros v r. rewrite first_entry_app.
      destruct (first_entry src rx j v l) as [r0|] eqn:Ef.
      * intros [= <-]. now apply V3 with (v := v).
      * rewrite F2, String.eqb_refl. cbn [andb].
        destruct (String.eqb_spec w v) as [<-|]; [|discriminate].
        apply has_version_true in Ehv. destruct Ehv as (e & Hin & Hv).
        apply V2 in Hin. rewrite Hv in Hin. congruence.
  - fold mk. destruct mk as [entry|] eqn:Em; cbn [bind]; [|discriminate].
    intros [= <-]. cbn [st_packages].
    pose proof (make_version_entry_version _ _ _ _ _ _ _ Em) as Hver.
    assert (Hnone : first_entry src rx j w l = None).
    { destruct (first_entry src rx j w l) as [r|] eqn:Ef; [|reflexivity].
      destruct (V3 _ _ Ef) as (e & -> & Hin).
      apply first_entry_version in Ef.
      assert (has_version w (pkg_versions p0) = true)
        by (apply has_version_true; eauto).
      congruence. }
    apply scan_inv_update;
      [exact Inv | exact Hm | exact He | exact Hid | | | | ].
    + destruct Hdisp as (m0 & ? & ? & ?). exists m0. auto.
    + cbn [with_versions pkg_versions]. rewrite map_app. cbn [map].
      apply NoDup_app; [exact V1 | repeat constructor; intros [] |].
      intros v Hin [<-|[]]. rewrite Hver in Hin.
      now apply has_version_false in Ehv.
    + cbn [with_versions pkg_versions]. intros e Hin.
      apply in_app_or in Hin. destruct Hin as [Hin | [<-|[]]].
      * now apply S1.
      * rewrite Hver, first_entry_app, Hnone, F2, !String.eqb_refl.
        reflexivity.
    + cbn [with_versions pkg_versions]. intros v r.
      rewrite first_entry_app.
      destruct (first_entry src rx j v l) as [r0|] eqn:Ef.
      * intros [= <-]. destruct (V3 _ _ Ef) as (e & -> & Hin).
        exists e. split; [reflexivity|]. apply in_or_app. now left.
      * rewrite F2, String.eqb_refl. cbn [andb].
        destruct (String.eqb_spec w v) as [<-|]; [|discriminate].
        intros [= <-]. exists entry. split; [reflexivity|].
        apply in_or_app. right. now left.
Qed.

Lemma unusable_no_sighting (tag : option string) (a : asset) :
  usable_manifest rx a = None ->
  (forall i, first_manifest src rx i [(tag, a)] = None)
  /\ (forall i v, first_entry src rx i v [(tag, a)] = None).
Proof. intros Hu. split; intros; cbn; now rewrite Hu. Qed.

Lemma scan_inv_unusable (l : list (option string * asset))
  (tag : option string) (a : asset) (pk : list (string * package)) :
  usable_manifest rx a = None ->
  scan_inv src rx l pk -> scan_inv src rx (l ++ [(tag, a)]) pk.
Proof.
  intros Hu. destruct (unusable_no_sighting tag a Hu).
  now apply scan_inv_skip.
Qed.

Lemma process_asset_usable (tag : option string) (a : asset)
  (st : scan_state) (n : nat) (name : string) (data : list Byte.byte)
  (m : list (string * json)) (mf : string) :
  usable_manifest rx a = Some (name, data, m, mf) ->
  process_asset src rx tag a (st, n)
  = (st' <- merge_asset src tag name (sha256_bytes data)
              (Z.of_nat (List.length data)) m mf (add_log (LogFetch name) st) ;;
     Ok (st', S n)).
Proof.
  unfold usable_manifest, process_asset.
  destruct (asset_name a) as [nm|]; [|discriminate].
  destruct (str_falsy (Some nm) || str_falsy (asset_url a))%bool;
    [discriminate|].
  destruct (negb (rx_match rx nm)); [discriminate|].
  destruct (asset_body a) as [d|]; [|discriminate]. cbn [bind].
  destruct (read_manifest_from_archive d) as [[[[| | | | | |kv] mf']|]|];
    try discriminate.
  now intros [= <- <- <- <-].
Qed.

Lemma process_asset_unusable (tag : option string) (a : asset)
  (st st' : scan_state) (n n' : nat) :
  usable_manifest rx a = None ->
  process_asset src rx tag a (st, n) = Ok (st', n') ->
  st_packages st' = st_packages st.
Proof.
  unfold usable_manifest, process_asset.
  destruct (asset_name a) as [nm|]; [|now intros _ [= <- <-]].
  destruct (str_falsy (Some nm) || str_falsy (asset_url a))%bool;
    [now intros _ [= <- <-]|].
  destruct (negb (rx_match rx nm)); [now intros _ [= <- <-]|].
  destruct (asset_body a) as [d|]; [|discriminate]. cbn [bind].
  destruct (read_manifest_from_archive d) as [[[[| | | | | |kv] mf']|]|];
    cbn [bind]; try discriminate; now intros _ [= <- <-].
Qed.

Lemma process_asset_inv (l : list (option string * asset))
  (tag : option string) (a : asset) (st st' : scan_state) (n n' : nat) :
  scan_inv src rx l (st_packages st) ->
  process_asset src rx tag a (st, n) = Ok (st', n') ->
  scan_inv src rx (l ++ [(tag, a)]) (st_packages st').
Proof.
  intros Inv Hp.
  destruct (usable_manifest rx a) as [[[[name data] m] mf]|] eqn:Hu.
  - rewrite (process_asset_usable tag a st n Hu) in Hp.
    destruct (merge_asset src tag name (sha256_bytes data)
                (Z.of_nat (List.length data)) m mf (add_log (LogFetch name) st))
      as [st1|] eqn:Em; cbn [bind] in Hp; [|discriminate].
    injection Hp as <- <-.
    eapply merge_asset_inv; [exact Hu | | exact Em]. exact Inv.
  - rewrite (process_asset_unusable tag a st n Hu Hp).
    now apply scan_inv_unusable.
Qed.

Lemma scan_assets_inv (tag : option string) (assets : list asset) :
  forall (l : list (option string * asset)) (st st' : scan_state) (n n' : nat),
    scan_inv src rx l (st_packages st) ->
    scan_assets src rx tag assets (st, n) = Ok (st', n') ->
    scan_inv src rx (l ++ map (pair tag) assets) (st_packages st').
Proof.
  induction assets as [|a rest IH]; intros l st st' n n' Inv; cbn [scan_assets map].
  - intros [= <- <-]. now rewrite app_nil_r.
  - destruct (process_asset src rx tag a (st, n)) as [[st1 n1]|] eqn:Ep;
      cbn [bind]; [|discriminate].
    intros Hs. apply (process_asset_inv _ _ _ _ Inv) in Ep.
    specialize (IH _ _ _ _ _ Ep Hs).
    now rewrite <- app_assoc in IH.
Qed.

Lemma scan_release_inv (rel : release) (l : list (option string * asset))
  (st st' : scan_state) :
  scan_inv src rx l (st_packages st) ->
  scan_release src rx rel st = Ok st' ->
  scan_inv src rx (l ++ release_pairs rel) (st_packages st').
Proof.
  intros Inv. unfold scan_release.
  destruct (scan_assets src rx (rel_tag_name rel) (rel_assets rel) _)
    as [[st1 n1]|] eqn:Es; cbn [bind]; [|discriminate].
  intros [= <-]. apply scan_assets_inv with (l := l) in Es; [|exact Inv].
  now destruct (Nat.eqb n1 0).
Qed.

Lemma scan_releases_inv (rels : list release) :
  forall (l : list (option string * asset)) (st st' : scan_state),
    scan_inv src rx l (st_packages st) ->
    scan_releases src rx rels st = Ok st' ->
    scan_inv src rx
      (l ++ flat_map release_pairs
              (if src_only_latest src then firstn 1 rels else rels))
      (st_packages st').
Proof.
  induction rels as [|rel rest IH]; intros l st st' Inv; cbn [scan_releases].
  - intros [= <-]. destruct (src_only_latest src); cbn; now rewrite app_nil_r.
  - destruct (scan_release src rx rel st) as [st1|] eqn:Er;
      cbn [bind]; [|discriminate].
    apply (scan_release_inv _ _ Inv) in Er.
    destruct (src_only_latest src) eqn:Eo.
    + intros [= <-]. cbn. now rewrite app_nil_r.
    + intros Hs. specialize (IH _ _ _ Er Hs).
      cbn [flat_map]. now rewrite <- app_assoc in IH.
Qed.
End ScanInvariant.

(** ** What a completed scan returns *)

Section ScanResult.
Context `{Env}.

(** The packages of a completed scan are the values of a dictionary that
    satisfies the invariant for all the pairs of the scan, each with its
    versions sorted. *)
Lemma build_scan_inv (src : source) (listing : result (list release))
  (pkgs : list package) (log : list log_event) :
  build_from_release_scan src listing = Ok (pkgs, log) ->
  exists listed pk,
    listing = Ok listed
    /\ scan_inv src (source_rx src) (processed src listed) pk
    /\ pkgs = map sort_versions (dict_values pk).
Proof.
  unfold build_from_release_scan, source_rx, source_glob.
  destruct (glob_rx _) as [rx|] eqn:Erx; cbn [bind]; [|discriminate].
  destruct listing as [listed|]; cbn [bind]; [|discriminate].
  match goal with
  | |- context [scan_releases src rx ?rels ?st0] =>
      destruct (scan_releases src rx rels st0) as [st'|] eqn:Es;
      cbn [bind]; [|discriminate];
      assert (Inv0 : scan_inv src rx [] (st_packages st0))
        by (destruct (sort_desc rel_created_at listed); apply scan_inv_nil)
  end.
  intros [= <- <-]. exists listed, (st_packages st').
  split; [reflexivity|]. split; [|reflexivity].
  eapply scan_releases_inv in Es; [|exact Inv0].
  unfold processed, scanned_releases.
  now destruct (src_only_latest src).
Qed.

Lemma in_sorted_packages (pk : list (string * package)) (p : package) :
  NoDup (map fst pk) ->
  In p (map sort_versions (dict_values pk)) ->
  exists i p0, dict_get i pk = Some p0 /\ p = sort_versions p0.
Proof.
  intros Hnd Hin. unfold dict_values in Hin. rewrite map_map in Hin.
  apply in_map_iff in Hin. destruct Hin as ([i p0] & <- & Hin).
  exists i, p0. split; [|reflexivity]. now apply dict_in_get.
Qed.

Lemma sorted_packages_in (pk : list (string * package)) (i : string)
  (p0 : package) :
  dict_get i pk = Some p0 ->
  In (sort_versions p0) (map sort_versions (dict_values pk)).
Proof.
  intros Hg. apply in_map. unfold dict_values.
  apply dict_get_in in Hg. now apply (in_map snd) in Hg.
Qed.

Lemma in_sort_versions (p0 : package) (e : version_entry) :
  In e (pkg_versions (sort_versions p0)) <-> In e (pkg_versions p0).
Proof.
  cbn. split; apply Permutation_in.
  - symmetry. apply sort_desc_perm.
  - apply sort_desc_perm.
Qed.
End ScanResult.

(** ** The example scan *)

Example example_scan_versions :
  match @build_from_release_scan example_env example_source example_listing with
  | Ok ([p], _) =>
      pkg_identifier p = "com.example.foo"
      /\ pkg_name p = JStr "Foo"
      /\ pkg_resources p = JObj [("icon", JStr "com.example.foo/icon.png")]
      /\ map ve_version (pkg_versions p) = ["1.9.0"; "1.2.0"; "1.10.0"]
      /\ map ve_download_url (pkg_versions p)
         = ["https://github.com/example/foo/releases/download/v2/b.zip";
            "https://github.com/example/foo/releases/download/v2/a.zip";
            "https://github.com/example/foo/releases/download/v2/c.zip"]
  | _ => False
  end.
Proof. vm_compute. repeat split. Qed.

Example example_scan_log :
  match @build_from_release_scan example_env example_source example_listing with
  | Ok (_, log) =>
      log = [LogScanning "example/foo" false "*.zip";
             LogRelease (Some "v2") 5;
             LogFetch "a.zip"; LogOK "manifest.json" "1.2.0";
             LogFetch "b.zip"; LogOK "metadata.json" "1.9.0";
             LogSkipGlob "notes.txt";
             LogFetch "c.zip"; LogOK "manifest.json" "1.10.0";
             LogFetch "d.zip"; LogDuplicate "1.2.0"]
  | _ => False
  end.
Proof. vm_compute. reflexivity. Qed.

(** ** Properties of the release scanner *)

Lemma sorted_map_key {A : Type} (key : A -> string) (l : list A) :
  StronglySorted (key_ge key) l -> StronglySorted str_ge (map key l).
Proof.
  induction 1 as [|x r Hs IH Hall]; cbn; constructor; trivial.
  now apply Forall_map.
Qed.

Lemma map_identifier_keys (pk : list (string * package)) :
  (forall i p, In (i, p) pk -> pkg_identifier p = i) ->
  map pkg_identifier (map sort_versions (dict_values pk)) = map fst pk.
Proof.
  unfold dict_values. induction pk as [|[i p] r IH]; cbn; intros Hid;
    [reflexivity|].
  rewrite IH by (intros; apply Hid; now right).
  f_equal. apply Hid. now left.
Qed.

(** An asset whose version string the package already holds is dropped: the
    version list of the package stays as it is and the duplicate is logged. *)
Lemma merge_asset_duplicate `{Env} (src : source) (tag : option string)
  (name sha : string) (size : Z) (m : list (string * json)) (mf : string)
  (st st' : scan_state) (j w : string) (p : package) :
  package_id src m = Ok j ->
  version_str_of m tag = Ok w ->
  dict_get j (st_packages st) = Some p ->
  has_version w (pkg_versions p) = true ->
  merge_asset src tag name sha size m mf st = Ok st' ->
  (exists p', dict_get j (st_packages st') = Some p'
              /\ pkg_versions p' = pkg_versions p)
  /\ st_log st' = (st_log st ++ [LogDuplicate w])%list.
Proof.
  intros Ej Ev Eg Eh. unfold merge_asset. rewrite Ej. cbn [bind]. rewrite Eg.
  destruct (wire_resources j (pkg_resources p)) as [res|]; cbn [bind];
    [|discriminate].
  rewrite Ev. cbn [bind with_resources pkg_versions]. rewrite Eh.
  intros [= <-]. cbn [st_packages st_log]. split; [|reflexivity].
  eexists. rewrite dict_get_set_same. split; reflexivity.
Qed.

(** C2.  In every package that a release scan returns, the version strings
    are pairwise distinct; every entry is the one built from the first asset
    seen with that identifier and version string, and every such first asset
    has its entry in the package; an asset whose version string is already
    present is dropped and logged, the version list left as it was. *)
Theorem scan_versions_unique `{Env} (src : source)
  (listing : result (list release)) (pkgs : list package)
  (log : list log_event) :
  build_from_release_scan src listing = Ok (pkgs, log) ->
  exists listed,
    listing = Ok listed
    /\ NoDup (map pkg_identifier pkgs)
    /\ (forall p, In p pkgs -> NoDup (map ve_version (pkg_versions p)))
    /\ (forall p e,
          In p pkgs -> In e (pkg_versions p) ->
          first_entry src (source_rx src) (pkg_identifier p) (ve_version e)
            (processed src listed) = Some (Ok e))
    /\ (forall i v r,
          first_entry src (source_rx src) i v (processed src listed) = Some r ->
          exists p e, r = Ok e /\ In p pkgs /\ pkg_identifier p = i
                      /\ In e (pkg_versions p))
    /\ (forall tag name sha size m mf st st' j w p,
          package_id src m = Ok j ->
          version_str_of m tag = Ok w ->
          dict_get j (st_packages st) = Some p ->
          has_version w (pkg_versions p) = true ->
          merge_asset src tag name sha size m mf st = Ok st' ->
          (exists p', dict_get j (st_packages st') = Some p'
                      /\ pkg_versions p' = pkg_versions p)
          /\ st_log st' = (st_log st ++ [LogDuplicate w])%list).
Proof.
  intros Hb. destruct (build_scan_inv _ _ Hb) as (listed & pk & -> & Inv & ->).
  destruct Inv as [I1 I2 I3 I4 I5 I6 I7].
  exists listed. split; [reflexivity|]. repeat split.
  - rewrite map_identifier_keys; [exact I1|].
    intros i p Hin. apply I2. now apply dict_in_get.
  - intros p Hin.
    destruct (in_sorted_packages _ _ I1 Hin) as (i & p0 & Hg & ->).
    cbn. rewrite sort_desc_map.
    eapply Permutation_NoDup; [apply sort_desc_perm|]. now apply I5 with (i := i).
  - intros p e Hin He.
    destruct (in_sorted_packages _ _ I1 Hin) as (i & p0 & Hg & ->).
    apply (proj1 (in_sort_versions _ _)) in He.
    cbn [sort_versions with_versions pkg_identifier].
    rewrite (I2 _ _ Hg). now apply I6 with (p := p0).
  - intros i v r Hf. destruct (I7 _ _ _ Hf) as (p0 & e & -> & Hg & Hin).
    exists (sort_versions p0), e. split; [reflexivity|].
    split; [now apply sorted_packages_in with (i := i)|].
    split; [exact (I2 _ _ Hg) | now apply in_sort_versions].
  - eapply merge_asset_duplicate; eassumption.
  - eapply merge_asset_duplicate; eassumption.
Qed.

Lemma scan_versions_unique_witness :
  exists pkgs log,
    @build_from_release_scan example_env example_source example_listing
    = Ok (pkgs, log)
    /\ NoDup (map pkg_identifier pkgs)
    /\ (forall p, In p pkgs -> NoDup (map ve_version (pkg_versions p)))
    /\ exists p e,
         In p pkgs /\ pkg_identifier p = "com.example.foo"
         /\ In e (pkg_versions p) /\ ve_version e = "1.2.0"
         /\ ve_download_url e
            = "https://github.com/example/foo/releases/download/v2/a.zip".
Proof.
  destruct (@build_from_release_scan example_env example_source
              example_listing) as [[pkgs log]|e] eqn:E.
  - exists pkgs, log. split; [reflexivity|].
    destruct (@scan_versions_unique example_env example_source
                example_listing pkgs log E)
      as (listed & Hl & Hid & Hnd & _ & Hc & _).
    unfold example_listing in Hl. injection Hl as <-.
    split; [exact Hid|]. split; [exact Hnd|].
    destruct (Hc "com.example.foo" "1.2.0"
                (Ok {| ve_version := "1.2.0";
                       ve_download_url :=
                         "https://github.com/example/foo/releases/download/v2/a.zip";
                       ve_download_sha256 := EmptyString;
                       ve_download_size := 1;
                       ve_status := "testing";
                       ve_kicad_version := "8.0";
                       ve_install_size := None |}) eq_refl)
      as (p & e' & He' & Hin & Hi & Hv).
    injection He' as <-. exists p. eexists.
    split; [exact Hin|]. split; [exact Hi|]. split; [exact Hv|].
    split; reflexivity.
  - vm_compute in E. discriminate.
Defined.

(** What the wiring of one local file does to a mapping. *)
Lemma wire_one_object (ex : bool) (key rel : string)
  (kv : list (string * json)) :
  exists kv',
    wire_one ex key rel (JObj kv) = Ok (JObj kv')
    /\ (forall k v, dict_get k kv = Some v -> dict_get k kv' = Some v)
    /\ (forall k, dict_has k kv' = true ->
          dict_has k kv = true
          \/ (k = key /\ ex = true /\ dict_get k kv' = Some (JStr rel))).
Proof.
  unfold wire_one. destruct ex.
  - destruct (dict_has key kv) eqn:Eh.
    + exists kv. split; [reflexivity|]. split; [tauto|]. intros k Hk. now left.
    + exists (dict_set key (JStr rel) kv). split; [reflexivity|]. split.
      * intros k v Hk. rewrite dict_get_set_other; [exact Hk|].
        intros ->. unfold dict_has in Eh. now rewrite Hk in Eh.
      * intros k Hk. destruct (string_dec k key) as [->|Hne].
        -- right. split; [reflexivity|]. split; [reflexivity|].
           apply dict_get_set_same.
        -- left. unfold dict_has in *.
           now rewrite dict_get_set_other in Hk by exact Hne.
  - exists kv. split; [reflexivity|]. split; [tauto|]. intros k Hk. now left.
Qed.

(** The wiring of the local files keeps what a mapping holds and adds
    nothing but an icon and a screenshot. *)
Lemma wire_resources_object `{Env} (pkg_id : string)
  (kv : list (string * json)) (r : json) :
  wire_resources pkg_id (JObj kv) = Ok r ->
  exists kv',
    r = JObj kv'
    /\ (forall k v, dict_get k kv = Some v -> dict_get k kv' = Some v)
    /\ (forall k, dict_has k kv' = true ->
          dict_has k kv = true \/ k = "icon" \/ k = "screenshot").
Proof.
  unfold wire_resources. destruct (assets_dir_exists pkg_id).
  - destruct (wire_one_object (icon_exists pkg_id) "icon"
                (pkg_id ++ "/icon.png") kv) as (kv1 & -> & Hk1 & Ha1).
    cbn [bind].
    destruct (wire_one_object (screenshot_exists pkg_id) "screenshot"
                (pkg_id ++ "/screenshot.png") kv1) as (kv2 & -> & Hk2 & Ha2).
    intros [= <-]. exists kv2. split; [reflexivity|]. split.
    + intros k v Hk. apply Hk2, Hk1, Hk.
    + intros k Hk. destruct (Ha2 k Hk) as [Hin1|(-> & _)]; [|now right; right].
      destruct (Ha1 k Hin1) as [Hin|(-> & _)]; [now left|now right; left].
  - intros [= <-]. exists kv. split; [reflexivity|]. split; [tauto|].
    intros k Hk. now left.
Qed.

(** The seven display fields of a package built from a manifest, key by
    key of the manifest. *)
Lemma display_fields (p : package) (i : string) (m : list (string * json)) :
  display p = display (new_package i m) ->
  pkg_name p = match dict_get "name" m with Some v => v | None => JStr i end
  /\ pkg_type p
     = match dict_get "type" m with Some v => v | None => JStr "library" end
  /\ pkg_description p
     = match dict_get "description" m with
       | Some v => v
       | None => JStr (i ++ " package")
       end
  /\ pkg_description_full p
     = match dict_get "description_full" m with
       | Some v => if truthy v then Some v else None
       | None => None
       end
  /\ pkg_license p
     = match dict_get "license" m with Some v => v | None => JStr EmptyString end
  /\ pkg_author p
     = match dict_get "author" m with
       | Some (JObj kv) => Some (JObj kv)
       | _ => None
       end
  /\ pkg_maintainer p
     = match dict_get "maintainer" m with
       | Some (JObj kv) => Some (JObj kv)
       | _ => None
       end.
Proof.
  unfold display. intros Hd.
  injection Hd as -> -> -> -> -> -> ->.
  cbn [new_package pkg_name pkg_type pkg_description pkg_description_full
       pkg_license pkg_author pkg_maintainer].
  unfold py_get_default, py_get.
  repeat split; try reflexivity.
  - destruct (dict_get "description_full" m) as [v|]; reflexivity.
  - destruct (dict_get "author" m) as [[]|]; reflexivity.
  - destruct (dict_get "maintainer" m) as [[]|]; reflexivity.
Qed.

(** C3.  In every package that a release scan returns, each display field
    is read from the manifest of the first asset seen for the identifier,
    key by key: the name (default: the identifier), the type (default
    library), the description (default: the identifier followed by
    package), the long description when the manifest holds a truthy one,
    the license (default: the empty string), the author and maintainer
    blocks when the manifest holds mappings there; the resources are that
    manifest's resources (default: an empty mapping) with the local icon
    and screenshot wired in: when they are a mapping, every entry of it is
    kept, and only an icon and a screenshot may be added.  Every identifier
    seen has its package.  Later manifests change none of these fields. *)
Theorem scan_first_seen_wins `{Env} (src : source)
  (listing : result (list release)) (pkgs : list package)
  (log : list log_event) :
  build_from_release_scan src listing = Ok (pkgs, log) ->
  exists listed,
    listing = Ok listed
    /\ (forall p,
          In p pkgs ->
          exists m,
            first_manifest src (source_rx src) (pkg_identifier p)
              (processed src listed) = Some m
            /\ pkg_name p = py_get_default m "name" (JStr (pkg_identifier p))
            /\ pkg_type p
               = match dict_get "type" m with
                 | Some v => v
                 | None => JStr "library"
                 end
            /\ pkg_description p
               = match dict_get "description" m with
                 | Some v => v
                 | None => JStr (pkg_identifier p ++ " package")
                 end
            /\ pkg_description_full p
               = match dict_get "description_full" m with
                 | Some v => if truthy v then Some v else None
                 | None => None
                 end
            /\ pkg_license p
               = match dict_get "license" m with
                 | Some v => v
                 | None => JStr EmptyString
                 end
            /\ pkg_author p
               = match dict_get "author" m with
                 | Some (JObj kv) => Some (JObj kv)
                 | _ => None
                 end
            /\ pkg_maintainer p
               = match dict_get "maintainer" m with
                 | Some (JObj kv) => Some (JObj kv)
                 | _ => None
                 end
            /\ display p = display (new_package (pkg_identifier p) m)
            /\ wire_resources (pkg_identifier p)
                 (match dict_get "resources" m with
                  | Some v => v
                  | None => JObj []
                  end)
               = Ok (pkg_resources p)
            /\ (forall kv,
                  match dict_get "resources" m with
                  | Some v => v
                  | None => JObj []
                  end = JObj kv ->
                  exists kv',
                    pkg_resources p = JObj kv'
                    /\ (forall k v, dict_get k kv = Some v ->
                                    dict_get k kv' = Some v)
                    /\ (forall k, dict_has k kv' = true ->
                                  dict_has k kv = true
                                  \/ k = "icon" \/ k = "screenshot")))
    /\ (forall i m,
          first_manifest src (source_rx src) i (processed src listed) = Some m ->
          exists p, In p pkgs /\ pkg_identifier p = i
                    /\ pkg_name p = py_get_default m "name" (JStr i)
                    /\ pkg_type p
                       = match dict_get "type" m with
                         | Some v => v
                         | None => JStr "library"
                         end
                    /\ pkg_description p
                       = match dict_get "description" m with
                         | Some v => v
                         | None => JStr (i ++ " package")
                         end
                    /\ pkg_description_full p
                       = match dict_get "description_full" m with
                         | Some v => if truthy v then Some v else None
                         | None => None
                         end
                    /\ pkg_license p
                       = match dict_get "license" m with
                         | Some v => v
                         | None => JStr EmptyString
                         end
                    /\ pkg_author p
                       = match dict_get "author" m with
                         | Some (JObj kv) => Some (JObj kv)
                         | _ => None
                         end
                    /\ pkg_maintainer p
                       = match dict_get "maintainer" m with
                         | Some (JObj kv) => Some (JObj kv)
                         | _ => None
                         end
                    /\ display p = display (new_package i m)
                    /\ wire_resources i
                         (match dict_get "resources" m with
                          | Some v => v
                          | None => JObj []
                          end)
                       = Ok (pkg_resources p)
                    /\ (forall kv,
                          match dict_get "resources" m with
                          | Some v => v
                          | None => JObj []
                          end = JObj kv ->
                          exists kv',
                            pkg_resources p = JObj kv'
                            /\ (forall k v, dict_get k kv = Some v ->
                                            dict_get k kv' = Some v)
                            /\ (forall k, dict_has k kv' = true ->
                                          dict_has k kv = true
                                          \/ k = "icon" \/ k = "screenshot"))).
Proof.
  intros Hb. destruct (build_scan_inv _ _ Hb) as (listed & pk & -> & Inv & ->).
  destruct Inv as [I1 I2 I3 I4 I5 I6 I7].
  exists listed. split; [reflexivity|]. split.
  - intros p Hin.
    destruct (in_sorted_packages _ _ I1 Hin) as (i & p0 & Hg & ->).
    cbn [sort_versions with_versions pkg_identifier pkg_name pkg_type
         pkg_description pkg_description_full pkg_license pkg_author
         pkg_maintainer pkg_resources].
    rewrite (I2 _ _ Hg).
    destruct (I4 _ _ Hg) as (m & Hf & Hd & Hw). exists m.
    destruct (display_fields Hd) as (F1 & F2 & F3 & F4 & F5 & F6 & F7).
    split; [exact Hf|].
    do 9 (split; [assumption|]).
    intros kv Hkv. unfold new_package in Hw. cbn [pkg_resources] in Hw.
    unfold py_get_default in Hw. rewrite Hkv in Hw.
    destruct (wire_resources_object _ _ Hw) as (kv' & Hr' & Hk & Ha).
    exists kv'. now split.
  - intros i m Hf. pose proof (I3 _ _ Hf) as Hh. unfold dict_has in Hh.
    destruct (dict_get i pk) as [p0|] eqn:Hg; [|discriminate].
    destruct (I4 _ _ Hg) as (m' & Hf' & Hd & Hw).
    rewrite Hf in Hf'. injection Hf' as <-.
    destruct (display_fields Hd) as (F1 & F2 & F3 & F4 & F5 & F6 & F7).
    exists (sort_versions p0). split; [now apply sorted_packages_in with (i := i)|].
    split; [exact (I2 _ _ Hg)|].
    cbn [sort_versions with_versions pkg_name pkg_type
         pkg_description pkg_description_full pkg_license pkg_author
         pkg_maintainer pkg_resources].
    do 9 (split; [assumption|]).
    intros kv Hkv. unfold new_package in Hw. cbn [pkg_resources] in Hw.
    unfold py_get_default in Hw. rewrite Hkv in Hw.
    destruct (wire_resources_object _ _ Hw) as (kv' & Hr' & Hk & Ha).
    exists kv'. now split.
Qed.

Lemma scan_first_seen_wins_witness :
  exists pkgs log,
    @build_from_release_scan example_env example_source example_listing
    = Ok (pkgs, log)
    /\ exists p, In p pkgs /\ pkg_identifier p = "com.example.foo"
                 /\ pkg_name p = JStr "Foo".
Proof.
  destruct (@build_from_release_scan example_env example_source
              example_listing) as [[pkgs log]|e] eqn:E.
  - exists pkgs, log. split; [reflexivity|].
    destruct (@scan_first_seen_wins example_env example_source
                example_listing pkgs log E)
      as (listed & Hl & _ & Hc).
    unfold example_listing in Hl. injection Hl as <-.
    destruct (Hc "com.example.foo"
                [("identifier", JStr "com.example.foo"); ("name", JStr "Foo");
                 ("version", JStr "1.2.0")] eq_refl)
      as (p & Hin & Hid & Hn & _).
    exists p. auto.
  - vm_compute in E. discriminate.
Defined.

(** C4.  In every package that a release scan returns, the version list is
    in descending order of the version strings compared character by
    character, and is a rearrangement of the entries collected; so the
    versions 1.2.0, 1.9.0, 1.10.0 are stored as 1.9.0, 1.2.0, 1.10.0. *)
Theorem scan_versions_sorted `{Env} (src : source)
  (listing : result (list release)) (pkgs : list package)
  (log : list log_event) :
  build_from_release_scan src listing = Ok (pkgs, log) ->
  (forall p, In p pkgs ->
             StronglySorted str_ge (map ve_version (pkg_versions p)))
  /\ (forall p0 : package,
        Permutation (pkg_versions p0) (pkg_versions (sort_versions p0))
        /\ StronglySorted str_ge (map ve_version (pkg_versions (sort_versions p0)))
        /\ (map ve_version (pkg_versions p0) = ["1.2.0"; "1.9.0"; "1.10.0"] ->
            map ve_version (pkg_versions (sort_versions p0))
            = ["1.9.0"; "1.2.0"; "1.10.0"])).
Proof.
  intros Hb. destruct (build_scan_inv _ _ Hb) as (listed & pk & -> & Inv & ->).
  split.
  - intros p Hin. destruct Inv as [I1 _ _ _ _ _ _].
    destruct (in_sorted_packages _ _ I1 Hin) as (i & p0 & Hg & ->).
    cbn. apply sorted_map_key, sort_desc_sorted.
  - intros p0. split; [apply sort_desc_perm|]. split.
    + cbn. apply sorted_map_key, sort_desc_sorted.
    + intros Hv. cbn. rewrite sort_desc_map, Hv. reflexivity.
Qed.

Lemma scan_versions_sorted_witness :
  exists pkgs log,
    @build_from_release_scan example_env example_source example_listing
    = Ok (pkgs, log)
    /\ forall p, In p pkgs ->
                 StronglySorted str_ge (map ve_version (pkg_versions p)).
Proof.
  destruct (@build_from_release_scan example_env example_source
              example_listing) as [[pkgs log]|e] eqn:E.
  - exists pkgs, log. split; [reflexivity|].
    exact (proj1 (@scan_versions_sorted example_env example_source
                    example_listing pkgs log E)).
  - vm_compute in E. discriminate.
Defined.

(** ** String stripping *)

Lemma lstrip_while_split (f : ascii -> bool) (s : string) :
  exists pre, s = (pre ++ lstrip_while f s)%string
              /\ all_chars_in f pre = true
              /\ match lstrip_while f s with
                 | String c _ => f c = false
                 | EmptyString => True
                 end.
Proof.
  induction s as [|c r IH]; cbn [lstrip_while].
  - now exists EmptyString.
  - destruct (f c) eqn:E.
    + destruct IH as (pre & Hs & Hp & Hh). exists (String c pre).
      cbn. rewrite E, Hp. repeat split; [now f_equal | exact Hh].
    + exists EmptyString. now rewrite E.
Qed.

Lemma rstrip_while_split (f : ascii -> bool) (s : string) :
  exists post, s = (rstrip_while f s ++ post)%string
               /\ all_chars_in f post = true.
Proof.
  induction s as [|c r IH]; cbn [rstrip_while].
  - now exists EmptyString.
  - destruct IH as (post & Hs & Hp).
    destruct (rstrip_while f r) as [|d t] eqn:Er.
    + cbn in Hs. subst r. destruct (f c) eqn:E.
      * exists (String c post). cbn. now rewrite E, Hp.
      * exists post. now cbn.
    + exists post. split; [|exact Hp]. cbn [append]. f_equal. exact Hs.
Qed.

(** [strip] removes whitespace only, and only at the two ends. *)
Lemma str_strip_split (s : string) :
  exists pre post,
    s = (pre ++ str_strip s ++ post)%string
    /\ all_chars_in is_space pre = true
    /\ all_chars_in is_space post = true.
Proof.
  unfold str_strip.
  destruct (lstrip_while_split is_space s) as (pre & Hs & Hp & _).
  destruct (rstrip_while_split is_space (lstrip_while is_space s))
    as (post & Hs' & Hq).
  exists pre, post. repeat split; trivial. now rewrite <- Hs'.
Qed.

Lemma str_lstrip_split (chars s : string) :
  exists pre, s = (pre ++ str_lstrip chars s)%string
              /\ all_chars_in (fun c => chr_in c chars) pre = true
              /\ match str_lstrip chars s with
                 | String c _ => chr_in c chars = false
                 | EmptyString => True
                 end.
Proof. apply lstrip_while_split. Qed.

(** ** The version string and the install size *)

Lemma version_str_of_stripped (m : list (string * json)) (tag : option string)
  (w : string) :
  version_str_of m tag = Ok w -> w = stripped_version_str m tag.
Proof.
  unfold version_str_of, stripped_version_str, py_get, tag_version.
  destruct (dict_get "version" m) as [[| | | | s | |]|]; cbn [truthy];
    try (intros [= <-]; reflexivity);
    try (match goal with |- context [if ?b then _ else _] => destruct b end;
         (discriminate || (intros [= <-]; reflexivity))).
  destruct (String.eqb s EmptyString); cbn [negb]; now intros [= <-].
Qed.

Lemma version_str_of_raises (m : list (string * json)) (tag : option string)
  (e : exn_class) :
  version_str_of m tag = Raise e ->
  e = AttributeError
  /\ truthy (py_get m "version") = true
  /\ forall s, py_get m "version" <> JStr s.
Proof.
  unfold version_str_of.
  destruct (truthy (py_get m "version")) eqn:Et; [|discriminate].
  destruct (py_get m "version"); try discriminate;
    intros [= <-]; repeat split; congruence.
Qed.

Lemma py_int_raises_exception (v : json) (e : exn_class) :
  py_int v = Raise e -> is_Exception e = true.
Proof.
  destruct v as [| b | z | [| neg | neg m x] | s | l | kv]; cbn;
    try discriminate; try (intros [= <-]; reflexivity).
  destruct (int_of_str s); [discriminate | now intros [= <-]].
Qed.

Lemma install_size_of_converted (m : list (string * json)) :
  install_size_of m = Ok (converted_install_size m).
Proof.
  unfold install_size_of, converted_install_size, py_get.
  destruct (dict_get "install_size" m) as [v|]; [|reflexivity].
  destruct (truthy v); [|reflexivity].
  destruct (py_int v) as [z|e] eqn:E; [reflexivity|].
  now rewrite (py_int_raises_exception _ E).
Qed.

Lemma make_version_entry_eq `{Env} (owner_repo : string) (tag : option string)
  (name sha : string) (size : Z) (m : list (string * json)) (w : string) :
  make_version_entry owner_repo tag name sha size m w
  = (url <- asset_download_url owner_repo tag name ;;
     Ok (entry_of url sha size m w)).
Proof.
  unfold make_version_entry. rewrite install_size_of_converted.
  now destruct (asset_download_url owner_repo tag name).
Qed.

(** What a merge that succeeds has done to the versions of its package. *)
Lemma merge_asset_versions `{Env} (src : source) (tag : option string)
  (name sha : string) (size : Z) (m : list (string * json)) (mf : string)
  (st st' : scan_state) :
  merge_asset src tag name sha size m mf st = Ok st' ->
  exists j w p,
    package_id src m = Ok j
    /\ version_str_of m tag = Ok w
    /\ dict_get j (st_packages st') = Some p
    /\ if has_version w (versions_before j st)
       then pkg_versions p = versions_before j st
            /\ st_log st' = (st_log st ++ [LogDuplicate w])%list
       else exists url,
              asset_download_url (src_repo src) tag name = Ok url
              /\ pkg_versions p
                 = (versions_before j st ++ [entry_of url sha size m w])%list
              /\ st_log st' = (st_log st ++ [LogOK mf w])%list.
Proof.
  unfold merge_asset.
  destruct (package_id src m) as [j|]; cbn [bind]; [|discriminate].
  set (p0 := match dict_get j (st_packages st) with
             | Some p => p
             | None => new_package j m
             end).
  assert (Hv : pkg_versions p0 = versions_before j st)
    by (unfold versions_before; subst p0;
        now destruct (dict_get j (st_packages st))).
  destruct (wire_resources j (pkg_resources p0)) as [res|]; cbn [bind];
    [|discriminate].
  destruct (version_str_of m tag) as [w|]; cbn [bind]; [|discriminate].
  cbn [with_resources pkg_versions].
  destruct (has_version w (pkg_versions p0)) eqn:Eh.
  - intros [= <-]. exists j, w. eexists.
    split; [reflexivity|]. split; [reflexivity|]. split.
    + cbn [st_packages]. apply dict_get_set_same.
    + rewrite <- Hv, Eh. split; reflexivity.
  - rewrite make_version_entry_eq.
    destruct (asset_download_url (src_repo src) tag name) as [url|];
      cbn [bind]; [|discriminate].
    intros [= <-]. exists j, w. eexists.
    split; [reflexivity|]. split; [reflexivity|]. split.
    + cbn [st_packages]. apply dict_get_set_same.
    + rewrite <- Hv, Eh. exists url. repeat split.
Qed.

(** The declared version with blanks around it, and a tag with two [v]. *)
Lemma version_string_counterexample :
  version_str_of [("version", JStr " 1.0 ")] (Some "v9") = Ok "1.0"
  /\ claimed_version_str [("version", JStr " 1.0 ")] (Some "v9") = " 1.0 "
  /\ version_str_of [] (Some "vv2") = Ok "2"
  /\ claimed_version_str [] (Some "vv2") = "v2".
Proof. repeat split. Qed.

(** C6 (as amended).  For every asset that the scanner merges, the version
    string recorded for it (in the package's entry and in the log) is, with
    the surrounding whitespace removed: the manifest's declared version when
    it is a non-empty string; otherwise the release tag without any of its
    leading [v] characters when the tag is non-empty; otherwise [0.0.0]. *)
Theorem version_string_recorded `{Env} (src : source) (tag : option string)
  (name sha : string) (size : Z) (m : list (string * json)) (mf : string)
  (st st' : scan_state) :
  merge_asset src tag name sha size m mf st = Ok st' ->
  version_str_of m tag = Ok (stripped_version_str m tag)
  /\ exists j p e,
       package_id src m = Ok j
       /\ dict_get j (st_packages st') = Some p
       /\ In e (pkg_versions p)
       /\ ve_version e = stripped_version_str m tag
       /\ (last (st_log st') LogNoReleases
           = LogOK mf (stripped_version_str m tag)
           \/ last (st_log st') LogNoReleases
              = LogDuplicate (stripped_version_str m tag)).
Proof.
  intros Hm.
  destruct (merge_asset_versions _ _ _ _ _ _ _ _ Hm)
    as (j & w & p & Ej & Ev & Eg & Hcase).
  pose proof (version_str_of_stripped _ _ Ev) as ->.
  split; [exact Ev|].
  destruct (has_version _ (versions_before j st)) eqn:Eh.
  - destruct Hcase as [Hvs Hlog].
    apply has_version_true in Eh. destruct Eh as (e & Hin & He).
    exists j, p, e. rewrite Hvs, Hlog, last_last. auto 10.
  - destruct Hcase as (url & Eu & Hvs & Hlog).
    exists j, p, (entry_of url sha size m (stripped_version_str m tag)).
    rewrite Hvs, Hlog, last_last. repeat split; auto.
    apply in_or_app. right. now left.
Qed.

Lemma version_string_recorded_witness :
  exists st',
    @merge_asset example_env example_source (Some "v9") "a.zip" "00" 7
      [("version", JStr " 1.0 ")] "manifest.json"
      {| st_packages := []; st_log := [] |} = Ok st'
    /\ version_str_of [("version", JStr " 1.0 ")] (Some "v9") = Ok "1.0".
Proof.
  destruct (@merge_asset example_env example_source (Some "v9") "a.zip" "00" 7
              [("version", JStr " 1.0 ")] "manifest.json"
              {| st_packages := []; st_log := [] |}) as [st'|e] eqn:E.
  - exists st'. split; [reflexivity|].
    exact (proj1 (@version_string_recorded example_env _ _ _ _ _ _ _ _ _ E)).
  - vm_compute in E. discriminate.
Defined.

(** An install size of zero is an integer, and the entry leaves it out. *)
Lemma install_size_zero_counterexample :
  py_int (JInt 0) = Ok 0%Z
  /\ @make_version_entry example_env "example/foo" (Some "v1") "a.zip" "00" 7
       [("install_size", JInt 0)] "1.0"
     = Ok {| ve_version := "1.0";
             ve_download_url :=
               "https://github.com/example/foo/releases/download/v1/a.zip";
             ve_download_sha256 := "00";
             ve_download_size := 7;
             ve_status := "testing";
             ve_kicad_version := "8.0";
             ve_install_size := None |}.
Proof. split; reflexivity. Qed.

(** C7 (as amended).  When an asset is merged under a version string that its
    package does not hold yet, one entry is appended, whatever the manifest
    gives as install size; its install size is the integer that [int] makes
    of the manifest's value when that value is truthy and [int] accepts it,
    and is left out when the value is missing, falsy (zero, empty, null,
    false) or rejected by [int]; the other fields do not depend on it. *)
Theorem install_size_converted `{Env} (src : source) (tag : option string)
  (name sha : string) (size : Z) (m : list (string * json)) (mf : string)
  (st st' : scan_state) (j w : string) :
  merge_asset src tag name sha size m mf st = Ok st' ->
  package_id src m = Ok j ->
  version_str_of m tag = Ok w ->
  has_version w (versions_before j st) = false ->
  exists url p,
    asset_download_url (src_repo src) tag name = Ok url
    /\ dict_get j (st_packages st') = Some p
    /\ pkg_versions p
       = (versions_before j st
          ++ [{| ve_version := w;
                 ve_download_url := url;
                 ve_download_sha256 := sha;
                 ve_download_size := size;
                 ve_status :=
                   py_str (py_get_default m "status" (JStr "testing"));
                 ve_kicad_version :=
                   py_str (py_get_default m "kicad_version" (JStr "8.0"));
                 ve_install_size := converted_install_size m |}])%list
    /\ (forall z, converted_install_size m = Some z <->
                  exists v, dict_get "install_size" m = Some v
                            /\ truthy v = true /\ py_int v = Ok z).
Proof.
  intros Hm Ej Ev Eh.
  destruct (merge_asset_versions _ _ _ _ _ _ _ _ Hm)
    as (j' & w' & p & Ej' & Ev' & Eg & Hcase).
  rewrite Ej in Ej'. rewrite Ev in Ev'.
  injection Ej' as <-. injection Ev' as <-.
  rewrite Eh in Hcase. destruct Hcase as (url & Eu & Hvs & _).
  exists url, p. repeat split; trivial.
  - unfold converted_install_size.
    destruct (dict_get "install_size" m) as [v|]; [|discriminate].
    destruct (truthy v) eqn:Et; [|discriminate].
    destruct (py_int v) as [z'|] eqn:Ei; [|discriminate].
    intros [= <-]. now exists v.
  - intros (v & Eg' & Et & Ei). unfold converted_install_size.
    now rewrite Eg', Et, Ei.
Qed.

Lemma install_size_converted_witness :
  exists st',
    @merge_asset example_env example_source (Some "v1") "a.zip" "00" 7
      [("version", JStr "1.0"); ("install_size", JStr "2_048")]
      "manifest.json" {| st_packages := []; st_log := [] |} = Ok st'
    /\ converted_install_size
         [("version", JStr "1.0"); ("install_size", JStr "2_048")]
       = Some 2048%Z
    /\ exists url p,
         dict_get "foo" (st_packages st') = Some p
         /\ map ve_install_size (pkg_versions p)
            = map ve_install_size
                [@entry_of example_env url "00" 7
                   [("version", JStr "1.0"); ("install_size", JStr "2_048")]
                   "1.0"].
Proof.
  destruct (@merge_asset example_env example_source (Some "v1") "a.zip" "00" 7
              [("version", JStr "1.0"); ("install_size", JStr "2_048")]
              "manifest.json" {| st_packages := []; st_log := [] |})
    as [st'|e] eqn:E.
  - exists st'. split; [reflexivity|]. split; [reflexivity|].
    destruct (@install_size_converted example_env _ _ _ _ _ _ _ _ _ "foo" "1.0"
                E eq_refl eq_refl eq_refl) as (url & p & _ & Hg & Hv & _).
    exists url, p. split; [exact Hg|]. now rewrite Hv.
  - vm_compute in E. discriminate.
Defined.

(** ** The tolerant loader *)

Example tolerant_plain_document `{Env} :
  json_loads doc_plain = LoadFailed DecodeError
  /\ json_loads_tolerant doc_plain = Loaded (JObj [("name", JStr "Foo")])
  /\ json_loads doc_plain_clean = Loaded (JObj [("name", JStr "Foo")]).
Proof. repeat split; vm_compute; reflexivity. Qed.

(** C5.  The tolerant loader at two manifests that are valid but for a
    comment line and a trailing comma before the closing brace: with a URL
    in a string the retry fails, the text from the two slashes of the URL to
    the end of its line being taken for a comment; with a comma and a brace
    in a string the retry returns another value.  Strict parsing of the
    documents without the comment and the trailing comma succeeds. *)
Theorem tolerant_loader_damages_strings `{Env} :
  json_loads doc_url_clean
  = Loaded (JObj [("homepage", JStr "https://example.org/foo")])
  /\ json_loads_tolerant doc_url = LoadFailed DecodeError
  /\ strip_trailing_commas (strip_comments doc_url)
     = join_lines ["{"; EmptyString; quoted "homepage" ++ ": "
                                    ++ String ch_quote "https:"; "}"]
  /\ json_loads doc_brace_clean
     = Loaded (JObj [("description", JStr "sets {a, }")])
  /\ json_loads_tolerant doc_brace
     = Loaded (JObj [("description", JStr "sets {a}")]).
Proof. repeat split; vm_compute; reflexivity. Qed.

(** ** The mirror importer *)

Lemma mirror_packages_choice (d : list (string * json)) :
  mirror_packages (JObj d) = mirror_choice d.
Proof.
  unfold mirror_packages, mirror_choice, py_or, py_get.
  destruct (dict_get "packages" d) as [a|].
  - destruct (truthy a) eqn:Ea.
    + now rewrite Ea.
    + destruct (dict_get "data" d) as [b|]; [|reflexivity].
      now destruct (truthy b) eqn:Eb; rewrite ?Eb.
  - cbn [truthy]. destruct (dict_get "data" d) as [b|]; [|reflexivity].
    now destruct (truthy b) eqn:Eb; rewrite ?Eb.
Qed.

(** C10.  For a mirror document that is an object, the importer returns the
    value under [packages] when that value is truthy, otherwise the value
    under [data] when that one is truthy, otherwise the empty list; so an
    empty list under [packages] falls through to [data], and an object with
    neither key gives the empty list; a document that is no object is
    returned as it is. *)
Theorem mirror_object_choice (d : list (string * json)) :
  mirror_packages (JObj d)
  = match dict_get "packages" d with
    | Some a =>
        if truthy a then a
        else match dict_get "data" d with
             | Some b => if truthy b then b else JList []
             | None => JList []
             end
    | None =>
        match dict_get "data" d with
        | Some b => if truthy b then b else JList []
        | None => JList []
        end
    end
  /\ (forall x rest,
        mirror_packages (JObj (("packages", JList []) :: ("data", x) :: rest))
        = if truthy x then x else JList [])
  /\ (dict_get "packages" d = None -> dict_get "data" d = None ->
      mirror_packages (JObj d) = JList [])
  /\ mirror_packages (JObj []) = JList []
  /\ (forall l, mirror_packages (JList l) = JList l).
Proof.
  split; [apply mirror_packages_choice|].
  split; [intros x rest; rewrite mirror_packages_choice; reflexivity|].
  split; [|split; [reflexivity | reflexivity]].
  intros Hp Hd. rewrite mirror_packages_choice. unfold mirror_choice.
  now rewrite Hp, Hd.
Qed.

Example mirror_from_text `{Env} :
  build_from_mirror
    (Ok ("{" ++ quoted "packages" ++ ": [], " ++ quoted "data" ++ ": [{}]}"))
  = Ok (JList [JObj []])
  /\ build_from_mirror (Ok "{}") = Ok (JList [])
  /\ build_from_mirror (Ok "[1, 2]") = Ok (JList [JInt 1; JInt 2])
  /\ build_from_mirror (Ok "[1, 2") = Raise JSONDecodeError.
Proof. repeat split; vm_compute; reflexivity. Qed.

(** ** The index writer *)

Example index_of_nothing `{Env} :
  json_dumps (packages_obj [])
  = join_lines ["{"; "  " ++ quoted "packages" ++ ": []"; "}"].
Proof. vm_compute. reflexivity. Qed.

Example index_of_one `{Env} :
  json_dumps
    (packages_obj
       [JObj [("identifier", JStr "a/b"); ("versions", JList [JInt 1; JNull])]])
  = join_lines
      ["{";
       "  " ++ quoted "packages" ++ ": [";
       "    {";
       "      " ++ quoted "identifier" ++ ": " ++ quoted "a/b" ++ ",";
       "      " ++ quoted "versions" ++ ": [";
       "        1,";
       "        null";
       "      ]";
       "    }";
       "  ]";
       "}"].
Proof. vm_compute. reflexivity. Qed.

(** The serialization follows the order of the keys of a dictionary: two
    dictionaries with the same entries in another order give other bytes. *)
Example index_follows_key_order `{Env} :
  json_dumps (JObj [("a", JInt 1); ("b", JInt 2)])
  <> json_dumps (JObj [("b", JInt 2); ("a", JInt 1)]).
Proof. vm_compute. discriminate. Qed.

Example index_of_scanned_package `{Env} :
  json_dumps
    (version_to_json
       {| ve_version := "1.0"; ve_download_url := "u"; ve_download_sha256 := "s";
          ve_download_size := 7; ve_status := "testing";
          ve_kicad_version := "8.0"; ve_install_size := Some 2048%Z |})
  = join_lines
      ["{";
       "  " ++ quoted "version" ++ ": " ++ quoted "1.0" ++ ",";
       "  " ++ quoted "download_url" ++ ": " ++ quoted "u" ++ ",";
       "  " ++ quoted "download_sha256" ++ ": " ++ quoted "s" ++ ",";
       "  " ++ quoted "download_size" ++ ": 7,";
       "  " ++ quoted "status" ++ ": " ++ quoted "testing" ++ ",";
       "  " ++ quoted "kicad_version" ++ ": " ++ quoted "8.0" ++ ",";
       "  " ++ quoted "install_size" ++ ": 2048";
       "}"].
Proof. vm_compute. reflexivity. Qed.

(** ** The serializer writes the layout of the specification *)

Lemma json_nested_ind (P : json -> Prop) :
  P JNull -> (forall b, P (JBool b)) -> (forall z, P (JInt z)) ->
  (forall f, P (JFloat f)) -> (forall s, P (JStr s)) ->
  (forall l, Forall P l -> P (JList l)) ->
  (forall kv, Forall (fun m => P (snd m)) kv -> P (JObj kv)) ->
  forall v, P v.
Proof.
  intros Hn Hb Hi Hf Hs Hl Ho.
  fix IH 1. intros [| b | z | f | s | l | kv].
  - exact Hn.
  - apply Hb.
  - apply Hi.
  - apply Hf.
  - apply Hs.
  - apply Hl. induction l as [|x r IHl]; constructor; [apply IH | exact IHl].
  - apply Ho. induction kv as [|[k x] r IHl]; constructor;
      [apply IH | exact IHl].
Qed.

Lemma append_empty_r (s : string) : s ++ EmptyString = s.
Proof. induction s as [|c s IH]; cbn [append]; [reflexivity|now rewrite IH]. Qed.

Lemma spaces_app (a b : nat) : spaces (a + b) = spaces a ++ spaces b.
Proof.
  induction a as [|a IH]; cbn [Nat.add spaces append]; [reflexivity|].
  now rewrite IH.
Qed.

Lemma newline_indent_S (n : nat) (s : string) :
  newline_indent n ++ "  " ++ s = newline_indent (S n) ++ s.
Proof.
  unfold newline_indent. replace (2 * S n)%nat with (2 * n + 2)%nat by lia.
  rewrite spaces_app. cbn [append spaces].
  now rewrite append_assoc.
Qed.

Section Joining.
Variable sep : string.

Lemma join_str_cons (x : string) (r : list string) :
  r <> [] -> join_str sep (x :: r) = x ++ sep ++ join_str sep r.
Proof. destruct r; [now intros []|reflexivity]. Qed.

Lemma join_str_app (a b : list string) :
  a <> [] -> b <> [] ->
  join_str sep (a ++ b) = join_str sep a ++ sep ++ join_str sep b.
Proof.
  intros Ha Hb. induction a as [|x a IH]; [now destruct Ha|].
  destruct a as [|y a].
  - cbn [app]. now rewrite join_str_cons.
  - change ((x :: y :: a) ++ b)%list with (x :: ((y :: a) ++ b))%list.
    rewrite join_str_cons by discriminate.
    rewrite IH by discriminate.
    rewrite (@join_str_cons x (y :: a)) by discriminate.
    now rewrite !append_assoc.
Qed.

Lemma add_comma_nonempty (a : list string) : a <> [] -> add_comma a <> [].
Proof. destruct a as [|x [|y a]]; [now intros []| |]; discriminate. Qed.

Lemma join_add_comma (a : list string) :
  a <> [] -> join_str sep (add_comma a) = join_str sep a ++ ",".
Proof.
  induction a as [|x a IH]; [now intros []|]. intros _.
  destruct a as [|y a]; [reflexivity|].
  change (add_comma (x :: y :: a)) with (x :: add_comma (y :: a)).
  rewrite join_str_cons by (apply add_comma_nonempty; discriminate).
  rewrite IH by discriminate.
  rewrite (@join_str_cons x (y :: a)) by discriminate.
  now rewrite !append_assoc.
Qed.

Lemma join_prefix_head (p : string) (l : list string) :
  l <> [] -> join_str sep (prefix_head p l) = p ++ join_str sep l.
Proof.
  destruct l as [|x [|y l]]; [now intros []| |]; intros _; cbn [prefix_head].
  - reflexivity.
  - rewrite !join_str_cons by discriminate. now rewrite append_assoc.
Qed.
End Joining.

Lemma join_indented (n : nat) (l : list string) :
  l <> [] ->
  join_str (newline_indent n) (indented l)
  = "  " ++ join_str (newline_indent (S n)) l.
Proof.
  induction l as [|x l IH]; [now intros []|]. intros _.
  destruct l as [|y l]; [reflexivity|].
  change (indented (x :: y :: l)) with (("  " ++ x) :: indented (y :: l)).
  rewrite join_str_cons by discriminate.
  rewrite IH by discriminate.
  rewrite (@join_str_cons (newline_indent (S n)) x (y :: l)) by discriminate.
  rewrite !append_assoc. now rewrite newline_indent_S.
Qed.

Lemma prefix_head_nonempty (p : string) (l : list string) :
  prefix_head p l <> [].
Proof. destruct l; discriminate. Qed.

Lemma value_lines_nonempty `{Env} (v : json) : value_lines v <> [].
Proof.
  destruct v as [| [] | | | | [|x r] | [|m r]]; discriminate.
Qed.

Lemma separated_nonempty (b : list string) (bs : list (list string)) :
  b <> [] -> separated (b :: bs) <> [].
Proof.
  intros Hb. destruct bs as [|b' bs]; [exact Hb|].
  cbn [separated]. intros Hx. apply app_eq_nil in Hx. destruct Hx as [Hx _].
  now apply (add_comma_nonempty Hb).
Qed.

(** The items after the first one of a list, and the members after the
    first one of an object. *)
Lemma items_lines `{Env} (n : nat) (r : list json) :
  Forall (fun y => forall m, dumps_at m y = join_str (newline_indent m) (value_lines y)) r ->
  forall b,
    b <> [] ->
    join_str (newline_indent (S n)) b
    ++ (fix items (l : list json) : string :=
          match l with
          | [] => EmptyString
          | y :: l' =>
              "," ++ newline_indent (S n) ++ dumps_at (S n) y ++ items l'
          end) r
    = join_str (newline_indent (S n)) (separated (b :: map value_lines r)).
Proof.
  induction 1 as [|y r Hy Hr IH]; intros b Hb.
  - cbn [map separated]. apply append_empty_r.
  - cbn [map]. 
    change (separated (b :: value_lines y :: map value_lines r))
      with (add_comma b ++ separated (value_lines y :: map value_lines r))%list.
    rewrite join_str_app;
      [|now apply add_comma_nonempty
       |apply separated_nonempty, value_lines_nonempty].
    rewrite join_add_comma by exact Hb.
    rewrite <- (IH (value_lines y) (value_lines_nonempty y)).
    rewrite <- (Hy (S n)).
    now rewrite !append_assoc.
Qed.

Lemma members_lines `{Env} (n : nat) (r : list (string * json)) :
  Forall (fun kx => forall m, dumps_at m (snd kx)
                              = join_str (newline_indent m) (value_lines (snd kx))) r ->
  forall b,
    b <> [] ->
    join_str (newline_indent (S n)) b
    ++ (fix members (l : list (string * json)) : string :=
          match l with
          | [] => EmptyString
          | (k', y) :: l' =>
              "," ++ newline_indent (S n) ++ dump_str k' ++ ": "
              ++ dumps_at (S n) y ++ members l'
          end) r
    = join_str (newline_indent (S n)) (separated (b :: map member_lines r)).
Proof.
  induction 1 as [|[k y] r Hy Hr IH]; intros b Hb.
  - cbn [map separated]. apply append_empty_r.
  - cbn [map].
    change (separated (b :: member_lines (k, y) :: map member_lines r))
      with (add_comma b ++ separated (member_lines (k, y) :: map member_lines r))%list.
    rewrite join_str_app;
      [|now apply add_comma_nonempty
       |apply separated_nonempty, prefix_head_nonempty].
    rewrite join_add_comma by exact Hb.
    rewrite <- (IH (member_lines (k, y)) (prefix_head_nonempty _ _)).
    unfold member_lines at 1.
    rewrite join_prefix_head by apply value_lines_nonempty.
    cbn [snd] in Hy. rewrite <- (Hy (S n)).
    now rewrite !append_assoc.
Qed.

Lemma bracketed (n : nat) (opening closing : string) (body : list string) :
  body <> [] ->
  join_str (newline_indent n) ([opening] ++ indented body ++ [closing])
  = opening ++ newline_indent (S n)
    ++ join_str (newline_indent (S n)) body
    ++ newline_indent n ++ closing.
Proof.
  intros Hb.
  assert (Hi : indented body <> []) by (destruct body; [now destruct Hb|discriminate]).
  change ([opening] ++ indented body ++ [closing])%list
    with (opening :: (indented body ++ [closing]))%list.
  rewrite join_str_cons by (destruct (indented body); discriminate).
  rewrite join_str_app by (exact Hi || discriminate).
  rewrite join_indented by exact Hb.
  cbn [join_str].
  rewrite <- newline_indent_S. now rewrite !append_assoc.
Qed.

(** The serializer writes a value as its lines, joined by a line break and
    the indentation of the nesting level. *)
Lemma dumps_at_lines `{Env} (v : json) :
  forall n, dumps_at n v = join_str (newline_indent n) (value_lines v).
Proof.
  induction v as [| [] | z | f | s | l IH | kv IH] using json_nested_ind;
    intros n; try reflexivity.
  - destruct l as [|x r]; [reflexivity|].
    inversion IH as [|? ? Hx Hr]; subst.
    change (value_lines (JList (x :: r)))
      with (["["] ++ indented (separated (value_lines x :: map value_lines r))
            ++ ["]"])%list.
    rewrite bracketed by apply separated_nonempty, value_lines_nonempty.
    rewrite <- (items_lines n Hr (value_lines_nonempty x)).
    rewrite <- (Hx (S n)).
    cbn [dumps_at]. now rewrite !append_assoc.
  - destruct kv as [|[k x] r]; [reflexivity|].
    inversion IH as [|? ? Hx Hr]; subst. cbn [snd] in Hx.
    change (value_lines (JObj ((k, x) :: r)))
      with (["{"] ++ indented (separated (member_lines (k, x) :: map member_lines r))
            ++ ["}"])%list.
    rewrite bracketed by apply separated_nonempty, prefix_head_nonempty.
    rewrite <- (@members_lines _ n r Hr (member_lines (k, x))
                  (prefix_head_nonempty _ _)).
    unfold member_lines at 1.
    rewrite join_prefix_head by apply value_lines_nonempty.
    rewrite <- (Hx (S n)).
    cbn [dumps_at]. now rewrite !append_assoc.
Qed.

Lemma join_lines_eq (l : list string) :
  join_str (newline_indent 0) l = join_lines l.
Proof.
  induction l as [|x l IH]; [reflexivity|].
  destruct l as [|y l]; [reflexivity|].
  rewrite join_str_cons by discriminate. rewrite IH. reflexivity.
Qed.

Lemma indented_app (a b : list string) :
  indented (a ++ b) = (indented a ++ indented b)%list.
Proof. apply map_app. Qed.

(** The text of the index is the envelope and the packages, laid out as
    the specification says. *)
Lemma index_layout `{Env} (all_packages : list json) :
  json_dumps (packages_obj all_packages)
  = join_lines (index_lines all_packages).
Proof.
  unfold json_dumps. rewrite dumps_at_lines, join_lines_eq. f_equal.
  destruct all_packages as [|x r]; [reflexivity|].
  unfold packages_obj, index_lines.
  change (value_lines (JObj [("packages", JList (x :: r))]))
    with (["{"]
          ++ indented
               (prefix_head (dump_str "packages" ++ ": ")
                  (["["] ++ indented (separated (map value_lines (x :: r)))
                   ++ ["]"]))
          ++ ["}"])%list.
  cbn [prefix_head app]. unfold indented at 1. cbn [map].
  fold (indented (indented (separated (map value_lines (x :: r))) ++ ["]"])).
  rewrite indented_app. cbn [app]. rewrite <- app_assoc. reflexivity.
Qed.

(** C8.  Two runs of the index writer on the same package list, whatever the
    repository name, the maintainer, the environment variable, the clock and
    the files present are in each, both succeed and leave the same bytes in
    [packages.json].  These bytes are the UTF-8 encoding of the lines of
    the index: an opening brace; the key [packages] in quotes, moved in by
    two spaces, with a colon, a space and an opening bracket; every package
    in the order of the list, moved in by four spaces, its members in the
    order of its dictionary and two more spaces per nesting level, a comma
    after every item but the last; the closing bracket and the closing
    brace (for an empty list the brackets stay on the line of the key).
    Both runs put into their descriptors the same hash, the digest of
    exactly those bytes. *)
Theorem index_writer_deterministic `{Env} (name1 name2 maint1 maint2 : json)
  (all_packages : list json) (w1 w2 : world) :
  exists fs1 d1 fs2 d2,
    write_outputs name1 maint1 all_packages w1 = Ok (fs1, d1)
    /\ write_outputs name2 maint2 all_packages w2 = Ok (fs2, d2)
    /\ dict_get "packages.json" fs1 = Some (index_bytes all_packages)
    /\ dict_get "packages.json" fs2 = Some (index_bytes all_packages)
    /\ index_bytes all_packages
       = utf8_encode (json_dumps (JObj [("packages", JList all_packages)]))
    /\ index_bytes all_packages
       = utf8_encode (join_lines (index_lines all_packages))
    /\ json_field (json_field d1 "packages") "sha256"
       = JStr (sha256_hex (index_bytes all_packages))
    /\ json_field (json_field d2 "packages") "sha256"
       = JStr (sha256_hex (index_bytes all_packages)).
Proof.
  unfold write_outputs. rewrite !dict_get_set_same.
  do 4 eexists. split; [reflexivity|]. split; [reflexivity|].
  split; [rewrite dict_get_set_other by discriminate; apply dict_get_set_same|].
  split; [rewrite dict_get_set_other by discriminate; apply dict_get_set_same|].
  split; [reflexivity|].
  split; [unfold index_bytes; now rewrite index_layout|].
  split; reflexivity.
Qed.

(** ** The resource packer *)

(** An interrupt from the keyboard during the first call of [main]. *)
Lemma packer_interrupt_counterexample :
  is_Exception KeyboardInterrupt = false
  /\ @packer_main unit interrupted_os fresh_process
     = (Raised {| exn_class_of := KeyboardInterrupt;
                  exn_message := EmptyString |}, fresh_process)
  /\ @packer_script unit interrupted_os fresh_process
     = (Unhandled {| exn_class_of := KeyboardInterrupt;
                     exn_message := EmptyString |}, fresh_process)
  /\ fst (@packer_script unit interrupted_os fresh_process) <> Exited 0.
Proof. repeat split. discriminate. Qed.

(** C9 (as amended).  Whenever [main] of the packer raises an exception that
    derives from [Exception], the entry point handles it: one warning line
    with the exception's text goes to the standard error stream and the
    process exits with status 0; nothing else changes.  When [main] returns,
    the process exits with status 0 as well. *)
Theorem packer_guard_exits_zero {W : Type} `{PackerOS W} (p p' : process W)
  (e : exn) :
  packer_main p = (Raised e, p') ->
  is_Exception (exn_class_of e) = true ->
  packer_script p
  = (Exited 0,
     {| proc_os := proc_os p';
        proc_stdout := proc_stdout p';
        proc_stderr :=
          (proc_stderr p'
           ++ [("[update_resources] warning: " ++ exn_message e)%string])%list |})
  /\ forall q q', packer_main q = (Returned tt, q') ->
                  packer_script q = (Exited 0, q').
Proof.
  intros Hm He. split.
  - unfold packer_script. now rewrite Hm, He.
  - intros q q' Hq. unfold packer_script. now rewrite Hq.
Qed.

Lemma packer_guard_exits_zero_witness :
  @packer_script unit readonly_os fresh_process
  = (Exited 0,
     {| proc_os := tt;
        proc_stdout := [];
        proc_stderr :=
          ["[update_resources] warning: [Errno 13] Permission denied: 'resources.zip'"] |}).
Proof.
  exact (proj1 (@packer_guard_exits_zero unit readonly_os fresh_process
                  fresh_process
                  {| exn_class_of := OSError;
                     exn_message :=
                       "[Errno 13] Permission denied: 'resources.zip'" |}
                  eq_refl eq_refl)).
Defined.

(* ================================================================== *)
(** * Part III.  More of the code                                      *)
(* ================================================================== *)

(** ** The download URL *)

Lemma split_once_some (sep : ascii) (s a b : string) :
  split_once sep s = Some (a, b) ->
  s = (a ++ String sep b)%string /\ has_char sep a = false.
Proof.
  revert a b. induction s as [|c r IH]; intros a b; cbn [split_once];
    [discriminate|].
  destruct (Ascii.eqb c sep) eqn:E.
  - apply Ascii.eqb_eq in E. subst c. intros [= <- <-]. now split.
  - destruct (split_once sep r) as [[a' b']|]; [|discriminate].
    intros [= <- <-]. destruct (IH a' b' eq_refl) as [-> Hn].
    split; [reflexivity|]. cbn [has_char]. now rewrite E, Hn.
Qed.

Lemma split_once_none (sep : ascii) (s : string) :
  split_once sep s = None <-> has_char sep s = false.
Proof.
  induction s as [|c r IH]; cbn [split_once has_char]; [tauto|].
  destruct (Ascii.eqb c sep); cbn [orb].
  - split; discriminate.
  - destruct (split_once sep r) as [[a b]|].
    + split; [discriminate|]. intros H. apply IH in H. discriminate.
    + split; [intros _; now apply IH | reflexivity].
Qed.

Lemma split_once_app (sep : ascii) (a b : string) :
  has_char sep a = false -> split_once sep (a ++ String sep b) = Some (a, b).
Proof.
  induction a as [|c r IH]; cbn [append split_once has_char].
  - intros _. now rewrite Ascii.eqb_refl.
  - intros H. apply Bool.orb_false_elim in H. destruct H as [Hc Hr].
    now rewrite Hc, (IH Hr).
Qed.

(** X1.  The download URL of an asset is the repository slug as configured
    (split at its first slash and put together again), the tag and the asset
    name under the fixed host and path; a slug without a slash raises
    [ValueError], and a missing tag shows as [None]. *)
Theorem download_url_rejoins_slug (owner_repo : string) (tag : option string)
  (name : string) :
  asset_download_url owner_repo tag name
  = if has_char "/" owner_repo
    then Ok ("https://github.com/" ++ owner_repo ++ "/releases/download/"
             ++ match tag with Some t => t | None => "None" end
             ++ "/" ++ name)
    else Raise ValueError.
Proof.
  unfold asset_download_url, fmt_tag.
  destruct (split_once "/" owner_repo) as [[owner repo]|] eqn:E.
  - destruct (split_once_some _ _ E) as [-> Hn].
    assert (Hc : has_char "/" (owner ++ String "/" repo) = true).
    { clear. induction owner as [|c r IH]; cbn; [reflexivity|].
      rewrite IH. apply Bool.orb_true_r. }
    rewrite Hc. f_equal. cbn [append]. f_equal.
    rewrite !append_assoc. reflexivity.
  - apply split_once_none in E. now rewrite E.
Qed.

(** ** The manifest inside an archive *)

Lemma in_names_iff (n : string) (names : list string) :
  in_names n names = true <-> In n names.
Proof.
  unfold in_names. rewrite existsb_exists. split.
  - intros (x & Hin & E). apply String.eqb_eq in E. now subst.
  - intros Hin. exists n. split; [exact Hin | apply String.eqb_refl].
Qed.

Lemma in_names_false (n : string) (names : list string) :
  in_names n names = false <-> ~ In n names.
Proof.
  rewrite <- in_names_iff. destruct (in_names n names); split; congruence.
Qed.

Lemma top_folders_iff (t : string) (names : list string) :
  In t (top_folders names)
  <-> exists p rest, In p names /\ split_once "/" p = Some (t, rest).
Proof.
  induction names as [|p r IH]; cbn [top_folders].
  - split; [intros [] | intros (p & rest & [] & _)].
  - destruct (split_once "/" p) as [[top rest]|] eqn:E.
    + cbn [In]. rewrite IH. split.
      * intros [<- | (q & rest' & Hin & Hq)].
        -- exists p, rest. split; [now left | exact E].
        -- exists q, rest'. split; [now right | exact Hq].
      * intros (q & rest' & [<- | Hin] & Hq).
        -- left. congruence.
        -- right. now exists q, rest'.
    + rewrite IH. split.
      * intros (q & rest' & Hin & Hq). exists q, rest'. split; [now right | exact Hq].
      * intros (q & rest' & [<- | Hin] & Hq); [congruence|].
        now exists q, rest'.
Qed.

(** A set with one element: the list is not empty and holds that element
    only. *)
Lemma nodup_singleton (l : list string) (x : string) :
  nodup string_dec l = [x] <-> In x l /\ forall y, In y l -> y = x.
Proof.
  split.
  - intros E. split.
    + apply (nodup_In string_dec). rewrite E. now left.
    + intros y Hy. apply (nodup_In string_dec) in Hy. rewrite E in Hy.
      destruct Hy as [<- | []]. reflexivity.
  - intros [Hin Hall].
    pose proof (NoDup_nodup string_dec l) as Hnd.
    assert (Hx : In x (nodup string_dec l)) by now apply nodup_In.
    assert (Hy : forall y, In y (nodup string_dec l) -> y = x)
      by (intros y Hy; apply Hall; now apply nodup_In in Hy).
    destruct (nodup string_dec l) as [|a [|b t]].
    + destruct Hx.
    + f_equal. apply Hy. now left.
    + exfalso. inversion Hnd as [|? ? Hnotin _]; subst. apply Hnotin.
      rewrite (Hy a) by now left. rewrite (Hy b) by (right; now left).
      now left.
Qed.

Lemma has_char_app (c : ascii) (a b : string) :
  has_char c (a ++ b) = (has_char c a || has_char c b)%bool.
Proof.
  induction a as [|x r IH]; cbn [append has_char]; [reflexivity|].
  now rewrite IH, Bool.orb_assoc.
Qed.

(** X2.  A name chosen by [_select_manifest_name] is a member of the names it
    was given, and it is [manifest.json] or [metadata.json] at the root, or
    one of the two directly under a folder [root] that is the first path
    component of every name that holds a slash: a manifest is never taken
    from deeper inside, and never invented. *)
Theorem select_manifest_name_sound (names : list string) (n : string) :
  select_manifest_name names = Some n ->
  In n names
  /\ (n = "manifest.json" \/ n = "metadata.json"
      \/ exists root,
           has_char "/" root = false
           /\ (forall p, In p names -> has_char "/" p = true ->
                         exists rest, p = (root ++ "/" ++ rest)%string)
           /\ (n = (root ++ "/manifest.json")%string
               \/ n = (root ++ "/metadata.json")%string)).
Proof.
  unfold select_manifest_name.
  destruct (in_names "manifest.json" names) eqn:E1.
  { intros [= <-]. split; [now apply in_names_iff | now left]. }
  destruct (in_names "metadata.json" names) eqn:E2.
  { intros [= <-]. split; [now apply in_names_iff | right; now left]. }
  destruct (nodup string_dec (top_folders names)) as [|root [|b t]] eqn:En;
    try discriminate.
  apply nodup_singleton in En. destruct En as [Hroot Hall].
  assert (Hshape : has_char "/" root = false
                   /\ forall p, In p names -> has_char "/" p = true ->
                                exists rest, p = (root ++ "/" ++ rest)%string).
  { split.
    - apply top_folders_iff in Hroot. destruct Hroot as (p & rest & _ & Hs).
      now apply split_once_some in Hs.
    - intros p Hin Hc. destruct (split_once "/" p) as [[top rest]|] eqn:Es.
      + exists rest. rewrite <- (Hall top).
        * now apply split_once_some in Es.
        * apply top_folders_iff. now exists p, rest.
      + apply split_once_none in Es. congruence. }
  destruct (in_names (root ++ "/manifest.json") names) eqn:E3.
  { intros [= <-]. split; [now apply in_names_iff|].
    right; right. exists root. destruct Hshape. auto. }
  destruct (in_names (root ++ "/metadata.json") names) eqn:E4; [|discriminate].
  intros [= <-]. split; [now apply in_names_iff|].
  right; right. exists root. destruct Hshape. auto.
Qed.

Lemma select_manifest_name_sound_witness :
  select_manifest_name ["README.md"; "foo-1.0/"; "foo-1.0/metadata.json"]
  = Some "foo-1.0/metadata.json"
  /\ In "foo-1.0/metadata.json"
       ["README.md"; "foo-1.0/"; "foo-1.0/metadata.json"].
Proof.
  split; [reflexivity|].
  exact (proj1 (select_manifest_name_sound
                  ["README.md"; "foo-1.0/"; "foo-1.0/metadata.json"]
                  eq_refl)).
Defined.

(** X3.  When no manifest lies at the root and two names lie under different
    top-level folders, no manifest is found, whatever the folders hold. *)
Theorem select_manifest_name_two_roots (names : list string)
  (p1 p2 t1 t2 r1 r2 : string) :
  ~ In "manifest.json" names ->
  ~ In "metadata.json" names ->
  In p1 names -> In p2 names ->
  split_once "/" p1 = Some (t1, r1) ->
  split_once "/" p2 = Some (t2, r2) ->
  t1 <> t2 ->
  select_manifest_name names = None.
Proof.
  intros H1 H2 Hp1 Hp2 Hs1 Hs2 Hne. unfold select_manifest_name.
  apply in_names_false in H1, H2. rewrite H1, H2.
  destruct (nodup string_dec (top_folders names)) as [|root [|b t]] eqn:En;
    try reflexivity.
  apply nodup_singleton in En. destruct En as [_ Hall]. exfalso. apply Hne.
  rewrite (Hall t1), (Hall t2); [reflexivity | |];
    apply top_folders_iff; eauto.
Qed.

Lemma select_manifest_name_two_roots_witness :
  select_manifest_name ["foo/manifest.json"; "docs/index.html"] = None.
Proof.
  apply (@select_manifest_name_two_roots
           ["foo/manifest.json"; "docs/index.html"]
           "foo/manifest.json" "docs/index.html" "foo" "docs"
           "manifest.json" "index.html").
  - intros [H | [H | []]]; discriminate.
  - intros [H | [H | []]]; discriminate.
  - now left.
  - right. now left.
  - reflexivity.
  - reflexivity.
  - discriminate.
Defined.

(** X4.  When no manifest lies at the root and every name that holds a slash
    lies under the one folder [root], the manifest directly under [root] is
    found; names without a slash beside the folder do not matter, and
    [manifest.json] is preferred to [metadata.json]. *)
Theorem select_manifest_name_wrapped (names : list string) (root rest0 : string) :
  ~ In "manifest.json" names ->
  ~ In "metadata.json" names ->
  has_char "/" root = false ->
  In (root ++ "/" ++ rest0)%string names ->
  (forall p, In p names -> has_char "/" p = true ->
             exists rest, p = (root ++ "/" ++ rest)%string) ->
  select_manifest_name names
  = if in_names (root ++ "/manifest.json") names
    then Some (root ++ "/manifest.json")%string
    else if in_names (root ++ "/metadata.json") names
         then Some (root ++ "/metadata.json")%string
         else None.
Proof.
  intros H1 H2 Hroot Hin Hall. unfold select_manifest_name.
  apply in_names_false in H1, H2. rewrite H1, H2.
  assert (Hsplit : forall rest, split_once "/" (root ++ "/" ++ rest)
                                = Some (root, rest)).
  { intros rest. now apply split_once_app. }
  assert (En : nodup string_dec (top_folders names) = [root]).
  { apply nodup_singleton. split.
    - apply top_folders_iff. exists (root ++ "/" ++ rest0)%string, rest0.
      split; [exact Hin | apply Hsplit].
    - intros y Hy. apply top_folders_iff in Hy.
      destruct Hy as (p & rest & Hp & Hs).
      destruct (Hall p Hp) as (rest' & ->).
      + destruct (split_once_some _ _ Hs) as [-> _].
        rewrite has_char_app. cbn. apply Bool.orb_true_r.
      + rewrite Hsplit in Hs. congruence. }
  now rewrite En.
Qed.

Lemma select_manifest_name_wrapped_witness :
  select_manifest_name ["LICENSE"; "foo/metadata.json"; "foo/manifest.json"]
  = Some "foo/manifest.json".
Proof.
  apply (@select_manifest_name_wrapped
           ["LICENSE"; "foo/metadata.json"; "foo/manifest.json"]
           "foo" "metadata.json").
  - intros [H | [H | [H | []]]]; discriminate.
  - intros [H | [H | [H | []]]]; discriminate.
  - reflexivity.
  - right. now left.
  - intros p [<- | [<- | [<- | []]]]; try discriminate; intros _.
    + now exists "metadata.json".
    + now exists "manifest.json".
Defined.

(** ** Invariants of the scan, in general *)

Section ScanFold.
Context `{Env} (src : source) (rx : regex).
Variable Inv : list (option string * asset) -> list (string * package) -> Prop.
Hypothesis Inv_step :
  forall l st st' n n' tag a,
    Inv l (st_packages st) ->
    process_asset src rx tag a (st, n) = Ok (st', n') ->
    Inv (l ++ [(tag, a)]) (st_packages st').

Lemma fold_scan_assets (tag : option string) (assets : list asset) :
  forall l st st' n n',
    Inv l (st_packages st) ->
    scan_assets src rx tag assets (st, n) = Ok (st', n') ->
    Inv (l ++ map (pair tag) assets) (st_packages st').
Proof.
  induction assets as [|a rest IH]; intros l st st' n n' HI; cbn [scan_assets map].
  - intros [= <- <-]. now rewrite app_nil_r.
  - destruct (process_asset src rx tag a (st, n)) as [[st1 n1]|] eqn:Ep;
      cbn [bind]; [|discriminate].
    intros Hs. apply (@Inv_step _ _ _ _ _ _ _ HI) in Ep.
    specialize (IH _ _ _ _ _ Ep Hs). now rewrite <- app_assoc in IH.
Qed.

Lemma fold_scan_release (rel : release) (l : list (option string * asset))
  (st st' : scan_state) :
  Inv l (st_packages st) ->
  scan_release src rx rel st = Ok st' ->
  Inv (l ++ release_pairs rel) (st_packages st').
Proof.
  intros HI. unfold scan_release.
  destruct (scan_assets src rx (rel_tag_name rel) (rel_assets rel) _)
    as [[st1 n1]|] eqn:Es; cbn [bind]; [|discriminate].
  intros [= <-]. apply fold_scan_assets with (l := l) in Es; [|exact HI].
  now destruct (Nat.eqb n1 0).
Qed.

Lemma fold_scan_releases (rels : list release) :
  forall l st st',
    Inv l (st_packages st) ->
    scan_releases src rx rels st = Ok st' ->
    Inv (l ++ flat_map release_pairs
                (if src_only_latest src then firstn 1 rels else rels))%list
      (st_packages st').
Proof.
  induction rels as [|rel rest IH]; intros l st st' HI; cbn [scan_releases].
  - intros [= <-]. destruct (src_only_latest src); cbn; now rewrite app_nil_r.
  - destruct (scan_release src rx rel st) as [st1|] eqn:Er;
      cbn [bind]; [|discriminate].
    apply (@fold_scan_release _ _ _ _ HI) in Er.
    destruct (src_only_latest src) eqn:Eo.
    + intros [= <-]. cbn. now rewrite app_nil_r.
    + intros Hs. specialize (IH _ _ _ Er Hs).
      cbn [flat_map]. now rewrite <- app_assoc in IH.
Qed.
End ScanFold.

(** A property of the pairs seen and the packages built that holds at the
    start and that every asset keeps holds for what a completed scan
    returns. *)
Lemma build_scan_fold `{Env} (src : source)
  (Inv : list (option string * asset) -> list (string * package) -> Prop)
  (listing : result (list release)) (pkgs : list package)
  (log : list log_event) :
  Inv [] [] ->
  (forall l st st' n n' tag a,
     Inv l (st_packages st) ->
     process_asset src (source_rx src) tag a (st, n) = Ok (st', n') ->
     Inv (l ++ [(tag, a)])%list (st_packages st')) ->
  build_from_release_scan src listing = Ok (pkgs, log) ->
  exists listed pk,
    listing = Ok listed
    /\ Inv (processed src listed) pk
    /\ pkgs = map sort_versions (dict_values pk).
Proof.
  intros H0 Hstep. unfold build_from_release_scan, source_rx, source_glob in *.
  destruct (glob_rx _) as [rx|] eqn:Erx; cbn [bind]; [|discriminate].
  destruct listing as [listed|]; cbn [bind]; [|discriminate].
  match goal with
  | |- context [scan_releases src rx ?rels ?st0] =>
      destruct (scan_releases src rx rels st0) as [st'|] eqn:Es;
      cbn [bind]; [|discriminate];
      assert (HI0 : Inv [] (st_packages st0))
        by (destruct (sort_desc rel_created_at listed); exact H0)
  end.
  intros [= <- <-]. exists listed, (st_packages st').
  split; [reflexivity|]. split; [|reflexivity].
  eapply fold_scan_releases in Es; [| exact Hstep | exact HI0].
  unfold processed, scanned_releases. now destruct (src_only_latest src).
Qed.

(** ** What one asset does to the packages *)

Lemma usable_manifest_some `{Env} (rx : regex) (a : asset) (name : string)
  (data : list Byte.byte) (m : list (string * json)) (mf : string) :
  usable_manifest rx a = Some (name, data, m, mf) ->
  asset_name a = Some name
  /\ fetched rx a = true
  /\ asset_body a = Ok data
  /\ read_manifest_from_archive data = Ok (Some (JObj m, mf)).
Proof.
  unfold usable_manifest, fetched.
  destruct (asset_name a) as [nm|]; [|discriminate].
  destruct (str_falsy (Some nm) || str_falsy (asset_url a))%bool; [discriminate|].
  destruct (rx_match rx nm); cbn [negb]; [|discriminate].
  destruct (asset_body a) as [d|]; [|discriminate].
  destruct (read_manifest_from_archive d) as [[[v f]|]|] eqn:Er; try discriminate.
  destruct v; try discriminate.
  intros [= <- <- <- <-]. now rewrite Er.
Qed.

Lemma usable_manifest_none `{Env} (rx : regex) (a : asset) :
  fetched rx a = false -> usable_manifest rx a = None.
Proof.
  unfold usable_manifest, fetched.
  destruct (asset_name a) as [nm|]; [|reflexivity].
  destruct (str_falsy (Some nm) || str_falsy (asset_url a))%bool; [reflexivity|].
  destruct (rx_match rx nm); cbn; [discriminate|reflexivity].
Qed.

Lemma dict_set_in {V : Type} (k : string) (v : V) (d : list (string * V))
  (x : string * V) :
  In x (dict_set k v d) -> x = (k, v) \/ In x d.
Proof.
  induction d as [|[k' v'] r IH]; cbn [dict_set].
  - intros [<-|[]]. now left.
  - destruct (String.eqb k k') eqn:Ek.
    + apply String.eqb_eq in Ek as <-.
      intros [<-|Hx]; [now left|right; now right].
    + intros [<-|Hx]; [right; now left|].
      destruct (IH Hx) as [->|Hr]; [now left|right; now right].
Qed.

(** A new key goes to the end of a dictionary; a key already there keeps its
    place. *)
Lemma dict_set_order {V : Type} (k : string) (v : V) (d : list (string * V)) :
  map fst (dict_set k v d) = add_once (map fst d) k.
Proof.
  unfold add_once, in_names.
  induction d as [|[k' v'] r IH]; cbn [dict_set map fst existsb app];
    [reflexivity|].
  destruct (String.eqb k k') eqn:Ek; cbn [orb map fst].
  - apply String.eqb_eq in Ek as <-. reflexivity.
  - rewrite IH. now destruct (existsb (String.eqb k) (map fst r)).
Qed.

(** A merge assigns one key of [packages], and the package under it holds a
    version. *)
Lemma merge_asset_sets `{Env} (src : source) (tag : option string)
  (name sha : string) (size : Z) (m : list (string * json)) (mf : string)
  (st st' : scan_state) :
  merge_asset src tag name sha size m mf st = Ok st' ->
  exists j p',
    package_id src m = Ok j
    /\ st_packages st' = dict_set j p' (st_packages st)
    /\ pkg_versions p' <> [].
Proof.
  unfold merge_asset.
  destruct (package_id src m) as [j|]; cbn [bind]; [|discriminate].
  destruct (wire_resources j _) as [r|]; cbn [bind]; [|discriminate].
  destruct (version_str_of m tag) as [w|]; cbn [bind]; [|discriminate].
  cbn [with_resources pkg_versions].
  destruct (has_version w _) eqn:Eh.
  - intros [= <-]. eexists j, _. split; [reflexivity|]. split; [reflexivity|].
    cbn [with_resources pkg_versions]. intros Hn. rewrite Hn in Eh. discriminate.
  - destruct (make_version_entry _ _ _ _ _ _ _) as [e|]; cbn [bind];
      [|discriminate].
    intros [= <-]. eexists j, _. split; [reflexivity|]. split; [reflexivity|].
    cbn [with_versions pkg_versions]. intros Hn.
    now apply app_eq_nil in Hn as [_ Hn].
Qed.

(** An asset that the scanner gets through either leaves [packages] as it
    is, or assigns the key of its manifest's identifier. *)
Lemma process_asset_sets `{Env} (src : source) (rx : regex)
  (tag : option string) (a : asset) (st st' : scan_state) (n n' : nat) :
  process_asset src rx tag a (st, n) = Ok (st', n') ->
  (sighted_id src rx (tag, a) = None /\ st_packages st' = st_packages st)
  \/ exists j p',
       sighted_id src rx (tag, a) = Some j
       /\ st_packages st' = dict_set j p' (st_packages st)
       /\ pkg_versions p' <> [].
Proof.
  intros Hp. unfold sighted_id. cbn [snd].
  destruct (usable_manifest rx a) as [[[[name data] m] mf]|] eqn:Eu.
  - right. rewrite (@process_asset_usable _ src rx tag a st n _ _ _ _ Eu) in Hp.
    destruct (merge_asset _ _ _ _ _ _ _ _) as [st1|] eqn:Em; cbn [bind] in Hp;
      [|discriminate].
    injection Hp as <- <-.
    apply merge_asset_sets in Em as (j & p' & Hj & Hs & Hv).
    exists j, p'. rewrite Hj. cbn [st_packages add_log] in Hs. tauto.
  - left. split; [reflexivity|].
    eapply process_asset_unusable; eassumption.
Qed.

(** ** Every package that a scan returns has a version *)

(** X5.  No package that a release scan returns is without versions: the
    package is created by the asset that brings its first version, and an
    asset that fails after creating it fails the scan. *)
Theorem scan_packages_have_versions `{Env} (src : source)
  (listing : result (list release)) (pkgs : list package)
  (log : list log_event) (p : package) :
  build_from_release_scan src listing = Ok (pkgs, log) ->
  In p pkgs ->
  pkg_versions p <> [].
Proof.
  intros Hb Hin.
  apply (build_scan_fold src
           (fun _ pk => forall i q, In (i, q) pk -> pkg_versions q <> [])) in Hb.
  - destruct Hb as (listed & pk & _ & Hinv & ->).
    unfold dict_values in Hin. rewrite map_map in Hin.
    apply in_map_iff in Hin as ([i q] & <- & Hq). cbn [snd].
    specialize (Hinv i q Hq).
    unfold sort_versions. cbn [with_versions pkg_versions].
    intros Hn. apply Hinv.
    apply Permutation_nil. rewrite <- Hn. symmetry. apply sort_desc_perm.
  - intros i q [].
  - intros l st st' n n' tag a Hinv Hp i q Hq.
    apply process_asset_sets in Hp as [[_ Hs]|(j & p' & _ & Hs & Hv)];
      rewrite Hs in Hq.
    + eapply Hinv; eassumption.
    + apply dict_set_in in Hq as [[= -> ->]|Hq]; [exact Hv|].
      eapply Hinv; eassumption.
Qed.

Lemma scan_packages_have_versions_witness :
  exists pkgs log,
    @build_from_release_scan example_env example_source example_listing
    = Ok (pkgs, log)
    /\ pkgs <> []
    /\ forall p, In p pkgs -> pkg_versions p <> [].
Proof.
  destruct (@build_from_release_scan example_env example_source
              example_listing) as [[pkgs log]|e] eqn:E.
  - exists pkgs, log. split; [reflexivity|]. split.
    + vm_compute in E. injection E as <- _. discriminate.
    + intros p Hp.
      exact (@scan_packages_have_versions example_env example_source
               example_listing pkgs log p E Hp).
  - vm_compute in E. discriminate.
Defined.

(** ** The order of the packages *)

Lemma ids_in_order_snoc `{Env} (src : source) (rx : regex)
  (l : list (option string * asset)) (x : option string * asset) :
  ids_in_order src rx (l ++ [x])
  = match sighted_id src rx x with
    | Some j => add_once (ids_in_order src rx l) j
    | None => ids_in_order src rx l
    end.
Proof. unfold ids_in_order. now rewrite fold_left_app. Qed.

(** X6.  The packages that a release scan returns stand in the order in
    which their identifiers were first seen, releases by descending creation
    time and the assets of a release as listed. *)
Theorem scan_packages_in_order_seen `{Env} (src : source)
  (listing : result (list release)) (pkgs : list package)
  (log : list log_event) :
  build_from_release_scan src listing = Ok (pkgs, log) ->
  exists listed,
    listing = Ok listed
    /\ map pkg_identifier pkgs
       = ids_in_order src (source_rx src) (processed src listed).
Proof.
  intros Hb.
  apply (build_scan_fold src
           (fun l pk => scan_inv src (source_rx src) l pk
                        /\ map fst pk = ids_in_order src (source_rx src) l))
    in Hb.
  - destruct Hb as (listed & pk & Hl & [Hinv Ho] & ->).
    exists listed. split; [exact Hl|].
    rewrite map_identifier_keys; [exact Ho|].
    intros i p Hip. apply (inv_ident Hinv).
    apply dict_in_get; [apply (inv_keys Hinv)|exact Hip].
  - split; [apply scan_inv_nil|reflexivity].
  - intros l st st' n n' tag a [Hinv Ho] Hp. split.
    + eapply process_asset_inv; eassumption.
    + rewrite ids_in_order_snoc.
      apply process_asset_sets in Hp as [[-> ->]|(j & p' & -> & -> & _)].
      * exact Ho.
      * now rewrite dict_set_order, Ho.
Qed.

Lemma scan_packages_in_order_seen_witness :
  exists pkgs log,
    @build_from_release_scan example_env example_source example_listing
    = Ok (pkgs, log)
    /\ map pkg_identifier pkgs = ["com.example.foo"].
Proof.
  destruct (@build_from_release_scan example_env example_source
              example_listing) as [[pkgs log]|e] eqn:E.
  - exists pkgs, log. split; [reflexivity|].
    destruct (@scan_packages_in_order_seen example_env example_source
                example_listing pkgs log E) as (listed & Hl & ->).
    unfold example_listing in Hl. injection Hl as <-.
    vm_compute. reflexivity.
  - vm_compute in E. discriminate.
Defined.

(** ** Where a version entry comes from *)

Lemma first_entry_in `{Env} (src : source) (rx : regex) (i v : string)
  (l : list (option string * asset)) (r : result version_entry) :
  first_entry src rx i v l = Some r ->
  exists tag a name data m mf,
    In (tag, a) l
    /\ usable_manifest rx a = Some (name, data, m, mf)
    /\ package_id src m = Ok i
    /\ version_str_of m tag = Ok v
    /\ r = make_version_entry (src_repo src) tag name (sha256_bytes data)
             (Z.of_nat (List.length data)) m v.
Proof.
  induction l as [|[tag a] rest IH]; cbn [first_entry]; [discriminate|].
  assert (Hrest : first_entry src rx i v rest = Some r ->
                  exists tag0 a0 name data m mf,
                    In (tag0, a0) ((tag, a) :: rest)
                    /\ usable_manifest rx a0 = Some (name, data, m, mf)
                    /\ package_id src m = Ok i
                    /\ version_str_of m tag0 = Ok v
                    /\ r = make_version_entry (src_repo src) tag0 name
                             (sha256_bytes data) (Z.of_nat (List.length data))
                             m v).
  { intros Hr. destruct (IH Hr) as (t & b & nm & d & m & mf & Hin & Hrest).
    exists t, b, nm, d, m, mf. split; [now right|exact Hrest]. }
  destruct (usable_manifest rx a) as [[[[name data] m] mf]|] eqn:Eu;
    [|exact Hrest].
  destruct (package_id src m) as [j|] eqn:Ej; [|exact Hrest].
  destruct (version_str_of m tag) as [w|] eqn:Ew; [|exact Hrest].
  destruct (String.eqb j i && String.eqb w v)%bool eqn:Eb; [|exact Hrest].
  apply andb_prop in Eb as [Ei Ev].
  apply String.eqb_eq in Ei as ->. apply String.eqb_eq in Ev as ->.
  intros [= <-]. exists tag, a, name, data, m, mf.
  split; [now left|]. repeat split; assumption.
Qed.

(** X7.  Every version entry that a release scan returns was built from an
    asset of a scanned release whose name passes the glob and whose download
    succeeded: the digest and the size are those of the bytes downloaded,
    the version string is the one computed from that asset's manifest and
    release tag, and the download URL is composed from the repository slug,
    the release tag and the asset's name (the URL that the hosting API gave
    for the asset is used for the download only). *)
Theorem scan_entry_from_asset `{Env} (src : source)
  (listing : result (list release)) (pkgs : list package)
  (log : list log_event) (p : package) (e : version_entry) :
  build_from_release_scan src listing = Ok (pkgs, log) ->
  In p pkgs -> In e (pkg_versions p) ->
  exists listed tag a name data m mf,
    listing = Ok listed
    /\ In (tag, a) (processed src listed)
    /\ asset_name a = Some name
    /\ fetched (source_rx src) a = true
    /\ asset_body a = Ok data
    /\ read_manifest_from_archive data = Ok (Some (JObj m, mf))
    /\ package_id src m = Ok (pkg_identifier p)
    /\ version_str_of m tag = Ok (ve_version e)
    /\ ve_download_sha256 e = sha256_bytes data
    /\ ve_download_size e = Z.of_nat (List.length data)
    /\ asset_download_url (src_repo src) tag name = Ok (ve_download_url e).
Proof.
  intros Hb Hp He.
  apply build_scan_inv in Hb as (listed & pk & Hl & Hinv & ->).
  apply in_sorted_packages in Hp as (i & p0 & Hget & ->);
    [|apply (inv_keys Hinv)].
  apply (proj1 (in_sort_versions _ _)) in He.
  pose proof (inv_ident Hinv _ Hget) as Hi.
  pose proof (inv_sound Hinv _ _ Hget He) as Hf.
  apply first_entry_in in Hf
    as (tag & a & name & data & m & mf & Hin & Hu & Hj & Hw & Hr).
  apply usable_manifest_some in Hu as (Hn & Hfe & Hbody & Hread).
  rewrite make_version_entry_eq in Hr.
  destruct (asset_download_url (src_repo src) tag name) as [url|] eqn:Eurl;
    cbn [bind] in Hr; [|discriminate].
  injection Hr as ->.
  exists listed, tag, a, name, data, m, mf.
  unfold sort_versions. cbn [with_versions pkg_identifier]. rewrite Hi.
  repeat split; assumption || reflexivity.
Qed.

Lemma scan_entry_from_asset_witness :
  exists pkgs log p e,
    @build_from_release_scan example_env example_source example_listing
    = Ok (pkgs, log)
    /\ In p pkgs /\ In e (pkg_versions p)
    /\ exists tag name,
         In tag [Some "v2"]
         /\ In name ["a.zip"; "b.zip"; "c.zip"; "d.zip"; "notes.txt"]
         /\ asset_download_url "example/foo" tag name = Ok (ve_download_url e).
Proof.
  destruct (@build_from_release_scan example_env example_source
              example_listing) as [[pkgs log]|e] eqn:E.
  - destruct pkgs as [|p pkgs]; [vm_compute in E; discriminate|].
    destruct (pkg_versions p) as [|e vs] eqn:Ev.
    { vm_compute in E. injection E as <- _ _. discriminate. }
    exists (p :: pkgs), log, p, e. split; [reflexivity|].
    split; [now left|]. split; [rewrite Ev; now left|].
    destruct (@scan_entry_from_asset example_env example_source
                example_listing (p :: pkgs) log p e E (or_introl eq_refl))
      as (listed & tag & a & name & data & m & mf & Hl & Hin & Hn & _ & _
          & _ & _ & _ & _ & _ & Hurl).
    { rewrite Ev. now left. }
    exists tag, name. unfold example_listing in Hl. injection Hl as <-.
    split; [|split; [|exact Hurl]].
    + vm_compute in Hin.
      destruct Hin as [[= <- _]|[[= <- _]|[[= <- _]|[[= <- _]|[[= <- _]|[]]]]]];
        now left.
    + vm_compute in Hin.
      destruct Hin as [[= _ <-]|[[= _ <-]|[[= _ <-]|[[= _ <-]|[[= _ <-]|[]]]]]];
        vm_compute in Hn; injection Hn as <-; cbn; tauto.
  - vm_compute in E. discriminate.
Defined.

(** ** The release that [only_latest] keeps *)

(** The head of the descending stable sort: the first of the elements with
    the greatest key. *)
Lemma sort_desc_head {A : Type} (key : A -> string) (l : list A) (x : A)
  (rest : list A) :
  sort_desc key l = x :: rest ->
  exists before after,
    l = (before ++ x :: after)%list
    /\ (forall y, In y before -> String.ltb (key y) (key x) = true)
    /\ (forall y, In y l -> str_ge (key x) (key y)).
Proof.
  revert x rest. induction l as [|a l IH]; intros x rest; cbn [sort_desc];
    [discriminate|].
  destruct (sort_desc key l) as [|y s] eqn:Es; cbn [insert_desc].
  - intros [= <- <-].
    assert (l = []) as ->.
    { apply Permutation_nil. rewrite <- Es. symmetry. apply sort_desc_perm. }
    exists [], []. split; [reflexivity|]. split; [intros y []|].
    intros y [<-|[]]. apply str_ge_refl.
  - destruct (IH y s eq_refl) as (before & after & Hl & Hlt & Hge).
    destruct (String.ltb (key a) (key y)) eqn:Elt.
    + intros [= <- <-]. exists (a :: before), after.
      split; [cbn; now rewrite Hl|]. split.
      * intros z [<-|Hz]; [exact Elt|now apply Hlt].
      * intros z [<-|Hz]; [|now apply Hge].
        unfold str_ge. destruct (String.ltb (key y) (key a)) eqn:E2;
          [|reflexivity].
        pose proof (str_lt_trans _ _ _ E2 Elt) as Hx.
        now rewrite str_lt_irrefl in Hx.
    + intros [= <- <-]. exists [], l.
      split; [reflexivity|]. split; [intros z []|].
      intros z [<-|Hz]; [apply str_ge_refl|].
      eapply str_ge_trans; [exact Elt|now apply Hge].
Qed.

(** X8.  With [only_latest] the scan is the scan of one release alone, the
    first in the listing among those with the greatest creation time: the
    result and the log are those of a listing that holds just that
    release. *)
Theorem only_latest_scans_newest `{Env} (src : source)
  (listed : list release) (r : release) (rest : list release) :
  src_only_latest src = true ->
  sort_desc rel_created_at listed = r :: rest ->
  build_from_release_scan src (Ok listed)
  = build_from_release_scan src (Ok [r])
  /\ exists before after,
       listed = (before ++ r :: after)%list
       /\ (forall r', In r' before ->
             String.ltb (rel_created_at r') (rel_created_at r) = true)
       /\ (forall r', In r' listed ->
             str_ge (rel_created_at r) (rel_created_at r')).
Proof.
  intros Ho Hs. split; [|now apply sort_desc_head with (rest := rest)].
  unfold build_from_release_scan.
  destruct (glob_rx _) as [rx|]; cbn [bind]; [|reflexivity].
  rewrite Hs. cbn [sort_desc insert_desc scan_releases].
  destruct (scan_release src rx r _) as [st'|]; cbn [bind]; [|reflexivity].
  now rewrite Ho.
Qed.

Lemma only_latest_scans_newest_witness :
  let src := {| src_repo := "example/foo"; src_asset_glob := None;
                src_only_latest := true; src_id := None |} in
  let old := {| rel_tag_name := Some "v1";
                rel_created_at := "2023-01-01T00:00:00Z";
                rel_assets := [example_asset "a.zip" Byte.x01] |} in
  @build_from_release_scan example_env src (Ok [old; example_release; old])
  = @build_from_release_scan example_env src (Ok [example_release]).
Proof.
  intros src old.
  exact (proj1 (@only_latest_scans_newest example_env src
                  [old; example_release; old] example_release [old; old]
                  eq_refl eq_refl)).
Defined.

(** ** What fails a scan *)

(** An asset that passes the name, URL and glob tests and that the scanner
    gets through was downloaded, its archive was read, and a manifest object
    found in it gave an identifier and a version string. *)
Lemma process_asset_fetched `{Env} (src : source) (rx : regex)
  (tag : option string) (a : asset) (st st' : scan_state) (n n' : nat) :
  fetched rx a = true ->
  process_asset src rx tag a (st, n) = Ok (st', n') ->
  exists data found,
    asset_body a = Ok data
    /\ read_manifest_from_archive data = Ok found
    /\ forall m mf, found = Some (JObj m, mf) ->
         exists j w, package_id src m = Ok j /\ version_str_of m tag = Ok w.
Proof.
  unfold fetched, process_asset.
  destruct (asset_name a) as [name|]; [|discriminate].
  destruct (str_falsy (Some name) || str_falsy (asset_url a))%bool;
    cbn [negb andb]; [discriminate|].
  intros ->. cbn [negb].
  destruct (asset_body a) as [data|]; cbn [bind]; [|discriminate].
  destruct (read_manifest_from_archive data) as [found|] eqn:Er; cbn [bind];
    [|discriminate].
  intros Hp. exists data, found. split; [reflexivity|]. split; [exact Er|].
  intros m mf ->.
  destruct (merge_asset _ _ _ _ _ _ _ _) as [st1|] eqn:Em; cbn [bind] in Hp;
    [|discriminate].
  apply merge_asset_versions in Em as (j & w & p & Hj & Hw & _).
  now exists j, w.
Qed.

Lemma scan_ok_fetched `{Env} (src : source) (listing : result (list release))
  (pkgs : list package) (log : list log_event) :
  build_from_release_scan src listing = Ok (pkgs, log) ->
  exists listed,
    listing = Ok listed
    /\ forall tag a,
         In (tag, a) (processed src listed) ->
         fetched (source_rx src) a = true ->
         exists data found,
           asset_body a = Ok data
           /\ read_manifest_from_archive data = Ok found
           /\ forall m mf, found = Some (JObj m, mf) ->
                exists j w,
                  package_id src m = Ok j /\ version_str_of m tag = Ok w.
Proof.
  intros Hb.
  apply (build_scan_fold src
           (fun l _ =>
              forall tag a,
                In (tag, a) l -> fetched (source_rx src) a = true ->
                exists data found,
                  asset_body a = Ok data
                  /\ read_manifest_from_archive data = Ok found
                  /\ forall m mf, found = Some (JObj m, mf) ->
                       exists j w,
                         package_id src m = Ok j
                         /\ version_str_of m tag = Ok w)) in Hb.
  - destruct Hb as (listed & pk & Hl & Hinv & _). now exists listed.
  - intros tag a [].
  - intros l st st' n n' tag a Hinv Hp tag' a' Hin Hf.
    apply in_app_or in Hin as [Hin|[[= <- <-]|[]]].
    + now apply Hinv.
    + eapply process_asset_fetched; eassumption.
Qed.

(** X9.  A download that fails fails the scan: when the download of an asset
    of a scanned release that passes the name, URL and glob tests raises,
    the scan raises and returns no package at all, whatever the other
    assets hold. *)
Theorem failed_download_fails_scan `{Env} (src : source)
  (listed : list release) (tag : option string) (a : asset) (e : exn_class) :
  In (tag, a) (processed src listed) ->
  fetched (source_rx src) a = true ->
  asset_body a = Raise e ->
  exists e', build_from_release_scan src (Ok listed) = Raise e'.
Proof.
  intros Hin Hf Hbody.
  destruct (build_from_release_scan src (Ok listed)) as [[pkgs log]|e'] eqn:Eb;
    [|now exists e'].
  apply scan_ok_fetched in Eb as (listed' & [= <-] & Hall).
  destruct (Hall tag a Hin Hf) as (data & _ & Hd & _).
  rewrite Hbody in Hd. discriminate.
Qed.

Lemma failed_download_fails_scan_witness :
  let broken := {| asset_name := Some "e.zip";
                   asset_url := Some "https://example.invalid/e.zip";
                   asset_body := Raise OSError |} in
  let rel := {| rel_tag_name := Some "v3";
                rel_created_at := "2024-06-01T00:00:00Z";
                rel_assets := [example_asset "a.zip" Byte.x01; broken] |} in
  exists e',
    @build_from_release_scan example_env example_source
      (Ok [example_release; rel]) = Raise e'.
Proof.
  intros broken rel.
  apply (@failed_download_fails_scan example_env example_source
           [example_release; rel] (Some "v3") broken OSError).
  - vm_compute. tauto.
  - vm_compute. reflexivity.
  - reflexivity.
Defined.

(** X10.  A manifest whose version is not a string fails the scan: when the
    manifest found in a downloaded asset declares a truthy version that is
    not a string (a number, say), the scan raises and returns no package at
    all. *)
Theorem unusable_version_fails_scan `{Env} (src : source)
  (listed : list release) (tag : option string) (a : asset)
  (name : string) (data : list Byte.byte) (m : list (string * json))
  (mf : string) :
  In (tag, a) (processed src listed) ->
  usable_manifest (source_rx src) a = Some (name, data, m, mf) ->
  truthy (py_get m "version") = true ->
  (forall s, py_get m "version" <> JStr s) ->
  exists e', build_from_release_scan src (Ok listed) = Raise e'.
Proof.
  intros Hin Hu Ht Hns.
  destruct (build_from_release_scan src (Ok listed)) as [[pkgs log]|e'] eqn:Eb;
    [|now exists e'].
  apply scan_ok_fetched in Eb as (listed' & [= <-] & Hall).
  apply usable_manifest_some in Hu as (_ & Hf & Hbody & Hread).
  destruct (Hall tag a Hin Hf) as (data' & found & Hd & Hr & Hm).
  rewrite Hbody in Hd. injection Hd as <-.
  rewrite Hread in Hr. injection Hr as <-.
  destruct (Hm m mf eq_refl) as (j & w & _ & Hw).
  unfold version_str_of in Hw. rewrite Ht in Hw.
  destruct (py_get m "version"); try discriminate.
  now destruct (Hns s).
Qed.

Lemma unusable_version_fails_scan_witness :
  exists e',
    @build_from_release_scan archive_env example_source
      (Ok [text_release "v1" "2024-01-01T00:00:00Z"
             [text_asset "a.zip" doc_foo];
           text_release "v2" "2024-02-01T00:00:00Z"
             [text_asset "b.zip" doc_numbered]]) = Raise e'.
Proof.
  apply (@unusable_version_fails_scan archive_env example_source _
           (Some "v2") (text_asset "b.zip" doc_numbered) "b.zip"
           (list_byte_of_string doc_numbered)
           [("identifier", JStr "com.example.foo"); ("version", JInt 2)]
           "pkg/manifest.json").
  - vm_compute. tauto.
  - vm_compute. reflexivity.
  - reflexivity.
  - intros s. vm_compute. discriminate.
Defined.

(** ** One release with one asset *)

Lemma source_rx_match (src : source) (name : string) :
  has_newline name = false ->
  rx_match (source_rx src) name = glob_match (source_glob src) name.
Proof.
  intros Hn. unfold source_rx. rewrite glob_rx_eq.
  unfold rx_match. cbn [rx_run andb]. now apply rx_run_glob.
Qed.

Lemma asset_download_url_ok (owner_repo : string) (tag : option string)
  (name : string) :
  has_char "/" owner_repo = true ->
  exists url, asset_download_url owner_repo tag name = Ok url.
Proof.
  intros Hc. unfold asset_download_url.
  destruct (split_once "/" owner_repo) as [[owner repo]|] eqn:E.
  - eexists. reflexivity.
  - apply split_once_none in E. rewrite E in Hc. discriminate.
Qed.

(** X11.  Take a listing of one release with one asset such that: the
    asset has a non-empty name without line break that matches the glob, and
    a non-empty URL; its download succeeds; its archive holds a manifest
    object with a non-empty identifier and a non-empty version, both
    strings; the repository slug of the source holds a slash; and the
    wiring of the local icon and screenshot into the resources of the
    manifest succeeds.  Then the scan gives one package under that
    identifier, whose display fields are read from the manifest key by key
    (with the defaults of the code), whose resources are the wired ones, and
    which has exactly one version entry, for the declared version without
    surrounding whitespace, with the digest and the size of the download;
    the log tells the scan, the release, the download and the entry. *)
Theorem single_asset_scan `{Env} (src : source) (rel : release) (a : asset)
  (name url : string) (data : list Byte.byte) (m : list (string * json))
  (mf i v : string) (r : json) :
  rel_assets rel = [a] ->
  asset_name a = Some name -> name <> EmptyString ->
  asset_url a = Some url -> url <> EmptyString ->
  has_newline name = false ->
  glob_match (source_glob src) name = true ->
  asset_body a = Ok data ->
  read_manifest_from_archive data = Ok (Some (JObj m, mf)) ->
  py_get m "identifier" = JStr i -> i <> EmptyString ->
  py_get m "version" = JStr v -> v <> EmptyString ->
  has_char "/" (src_repo src) = true ->
  wire_resources i (py_get_default m "resources" (JObj [])) = Ok r ->
  exists p e,
    build_from_release_scan src (Ok [rel])
    = Ok ([p],
          [LogScanning (src_repo src) (src_only_latest src) (source_glob src);
           LogRelease (rel_tag_name rel) 1;
           LogFetch name;
           LogOK mf (str_strip v)])
    /\ pkg_identifier p = i
    /\ pkg_name p = match dict_get "name" m with Some n => n | None => JStr i end
    /\ pkg_type p
       = match dict_get "type" m with Some t => t | None => JStr "library" end
    /\ pkg_description p
       = match dict_get "description" m with
         | Some d => d
         | None => JStr (i ++ " package")
         end
    /\ pkg_description_full p
       = match dict_get "description_full" m with
         | Some d => if truthy d then Some d else None
         | None => None
         end
    /\ pkg_license p
       = match dict_get "license" m with
         | Some l => l
         | None => JStr EmptyString
         end
    /\ pkg_author p
       = match dict_get "author" m with
         | Some (JObj kv) => Some (JObj kv)
         | _ => None
         end
    /\ pkg_maintainer p
       = match dict_get "maintainer" m with
         | Some (JObj kv) => Some (JObj kv)
         | _ => None
         end
    /\ display p = display (new_package i m)
    /\ pkg_resources p = r
    /\ pkg_versions p = [e]
    /\ ve_version e = str_strip v
    /\ ve_download_sha256 e = sha256_bytes data
    /\ ve_download_size e = Z.of_nat (List.length data).
Proof.
  intros Has Hn Hne Hu Hue Hnl Hg Hb Hr Hi Hie Hv Hve Hslash Hw.
  destruct (@asset_download_url_ok _ (rel_tag_name rel) name Hslash) as [dl Hdl].
  assert (Hus : usable_manifest (source_rx src) a = Some (name, data, m, mf)).
  { unfold usable_manifest. rewrite Hn, Hu. cbn [str_falsy].
    apply String.eqb_neq in Hne, Hue. rewrite Hne, Hue. cbn [orb].
    rewrite source_rx_match, Hg by exact Hnl. cbn [negb].
    now rewrite Hb, Hr. }
  assert (Hti : truthy (JStr i) = true).
  { cbn. apply String.eqb_neq in Hie. now rewrite Hie. }
  assert (Htv : truthy (JStr v) = true).
  { cbn. apply String.eqb_neq in Hve. now rewrite Hve. }
  exists (with_versions (with_resources (new_package i m) r)
            [entry_of dl (sha256_bytes data) (Z.of_nat (List.length data)) m
               (str_strip v)]).
  eexists. split; [|split; [reflexivity|]].
  2:{ pose proof (@display_fields
                    (with_versions (with_resources (new_package i m) r)
                       [entry_of dl (sha256_bytes data)
                          (Z.of_nat (List.length data)) m (str_strip v)])
                    i m eq_refl) as (F1 & F2 & F3 & F4 & F5 & F6 & F7).
      repeat (split; [assumption|]). repeat split; reflexivity. }
  unfold build_from_release_scan.
  fold (source_glob src). rewrite glob_rx_eq. cbn [bind].
  cbn [sort_desc insert_desc scan_releases].
  unfold scan_release. rewrite Has. cbn [scan_assets List.length].
  pose proof (glob_rx_eq (source_glob src)) as Hrx.
  assert (Hsrx : source_rx src
                 = (RxBol :: glob_items (source_glob src) ++ [RxEol])%list)
    by (unfold source_rx; now rewrite Hrx).
  rewrite <- Hsrx.
  rewrite (@process_asset_usable _ src (source_rx src) (rel_tag_name rel) a
             _ 0 _ _ _ _ Hus).
  unfold merge_asset, package_id, version_str_of.
  rewrite Hi, Hti, Hv, Htv. cbn [bind st_packages add_log dict_get].
  cbn [new_package pkg_resources]. rewrite Hw. cbn [bind].
  cbn [with_resources pkg_versions has_version existsb].
  rewrite make_version_entry_eq, Hdl. cbn [bind].
  cbn [Nat.eqb st_packages st_log dict_set dict_values map snd app].
  destruct (src_only_latest src); reflexivity.
Qed.

Lemma single_asset_scan_witness :
  exists p e log,
    @build_from_release_scan archive_env example_source
      (Ok [text_release "v9" "2024-01-01T00:00:00Z"
             [text_asset "foo.zip" doc_foo]]) = Ok ([p], log)
    /\ pkg_identifier p = "com.example.foo"
    /\ pkg_versions p = [e]
    /\ ve_version e = "1.0.0".
Proof.
  destruct (@single_asset_scan archive_env example_source
              (text_release "v9" "2024-01-01T00:00:00Z"
                 [text_asset "foo.zip" doc_foo])
              (text_asset "foo.zip" doc_foo) "foo.zip"
              "https://example.invalid/foo.zip"
              (list_byte_of_string doc_foo)
              [("identifier", JStr "com.example.foo");
               ("version", JStr "1.0.0")]
              "pkg/manifest.json" "com.example.foo" "1.0.0"
              (JObj [("icon", JStr "com.example.foo/icon.png")]))
    as (p & e & Hb & Hi & _ & _ & _ & _ & _ & _ & _ & _ & _ & Hv & He & _);
    try reflexivity; try discriminate.
  exists p, e. eexists. split; [exact Hb|].
  split; [exact Hi|]. split; [exact Hv|exact He].
Defined.

(** ** The loop of [main] over the sources *)

Lemma collect_packages_acc `{Env} (sources : list configured_source) :
  forall (acc : list json) (pr : list main_event),
    collect_packages sources acc pr
    = (r <- collect_packages sources [] [] ;;
       Ok ((acc ++ fst r)%list, (pr ++ snd r)%list)).
Proof.
  induction sources as [|s rest IH]; intros acc pr; cbn [collect_packages].
  - cbn [bind fst snd]. now rewrite !app_nil_r.
  - destruct (source_packages s) as [[pk ev]|]; cbn [bind fst snd app];
      [|reflexivity].
    rewrite (IH (acc ++ pk)%list (pr ++ ev)%list), (IH pk ev).
    destruct (collect_packages rest [] []) as [[pk' ev']|]; cbn [bind fst snd];
      [|reflexivity].
    now rewrite !app_assoc.
Qed.

Lemma collect_packages_each `{Env} (sources : list configured_source)
  (pk : list json) (ev : list main_event) :
  collect_packages sources [] [] = Ok (pk, ev)
  <-> exists rs,
        Forall2 (fun s r => source_packages s = Ok r) sources rs
        /\ pk = List.concat (map fst rs) /\ ev = List.concat (map snd rs).
Proof.
  revert pk ev. induction sources as [|s rest IH]; intros pk ev;
    cbn [collect_packages].
  - split.
    + intros [= <- <-]. exists []. repeat split. constructor.
    + intros (rs & HF & -> & ->). inversion HF. reflexivity.
  - split.
    + destruct (source_packages s) as [[pk1 ev1]|] eqn:Es;
        cbn [bind fst snd app]; [|discriminate].
      rewrite collect_packages_acc.
      destruct (collect_packages rest [] []) as [[pk2 ev2]|] eqn:Er;
        cbn [bind fst snd]; [|discriminate].
      intros [= <- <-].
      destruct (proj1 (IH pk2 ev2) eq_refl) as (rs & HF & -> & ->).
      exists ((pk1, ev1) :: rs). split; [now constructor|]. now split.
    + intros (rs & HF & -> & ->).
      inversion HF as [|s' [pk1 ev1] rest' rs' Hs Hrest]; subst.
      rewrite Hs. cbn [bind fst snd app]. rewrite collect_packages_acc.
      rewrite (proj2 (IH (List.concat (map fst rs'))
                         (List.concat (map snd rs')))).
      * reflexivity.
      * exists rs'. now split.
Qed.

(** X12.  The loop of [main] appends: what it collects from a list of
    sources followed by another is what it collects from the first list
    followed by what it collects from the second, packages and printed
    lines alike; nothing of an earlier source is looked at, merged or
    dropped when a later one is added. *)
Theorem main_appends_sources `{Env} (first second : list configured_source) :
  collect_packages (first ++ second) [] []
  = (r1 <- collect_packages first [] [] ;;
     r2 <- collect_packages second [] [] ;;
     Ok ((fst r1 ++ fst r2)%list, (snd r1 ++ snd r2)%list)).
Proof.
  induction first as [|s rest IH]; cbn [app collect_packages].
  - cbn [bind fst snd app].
    now destruct (collect_packages second [] []) as [[pk ev]|].
  - destruct (source_packages s) as [[pk ev]|]; cbn [bind fst snd app];
      [|reflexivity].
    rewrite (collect_packages_acc (rest ++ second) pk ev), IH.
    rewrite (collect_packages_acc rest pk ev).
    destruct (collect_packages rest [] []) as [[pk1 ev1]|]; cbn [bind fst snd];
      [|reflexivity].
    destruct (collect_packages second [] []) as [[pk2 ev2]|];
      cbn [bind fst snd]; [|reflexivity].
    now rewrite !app_assoc.
Qed.

(** ** [main] as a whole *)

Lemma write_outputs_files `{Env} (repo_name maintainer : json)
  (all_packages : list json) (w : world) :
  exists d,
    write_outputs repo_name maintainer all_packages w
    = Ok (dict_set "repository.json" (utf8_encode (json_dumps d))
            (dict_set "packages.json" (index_bytes all_packages) (files w)),
          d)
    /\ d = repository_descriptor repo_name maintainer
             (index_bytes all_packages) w.
Proof.
  unfold write_outputs. rewrite dict_get_set_same. eexists. now split.
Qed.

(** X13.  A run of [main] that ends well has got a result from every
    source, in the order of the configuration; [packages.json] holds the
    serialization of all their packages one after the other, the number
    printed at the end is the number of these entries, [repository.json]
    holds the serialization of the descriptor, and no other file is
    changed. *)
Theorem main_writes_what_it_collects `{Env} (cfg_name cfg_maintainer : option json)
  (sources : list configured_source) (w : world)
  (fs : list (string * list Byte.byte)) (d : json) (ev : list main_event)
  (n : nat) :
  index_main cfg_name cfg_maintainer sources w = Ok (fs, d, ev, n) ->
  exists rs,
    Forall2 (fun s r => source_packages s = Ok r) sources rs
    /\ ev = List.concat (map snd rs)
    /\ n = List.length (List.concat (map fst rs))
    /\ dict_get "packages.json" fs = Some (index_bytes (List.concat (map fst rs)))
    /\ dict_get "repository.json" fs = Some (utf8_encode (json_dumps d))
    /\ forall f, f <> "packages.json" -> f <> "repository.json" ->
         dict_get f fs = dict_get f (files w).
Proof.
  unfold index_main.
  destruct (collect_packages sources [] []) as [[pk ev']|] eqn:Ec;
    cbn [bind fst snd]; [|discriminate].
  match goal with
  | |- context [write_outputs ?nm ?mt pk w] =>
      destruct (write_outputs_files nm mt pk w) as (d' & -> & _)
  end.
  cbn [bind fst snd]. intros [= <- <- <- <-].
  apply collect_packages_each in Ec as (rs & HF & -> & ->).
  exists rs. split; [exact HF|]. split; [reflexivity|]. split; [reflexivity|].
  split; [|split].
  - rewrite dict_get_set_other by discriminate. apply dict_get_set_same.
  - apply dict_get_set_same.
  - intros f H1 H2. now rewrite !dict_get_set_other by assumption.
Qed.

(** X14.  A source that fails fails [main]: when the scan of a release
    source or the import of a mirror raises, [main] raises, whatever the
    other sources give, and it does so in the loop, before either output
    file is opened. *)
Theorem failed_source_fails_main `{Env} (cfg_name cfg_maintainer : option json)
  (sources : list configured_source) (w : world) (s : configured_source)
  (e : exn_class) :
  In s sources ->
  source_packages s = Raise e ->
  exists e',
    collect_packages sources [] [] = Raise e'
    /\ index_main cfg_name cfg_maintainer sources w = Raise e'.
Proof.
  intros Hin Hs. unfold index_main.
  destruct (collect_packages sources [] []) as [[pk ev]|e'] eqn:Ec;
    cbn [bind]; [|now exists e'].
  apply collect_packages_each in Ec as (rs & HF & _).
  exfalso. clear - Hin Hs HF.
  induction HF as [|s' r' l l' Hh _ IH]; [destruct Hin|].
  destruct Hin as [->|Hin]; [|now apply IH].
  rewrite Hs in Hh. discriminate.
Qed.

Lemma main_writes_what_it_collects_witness :
  exists fs d ev n,
    @index_main example_env None None example_sources example_world
    = Ok (fs, d, ev, n)
    /\ dict_get "resources.zip" fs = Some [Byte.x50; Byte.x4b]
    /\ dict_get "repository.json" fs
       = Some (utf8_encode (@json_dumps example_env d)).
Proof.
  destruct (@index_main example_env None None example_sources example_world)
    as [[[[fs d] ev] n]|e] eqn:E.
  - exists fs, d, ev, n. split; [reflexivity|].
    destruct (@main_writes_what_it_collects example_env None None
                example_sources example_world fs d ev n E)
      as (rs & _ & _ & _ & _ & Hd & Hrest).
    split; [|exact Hd].
    rewrite Hrest by discriminate. reflexivity.
  - vm_compute in E. discriminate.
Defined.

Lemma failed_source_fails_main_witness :
  exists e',
    @collect_packages example_env
      (example_sources ++ [MirrorSource (Ok "[1, 2")]) [] [] = Raise e'
    /\ @index_main example_env None None
         (example_sources ++ [MirrorSource (Ok "[1, 2")]) example_world
       = Raise e'.
Proof.
  apply (@failed_source_fails_main example_env None None
           (example_sources ++ [MirrorSource (Ok "[1, 2")]) example_world
           (MirrorSource (Ok "[1, 2")) JSONDecodeError).
  - cbn. tauto.
  - vm_compute. reflexivity.
Defined.

(** ** The reader of archives *)

(** What the scanner does with an asset it downloads, by what the reader
    finds. *)
Lemma process_asset_read `{Env} (src : source) (rx : regex)
  (tag : option string) (a : asset) (name : string) (data : list Byte.byte)
  (st : scan_state) (n : nat) :
  fetched rx a = true ->
  asset_name a = Some name ->
  asset_body a = Ok data ->
  process_asset src rx tag a (st, n)
  = (found <- read_manifest_from_archive data ;;
     match found with
     | Some (JObj manifest, mf_name) =>
         st' <- merge_asset src tag name (sha256_bytes data)
                  (Z.of_nat (List.length data)) manifest mf_name
                  (add_log (LogFetch name) st) ;;
         Ok (st', S n)
     | _ => Ok (add_log LogSkipNoManifest (add_log (LogFetch name) st), S n)
     end).
Proof.
  unfold fetched, process_asset. intros Hf Hn Hb. rewrite Hn in *.
  destruct (str_falsy (Some name) || str_falsy (asset_url a))%bool;
    cbn [negb andb] in Hf; [discriminate|].
  rewrite Hf, Hb. reflexivity.
Qed.

(** X15.  A manifest that cannot be parsed, or that is not an object, costs
    its asset only.  Take a zip archive in which a member is chosen and
    decoded.  When the text of the member is not JSON even after the
    tolerant clean-up, the reader yields no manifest and logs a parse error
    that names the member; when it is JSON, the reader returns that value
    with the name of the member and logs nothing.  The tar reading is not
    tried in either case.  When the text is not JSON or is JSON of another
    kind than an object, the scanner logs the asset as skipped, counts it
    as matched and leaves the packages as they are. *)
Theorem unparsable_manifest_skips_asset (E : Env) (L : ArchiveLib)
  (src : source) (rx : regex) (tag : option string) (a : asset)
  (name : string) (data : list Byte.byte) (target t : string)
  (st : scan_state) (n : nat) :
  fetched rx a = true ->
  asset_name a = Some name ->
  asset_body a = Ok data ->
  zip_target data = Some target ->
  zip_read_text data target = Ok t ->
  (@json_loads_tolerant E t = LoadFailed DecodeError
   \/ exists v, @json_loads_tolerant E t = Loaded v /\ forall m, v <> JObj m) ->
  (@json_loads_tolerant E t = LoadFailed DecodeError ->
   @read_manifest_with E L data = Ok (None, Some target))
  /\ (forall v, @json_loads_tolerant E t = Loaded v ->
                @read_manifest_with E L data = Ok (Some (v, target), None))
  /\ @process_asset (env_with_archives E L) src rx tag a (st, n)
     = Ok (add_log LogSkipNoManifest (add_log (LogFetch name) st), S n).
Proof.
  intros Hf Hn Hb Hz Ht Hl.
  rewrite (@process_asset_read (env_with_archives E L) src rx tag a name data
             st n Hf Hn Hb).
  cbn [read_manifest_from_archive env_with_archives].
  unfold read_manifest_with. rewrite Hz, Ht. unfold load_member.
  split; [intros ->; reflexivity|].
  split; [intros v ->; reflexivity|].
  destruct Hl as [-> | (v & -> & Hv)].
  - reflexivity.
  - cbn [bind]. destruct v; try reflexivity. now destruct (Hv kv).
Qed.

Lemma unparsable_manifest_skips_asset_witness :
  let a := text_asset "foo.zip" doc_url in
  @read_manifest_with example_env text_archives (list_byte_of_string doc_url)
  = Ok (None, Some "pkg/manifest.json")
  /\ @process_asset archive_env example_source (source_rx example_source)
       (Some "v1") a ({| st_packages := []; st_log := [] |}, 0%nat)
     = Ok ({| st_packages := [];
              st_log := [LogFetch "foo.zip"; LogSkipNoManifest] |}, 1%nat).
Proof.
  intros a.
  assert (Hd : @json_loads_tolerant example_env doc_url
               = LoadFailed DecodeError) by (vm_compute; reflexivity).
  destruct (@unparsable_manifest_skips_asset example_env text_archives
              example_source (source_rx example_source) (Some "v1") a
              "foo.zip" (list_byte_of_string doc_url)
              "pkg/manifest.json" doc_url
              {| st_packages := []; st_log := [] |} 0%nat)
    as (Hr & _ & Hp); try (vm_compute; reflexivity).
  - left. exact Hd.
  - split; [exact (Hr Hd) | exact Hp].
Defined.



(** X17.  A manifest that the reader returns is the tolerant reading of the
    text of the member it names, and that name was chosen among the names
    of the zip archive, or, when the bytes are no zip archive or one in which
    none is chosen, among the regular files of the tar archive; nothing is
    logged then. *)
Theorem read_manifest_found (E : Env) (L : ArchiveLib)
  (data : list Byte.byte) (v : json) (target : string) (lg : option string) :
  @read_manifest_with E L data = Ok (Some (v, target), lg) ->
  lg = None
  /\ exists names t,
       select_manifest_name names = Some target
       /\ @json_loads_tolerant E t = Loaded v
       /\ ((zip_namelist data = Some names
            /\ zip_read_text data target = Ok t)
           \/ (zip_target data = None
               /\ tar_file_names data = Some names
               /\ tar_read_text data target = Ok (Some t))).
Proof.
  unfold read_manifest_with.
  assert (Hload : forall tg text,
            @load_member E tg text = Ok (Some (v, target), lg) ->
            lg = None /\ tg = target
            /\ exists t, text = Ok (Some t) /\ @json_loads_tolerant E t = Loaded v).
  { intros tg text. unfold load_member.
    destruct text as [[t|]|e]; try discriminate.
    - destruct (json_loads_tolerant t) as [v'|[]] eqn:El; try discriminate.
      intros [= -> -> <-]. repeat split. now exists t.
    - destruct (is_Exception e); discriminate. }
  destruct (zip_target data) as [tg|] eqn:Ez.
  - intros Hm. apply Hload in Hm as (-> & -> & t & Ht & Hl).
    split; [reflexivity|]. unfold zip_target in Ez.
    destruct (zip_namelist data) as [names|] eqn:En; [|discriminate].
    exists names, t. split; [exact Ez|]. split; [exact Hl|]. left.
    split; [reflexivity|].
    destruct (zip_read_text data target) as [t'|]; [|discriminate].
    now injection Ht as ->.
  - destruct (tar_target data) as [tg|] eqn:Et; [|discriminate].
    intros Hm. apply Hload in Hm as (-> & -> & t & Ht & Hl).
    split; [reflexivity|]. unfold tar_target in Et.
    destruct (tar_file_names data) as [names|] eqn:En; [|discriminate].
    exists names, t. split; [exact Et|]. split; [exact Hl|]. right.
    now repeat split.
Qed.

Lemma read_manifest_found_witness :
  exists names t,
    select_manifest_name names = Some "pkg/manifest.json"
    /\ @json_loads_tolerant example_env t
       = Loaded (JObj [("identifier", JStr "com.example.foo");
                       ("version", JStr "1.0.0")])
    /\ ((@zip_namelist text_archives (list_byte_of_string doc_foo) = Some names
         /\ @zip_read_text text_archives (list_byte_of_string doc_foo)
              "pkg/manifest.json" = Ok t)
        \/ (@zip_target text_archives (list_byte_of_string doc_foo) = None
            /\ @tar_file_names text_archives (list_byte_of_string doc_foo)
               = Some names
            /\ @tar_read_text text_archives (list_byte_of_string doc_foo)
                 "pkg/manifest.json" = Ok (Some t))).
Proof.
  refine (proj2 (@read_manifest_found example_env text_archives
                   (list_byte_of_string doc_foo) _ "pkg/manifest.json" None
                   _)).
  vm_compute. reflexivity.
Defined.

(** ** The two substitutions of the tolerant loader *)

Lemma head_is_line (x : ascii) (r b : string) :
  Ascii.eqb ch_nl x = false ->
  head_is x (r ++ String ch_nl b) = head_is x r.
Proof. intros Hx. destruct r; cbn [append head_is]; [exact Hx|reflexivity]. Qed.

Lemma block_rest_line (a b : string) :
  has_newline a = false -> block_rest (a ++ String ch_nl b) = block_rest a.
Proof.
  induction a as [|c r IH]; cbn [append block_rest has_newline].
  - intros _. rewrite Ascii.eqb_refl. reflexivity.
  - intros Hn. apply Bool.orb_false_elim in Hn as [Hc Hr].
    rewrite head_is_line by reflexivity. rewrite Hc, (IH Hr). reflexivity.
Qed.

Lemma block_rest_length (a : string) (k : nat) :
  block_rest a = Some k -> k <= String.length a.
Proof.
  revert k. induction a as [|c r IH]; intros k; cbn [block_rest String.length];
    [discriminate|].
  destruct (Ascii.eqb c "*" && head_is "/" r)%bool eqn:E.
  - intros [= <-]. apply andb_prop in E as [_ E].
    destruct r; [discriminate|]. cbn [String.length]. lia.
  - destruct (Ascii.eqb c ch_nl); [discriminate|].
    destruct (block_rest r) as [k'|]; [|discriminate].
    intros [= <-]. specialize (IH k' eq_refl). lia.
Qed.

Lemma strip_comments_from_line (b : string) (a : string) :
  has_newline a = false ->
  forall mode,
    match mode with
    | Skipping n => n <= String.length a
    | _ => True
    end ->
    strip_comments_from mode (a ++ String ch_nl b)
    = strip_comments_from mode a
      ++ String ch_nl (strip_comments_from Normal b).
Proof.
  induction a as [|c r IH]; cbn [has_newline]; intros Hn mode Hm.
  - cbn [append strip_comments_from String.length] in *.
    destruct mode as [| |[|n]]; try reflexivity; lia.
  - apply Bool.orb_false_elim in Hn as [Hc Hr].
    cbn [append strip_comments_from].
    assert (Hnormal :
              (if (Ascii.eqb c "/" && head_is "/" (r ++ String ch_nl b))%bool
               then strip_comments_from InLineComment (r ++ String ch_nl b)
               else
                 if (Ascii.eqb c "/" && head_is "*" (r ++ String ch_nl b))%bool
                 then
                   match (r ++ String ch_nl b)%string with
                   | String _ r' =>
                       match block_rest r' with
                       | Some k =>
                           strip_comments_from (Skipping (S k))
                             (r ++ String ch_nl b)
                       | None =>
                           String c (strip_comments_from Normal
                                       (r ++ String ch_nl b))
                       end
                   | EmptyString =>
                       String c (strip_comments_from Normal
                                   (r ++ String ch_nl b))
                   end
                 else String c (strip_comments_from Normal (r ++ String ch_nl b)))
              = (if (Ascii.eqb c "/" && head_is "/" r)%bool
                 then strip_comments_from InLineComment r
                 else
                   if (Ascii.eqb c "/" && head_is "*" r)%bool
                   then
                     match r with
                     | String _ r' =>
                         match block_rest r' with
                         | Some k => strip_comments_from (Skipping (S k)) r
                         | None => String c (strip_comments_from Normal r)
                         end
                     | EmptyString => String c (strip_comments_from Normal r)
                     end
                   else String c (strip_comments_from Normal r))
                ++ String ch_nl (strip_comments_from Normal b)).
    { rewrite !head_is_line by reflexivity.
      destruct (Ascii.eqb c "/" && head_is "/" r)%bool;
        [now apply IH|].
      destruct (Ascii.eqb c "/" && head_is "*" r)%bool eqn:Eb;
        [|cbn [append]; f_equal; now apply IH].
      destruct r as [|c2 r']; [apply andb_prop in Eb as [_ Eb]; discriminate|].
      cbn [append]. cbn [has_newline] in Hr.
      apply Bool.orb_false_elim in Hr as [Hc2 Hr'].
      rewrite block_rest_line by exact Hr'.
      destruct (block_rest r') as [k|] eqn:Ek.
      - change (String c2 (r' ++ String ch_nl b))
          with (String c2 r' ++ String ch_nl b)%string.
        apply IH.
        + cbn [has_newline]. now rewrite Hc2, Hr'.
        + cbn [String.length]. apply block_rest_length in Ek. lia.
      - cbn [append]. f_equal.
        change (String c2 (r' ++ String ch_nl b))
          with (String c2 r' ++ String ch_nl b)%string.
        apply IH; [|exact I]. cbn [has_newline]. now rewrite Hc2, Hr'. }
    destruct mode as [| |[|n]].
    + exact Hnormal.
    + rewrite Hc. now apply IH.
    + exact Hnormal.
    + apply IH; [exact Hr|]. cbn [String.length] in Hm. lia.
Qed.

(** X18.  The comments are cut line by line: cutting them from a text is
    cutting them from its first line and from the rest, the line break
    staying where it is.  So no comment reaches over a line break (a block
    comment that is not closed on its own line stays in the text), and the
    lines of the result are the lines of the text, each without its
    comments. *)
Theorem strip_comments_by_line (line rest : string) :
  has_newline line = false ->
  strip_comments (line ++ String ch_nl rest)
  = strip_comments line ++ String ch_nl (strip_comments rest).
Proof.
  intros Hn. unfold strip_comments.
  now apply strip_comments_from_line.
Qed.

Lemma strip_comments_by_line_witness :
  strip_comments ("a /* b" ++ String ch_nl "c */ d // e")
  = "a /* b" ++ String ch_nl "c */ d ".
Proof.
  rewrite (@strip_comments_by_line "a /* b" "c */ d // e" eq_refl).
  reflexivity.
Defined.

(** X19.  The second substitution deletes commas and whitespace only: the
    characters of the result other than commas and whitespace are those of
    the text, in the same order. *)
Theorem strip_trailing_commas_keeps_text (s : string) :
  filter (fun c => negb (Ascii.eqb c "," || is_space c))
    (list_ascii_of_string (strip_trailing_commas s))
  = filter (fun c => negb (Ascii.eqb c "," || is_space c))
      (list_ascii_of_string s).
Proof.
  unfold strip_trailing_commas.
  set (kept := fun c => negb (Ascii.eqb c "," || is_space c)).
  assert (Hall : forall dropping,
            filter kept
              (list_ascii_of_string (strip_trailing_commas_from dropping s))
            = filter kept (list_ascii_of_string s)); [|apply Hall].
  induction s as [|c r IH]; intros dropping;
    cbn [strip_trailing_commas_from list_ascii_of_string filter];
    [reflexivity|].
  destruct (dropping && is_space c)%bool eqn:Ed.
  - apply andb_prop in Ed as [_ Ed]. unfold kept at 2.
    rewrite Ed, Bool.orb_true_r. cbn [negb]. apply IH.
  - destruct (Ascii.eqb c "," && closes_after_space r)%bool eqn:Ec.
    + apply andb_prop in Ec as [Ec _]. unfold kept at 2.
      rewrite Ec. cbn [orb negb]. apply IH.
    + cbn [list_ascii_of_string filter]. rewrite IH. reflexivity.
Qed.

(** ** The packer, call by call *)

Lemma monitor_app {S : Type} (step : S -> os_event -> option S) (s : S)
  (a b : list os_event) :
  monitor step s (a ++ b)
  = match monitor step s a with
    | Some s' => monitor step s' b
    | None => None
    end.
Proof.
  revert s. induction a as [|e r IH]; intros s; cbn [app monitor];
    [reflexivity|].
  destruct (step s e); [apply IH|reflexivity].
Qed.

Section Monitored.
Context {W S : Type} (os : PackerOS W) (step : S -> os_event -> option S).

Lemma moves_ret {A : Type} (a : A) (s : S) (T : outcome A -> S -> Prop) :
  T (Returned a) s -> moves step (@io_ret (W * list os_event) A a) s T.
Proof. intros HT p s0 Hs. exists s. now split. Qed.

Lemma moves_print (line : string) (s : S) (T : outcome unit -> S -> Prop) :
  T (Returned tt) s -> moves step (@print (W * list os_event) line) s T.
Proof. intros HT p s0 Hs. exists s. now split. Qed.

Lemma moves_bind {A B : Type} (m : io (W * list os_event) A)
  (k : A -> io (W * list os_event) B) (s : S)
  (T : outcome A -> S -> Prop) (U : outcome B -> S -> Prop) :
  moves step m s T ->
  (forall a s', T (Returned a) s' -> moves step (k a) s' U) ->
  (forall e s', T (Raised e) s' -> U (Raised e) s') ->
  moves step (io_bind m k) s U.
Proof.
  intros Hm Hk He p s0 Hs. unfold io_bind.
  destruct (Hm p s0 Hs) as (s1 & H1 & HT).
  destruct (m p) as [[a|e] p1]; cbn [fst snd] in *.
  - exact (Hk a s1 HT p1 s0 H1).
  - exists s1. split; [exact H1|]. now apply He.
Qed.

Lemma moves_call {A : Type} (ev : outcome A -> os_event)
  (f : W -> outcome A * W) (s : S) (T : outcome A -> S -> Prop) :
  (forall r, exists s', step s (ev r) = Some s' /\ T r s') ->
  moves step (os_call (recorded ev f)) s T.
Proof.
  intros Hstep p s0 Hs. unfold os_call, recorded, events in *.
  destruct (f (fst (proc_os p))) as [r w']. cbn [fst snd proc_os].
  destruct (Hstep r) as (s' & Hs' & HT). exists s'. split; [|exact HT].
  rewrite monitor_app, Hs. cbn [monitor]. now rewrite Hs'.
Qed.

Lemma moves_weaken {A : Type} (m : io (W * list os_event) A) (s : S)
  (T U : outcome A -> S -> Prop) :
  moves step m s T -> (forall r s', T r s' -> U r s') -> moves step m s U.
Proof.
  intros Hm HTU p s0 Hs. destruct (Hm p s0 Hs) as (s' & H1 & HT).
  exists s'. split; [exact H1|now apply HTU].
Qed.

(** A loop: [J] holds of what is left of the list and the state. *)
Lemma moves_for {A : Type} (body : A -> io (W * list os_event) unit)
  (J : list A -> S -> Prop) (E : S -> Prop) (l : list A) (s : S) :
  J l s ->
  (forall x r s1, J (x :: r) s1 ->
     moves step (body x) s1
       (fun out s2 => if has_returned out then J r s2 else E s2)) ->
  moves step (io_for l body) s
    (fun out s2 => if has_returned out then J [] s2 else E s2).
Proof.
  intros HJ Hbody. revert s HJ.
  induction l as [|x r IH]; intros s HJ; cbn [io_for].
  - now apply moves_ret.
  - eapply moves_bind.
    + apply (Hbody x r s HJ).
    + intros [] s' HJ'. cbn [has_returned] in HJ'. now apply IH.
    + intros e s' HE. exact HE.
Qed.

(** [with]: the opening, the body in the state after it, the closing in
    every state that the body may end in. *)
Lemma moves_with_zip (body : io (W * list os_event) unit) (s s1 s0 : S)
  (B : outcome unit -> S -> Prop) (T : outcome unit -> S -> Prop) :
  step s (EvOpen true) = Some s1 ->
  step s (EvOpen false) = Some s0 ->
  (forall e, T (Raised e) s0) ->
  moves step body s1 B ->
  (forall out s2, B out s2 ->
     exists s3, step s2 EvClose = Some s3
                /\ (forall e, T (Raised e) s3)
                /\ (has_returned out = true -> T (Returned tt) s3)) ->
  moves step (@with_zip _ (recording_os os) body) s T.
Proof.
  intros Ho1 Ho0 HT0 Hbody Hclose. unfold with_zip.
  eapply moves_bind.
  - apply (@moves_call unit (fun r => EvOpen (has_returned r)) (@zip_open W os)
             s (fun r s' => if has_returned r then s' = s1
                            else s' = s0)).
    intros [[]|e]; cbn [has_returned]; eauto.
  - intros [] s' ->. intros p sa Hs.
    destruct (Hbody p sa Hs) as (s2 & H2 & HB).
    destruct (Hclose _ s2 HB) as (s3 & H3 & HTe & HTr).
    assert (Hc : moves step
                   (os_call (recorded (fun _ : outcome unit => EvClose)
                               (@zip_close W os)))
                   s2 (fun _ s' => s' = s3)).
    { apply moves_call. intros r. now exists s3. }
    destruct (Hc (snd (body p)) sa H2) as (s4 & H4 & ->).
    change (@zip_close _ (recording_os os))
      with (recorded (fun _ : outcome unit => EvClose) (@zip_close W os)).
    destruct (body p) as [[[]|e] p1]; cbn [fst snd has_returned] in *;
      destruct (os_call (recorded (fun _ : outcome unit => EvClose)
                           (@zip_close W os)) p1) as [[[]|e2] p2];
      cbn [fst snd] in *; exists s3; (split; [exact H4|]);
      solve [apply HTe | now apply HTr].
  - intros e s' ->. apply HT0.
Qed.

Lemma moves_run {A : Type} (m : io (W * list os_event) A) (s : S)
  (T : outcome A -> S -> Prop) (p : process W) :
  moves step m s T ->
  exists s',
    monitor step s (events (snd (m (recording p)))) = Some s'
    /\ T (fst (m (recording p))) s'.
Proof. intros Hm. apply (Hm (recording p) s). reflexivity. Qed.
End Monitored.

(** The calls of [main] in the state of the archive. *)
Lemma nothing_to_build_zip {W : Type} (os : PackerOS W) (removed kept : string) :
  moves zip_step (@nothing_to_build _ (recording_os os) removed kept)
    NotOpened (fun _ s => s = NotOpened).
Proof.
  unfold nothing_to_build. eapply moves_bind.
  - apply (@moves_call W zip_phase zip_step bool (fun _ => EvExists out_zip_path)
             _ NotOpened (fun _ s => s = NotOpened)).
    intros r. now exists NotOpened.
  - intros stale s' ->. destruct stale.
    + eapply moves_bind.
      * apply (@moves_call W zip_phase zip_step unit
                 (fun _ => EvUnlink out_zip_path) _ NotOpened
                 (fun _ s => s = NotOpened)).
        intros r. now exists NotOpened.
      * intros [] s' ->. now apply moves_print.
      * intros e s' ->. reflexivity.
    + now apply moves_print.
  - intros e s' ->. reflexivity.
Qed.

Lemma add_dir_to_zip_zip {W : Type} (os : PackerOS W) (pkg_dir : string) :
  moves zip_step (@add_dir_to_zip _ (recording_os os) pkg_dir) Opened
    (fun _ s => s = Opened).
Proof.
  unfold add_dir_to_zip. eapply moves_bind.
  - apply (@moves_call W zip_phase zip_step (list string)
             (fun _ => EvFiles pkg_dir) _ Opened (fun _ s => s = Opened)).
    intros r. now exists Opened.
  - intros rels s' ->.
    eapply moves_weaken.
    + apply (@moves_for W zip_phase zip_step string _
               (fun _ s => s = Opened) (fun s => s = Opened) rels Opened
               eq_refl).
      intros rel r s1 ->.
      apply (@moves_call W zip_phase zip_step unit
               (fun _ => EvWrite (assets_path ++ "/" ++ pkg_dir ++ "/" ++ rel)
                           (pkg_dir ++ "/" ++ rel)) _ Opened).
      intros out. exists Opened. split; [reflexivity|].
      now destruct (has_returned out).
    + intros out s2; cbv beta; now destruct (has_returned out).
  - intros e s' ->. reflexivity.
Qed.

(** X20.  The packer closes the archive it has opened, whatever happens in
    between: in every run of [main], on every file system and whether calls
    raise or not, the archive is opened at most once and after the two
    look-ups, listings and removals; files are listed and written while it
    is open only; it is closed before [main] returns or raises; and it is
    measured after that only. *)
Theorem packer_closes_what_it_opens {W : Type} (os : PackerOS W)
  (p : process W) :
  exists s,
    monitor zip_step NotOpened
      (events (snd (@packer_main _ (recording_os os) (recording p)))) = Some s
    /\ s <> Opened.
Proof.
  destruct (@moves_run W zip_phase zip_step unit
              (@packer_main _ (recording_os os)) NotOpened
              (fun _ s => s <> Opened) p) as (s & Hs & Hne);
    [|now exists s].
  unfold packer_main. eapply moves_bind.
  - apply (@moves_call W zip_phase zip_step bool (fun _ => EvExists assets_path)
             _ NotOpened (fun _ s => s = NotOpened)).
    intros r. now exists NotOpened.
  - intros present s' ->. destruct present; cbn [negb].
    + eapply moves_bind.
      * apply (@moves_call W zip_phase zip_step (list string)
                 (fun r => EvDirs (returned r)) _ NotOpened
                 (fun _ s => s = NotOpened)).
        intros r. now exists NotOpened.
      * intros pkg_dirs s' ->. destruct pkg_dirs as [|d ds].
        -- eapply moves_weaken; [apply nothing_to_build_zip|].
           intros r s' ->. discriminate.
        -- eapply moves_bind.
           ++ apply (@moves_with_zip W zip_phase os zip_step _ NotOpened Opened
                       Done (fun _ s => s = Opened) (fun _ s => s = Done));
                try reflexivity.
              ** eapply moves_weaken.
                 --- apply (@moves_for W zip_phase zip_step string _
                              (fun _ s => s = Opened) (fun s => s = Opened)
                              _ Opened eq_refl).
                     intros x r s1 ->.
                     eapply moves_weaken; [apply add_dir_to_zip_zip|].
                     intros out s2 ->. now destruct (has_returned out).
                 --- intros out s2; cbv beta; now destruct (has_returned out).
              ** intros out s2 ->. exists Done. now repeat split.
           ++ intros [] s' ->. eapply moves_bind.
              ** apply (@moves_call W zip_phase zip_step Z (fun _ => EvSize)
                          _ Done (fun _ s => s = Done)).
                 intros r. now exists Done.
              ** intros size s' ->. apply moves_print. discriminate.
              ** intros e s' ->. discriminate.
           ++ intros e s' ->. discriminate.
      * intros e s' ->. discriminate.
    + eapply moves_weaken; [apply nothing_to_build_zip|].
      intros r s' ->. discriminate.
  - intros e s' ->. discriminate.
Qed.

Lemma prefix_append (a b : string) : String.prefix a (a ++ b) = true.
Proof.
  induction a as [|c r IH]; cbn [append].
  - now destruct b.
  - unfold String.prefix; fold String.prefix.
    destruct (ascii_dec c c) as [_|Hn]; [exact IH|now destruct Hn].
Qed.

(** The calls of [main] in the state of the visit of the folders. *)
Lemma nothing_to_build_visit {W : Type} (os : PackerOS W)
  (removed kept : string) (s : visit) :
  moves visit_step (@nothing_to_build _ (recording_os os) removed kept)
    s (fun _ s' => s' = s).
Proof.
  unfold nothing_to_build. eapply moves_bind.
  - apply (@moves_call W visit visit_step bool (fun _ => EvExists out_zip_path)
             _ s (fun _ s' => s' = s)).
    intros r. now exists s.
  - intros stale s' ->. destruct stale.
    + eapply moves_bind.
      * apply (@moves_call W visit visit_step unit
                 (fun _ => EvUnlink out_zip_path) _ s (fun _ s' => s' = s)).
        intros r. exists s. split; [|reflexivity].
        cbn [visit_step]. now rewrite String.eqb_refl.
      * intros [] s' ->. now apply moves_print.
      * intros e s' ->. reflexivity.
    + now apply moves_print.
  - intros e s' ->. reflexivity.
Qed.

Lemma add_dir_to_zip_visit {W : Type} (os : PackerOS W) (pkg_dir : string)
  (rest : list string) (s : visit) :
  to_visit s = Some (pkg_dir :: rest) ->
  moves visit_step (@add_dir_to_zip _ (recording_os os) pkg_dir) s
    (fun _ s' => to_visit s' = Some rest).
Proof.
  intros Hs. unfold add_dir_to_zip. eapply moves_bind.
  - apply (@moves_call W visit visit_step (list string)
             (fun _ => EvFiles pkg_dir) _ s
             (fun _ s' => s' = {| to_visit := Some rest;
                                  visiting := Some pkg_dir |})).
    intros r. eexists. split; [|reflexivity].
    cbn [visit_step]. now rewrite Hs, String.eqb_refl.
  - intros rels s' ->.
    eapply moves_weaken.
    + apply (@moves_for W visit visit_step string _
               (fun _ s' => s' = {| to_visit := Some rest;
                                    visiting := Some pkg_dir |})
               (fun s' => s' = {| to_visit := Some rest;
                                  visiting := Some pkg_dir |})
               rels _ eq_refl).
      intros rel r s1 ->.
      apply (@moves_call W visit visit_step unit
               (fun _ => EvWrite (assets_path ++ "/" ++ pkg_dir ++ "/" ++ rel)
                           (pkg_dir ++ "/" ++ rel)) _ _).
      intros out. eexists. split.
      * cbn [visit_step visiting]. rewrite String.eqb_refl.
        rewrite <- append_assoc, prefix_append. reflexivity.
      * now destruct (has_returned out).
    + intros out s2; cbv beta; destruct (has_returned out); now intros ->.
  - intros e s' ->. reflexivity.
Qed.

(** ** [sorted] sorts *)

Section SortingUp.
Context {A : Type} (key : A -> string).

Lemma insert_asc_perm (x : A) (l : list A) :
  Permutation (x :: l) (insert_asc key x l).
Proof.
  induction l as [|y r IH]; cbn [insert_asc]; [reflexivity|].
  destruct (String.ltb (key y) (key x)); [|reflexivity].
  rewrite perm_swap. now apply perm_skip.
Qed.

Lemma sort_asc_perm (l : list A) : Permutation l (sort_asc key l).
Proof.
  induction l as [|x r IH]; cbn [sort_asc]; [constructor|].
  rewrite <- insert_asc_perm. now apply perm_skip.
Qed.

Lemma insert_asc_sorted (x : A) (l : list A) :
  StronglySorted (key_le key) l ->
  StronglySorted (key_le key) (insert_asc key x l).
Proof.
  induction 1 as [|y r Hs IH Hall]; cbn [insert_asc].
  - repeat constructor.
  - destruct (String.ltb (key y) (key x)) eqn:E.
    + constructor; [exact IH|].
      eapply Permutation_Forall; [apply insert_asc_perm|].
      constructor; [|exact Hall].
      unfold key_le. destruct (String.ltb (key x) (key y)) eqn:E2;
        [|reflexivity].
      pose proof (str_lt_trans _ _ _ E E2) as Hx.
      now rewrite str_lt_irrefl in Hx.
    + constructor; [now constructor|].
      constructor; [exact E|].
      eapply Forall_impl; [|exact Hall].
      intros z Hz. unfold key_le in *.
      exact (@str_ge_trans (key z) (key y) (key x) Hz E).
Qed.

Lemma sort_asc_sorted (l : list A) :
  StronglySorted (key_le key) (sort_asc key l).
Proof.
  induction l as [|x r IH]; cbn [sort_asc]; [constructor|].
  now apply insert_asc_sorted.
Qed.
End SortingUp.

Lemma sorted_app_inv {A : Type} (R : A -> A -> Prop) (a b : list A) :
  StronglySorted R (a ++ b) ->
  StronglySorted R a /\ forall x y, In x a -> In y b -> R x y.
Proof.
  induction a as [|h a IH]; cbn [app]; intros Hs.
  - split; [constructor|]. intros x y [].
  - inversion Hs as [|? ? Hs' Hall]; subst.
    destruct (IH Hs') as [Ha Hab].
    apply Forall_app in Hall. destruct Hall as [Hha Hhb].
    split; [now constructor|].
    intros x y [<-|Hx] Hy.
    + rewrite Forall_forall in Hhb. now apply Hhb.
    + now apply Hab.
Qed.

Lemma visit_step_inv (s s' : visit) (e : os_event) (v l : list string) :
  visit_step s e = Some s' ->
  visit_inv s v l ->
  visit_inv s' (v ++ visited [e]) (l ++ listed [e]).
Proof.
  unfold visit_inv, visited, listed. cbn [flat_map].
  destruct e as [path|path|dirs|dir|opened|path arcname| |];
    cbn [visit_step]; rewrite ?app_nil_r.
  - now intros [= <-].
  - destruct (String.eqb path out_zip_path); [|discriminate].
    now intros [= <-].
  - destruct (to_visit s) as [rest|]; [discriminate|].
    intros [= <-] [-> ->]. cbn [to_visit option_map].
    destruct dirs as [dirs|]; cbn [option_map app]; [reflexivity|now split].
  - destruct (to_visit s) as [[|next rest]|]; try discriminate.
    destruct (String.eqb dir next) eqn:E; [|discriminate].
    apply String.eqb_eq in E. subst next.
    intros [= <-] Hv. cbn [to_visit]. now rewrite <- app_assoc.
  - now intros [= <-].
  - destruct (visiting s) as [dir|]; [|discriminate].
    destruct (String.eqb path (assets_path ++ "/" ++ arcname)
              && String.prefix (dir ++ "/") arcname)%bool; [|discriminate].
    now intros [= <-].
  - now intros [= <-].
  - now intros [= <-].
Qed.

Lemma monitor_visit_inv (tr : list os_event) :
  forall (s s' : visit) (v l : list string),
    monitor visit_step s tr = Some s' ->
    visit_inv s v l ->
    visit_inv s' (v ++ visited tr) (l ++ listed tr).
Proof.
  induction tr as [|e tr IH]; intros s s' v l; cbn [monitor].
  - intros [= <-]. unfold visited, listed. cbn [flat_map].
    now rewrite !app_nil_r.
  - destruct (visit_step s e) as [s1|] eqn:E; [|discriminate].
    intros Hm Hv.
    pose proof (IH _ _ _ _ Hm (@visit_step_inv _ _ _ _ _ E Hv)) as Hx.
    unfold visited, listed in *. cbn [flat_map] in *.
    now rewrite <- !app_assoc, ?app_nil_r in Hx.
Qed.

(** The calls of [main] pass the monitor of the folders. *)
Lemma packer_passes_visit_monitor {W : Type} (os : PackerOS W)
  (p : process W) :
  exists s,
    monitor visit_step {| to_visit := None; visiting := None |}
      (events (snd (@packer_main _ (recording_os os) (recording p)))) = Some s
    /\ (has_returned (fst (@packer_main _ (recording_os os) (recording p)))
        = true ->
        to_visit s = None \/ to_visit s = Some []).
Proof.
  apply (@moves_run W visit visit_step unit
           (@packer_main _ (recording_os os))
           {| to_visit := None; visiting := None |}
           (fun out s => has_returned out = true ->
                         to_visit s = None \/ to_visit s = Some []) p).
  unfold packer_main. eapply moves_bind.
  - apply (@moves_call W visit visit_step bool (fun _ => EvExists assets_path)
             _ _ (fun _ s => s = {| to_visit := None; visiting := None |})).
    intros r. now eexists.
  - intros present s' ->. destruct present; cbn [negb].
    + eapply moves_bind.
      * apply (@moves_call W visit visit_step (list string)
                 (fun r => EvDirs (returned r)) _ _
                 (fun r s =>
                    s = {| to_visit :=
                             option_map (sort_asc str_lower) (returned r);
                           visiting := None |})).
        intros r. now eexists.
      * intros pkg_dirs s' ->. cbn [returned option_map].
        destruct pkg_dirs as [|d ds].
        -- eapply moves_weaken; [apply nothing_to_build_visit|].
           intros r s' -> _. now right.
        -- eapply moves_bind.
           ++ apply (@moves_with_zip W visit os visit_step _ _
                       {| to_visit := Some (sort_asc str_lower (d :: ds));
                          visiting := None |}
                       {| to_visit := Some (sort_asc str_lower (d :: ds));
                          visiting := None |}
                       (fun out s => has_returned out = true ->
                                     to_visit s = Some [])
                       (fun out s => has_returned out = true ->
                                     to_visit s = Some []));
                try reflexivity.
              ** intros e. discriminate.
              ** eapply moves_weaken.
                 --- apply (@moves_for W visit visit_step string _
                              (fun rest s => to_visit s = Some rest)
                              (fun _ => True)
                              (sort_asc str_lower (d :: ds))
                              {| to_visit :=
                                   Some (sort_asc str_lower (d :: ds));
                                 visiting := None |} eq_refl).
                     intros x r s1 Hs1.
                     eapply moves_weaken;
                       [apply (add_dir_to_zip_visit os Hs1)|].
                     intros out s2 Hs2. now destruct (has_returned out).
                 --- intros out s2; cbv beta; destruct (has_returned out);
                       [trivial|discriminate].
              ** intros out s2 Hout. exists s2. split; [reflexivity|].
                 split; [discriminate|]. intros Hr _. now apply Hout.
           ++ intros [] s' Hs'. specialize (Hs' eq_refl).
              eapply moves_bind.
              ** apply (@moves_call W visit visit_step Z (fun _ => EvSize)
                          _ _ (fun _ s => s = s')).
                 intros r. now exists s'.
              ** intros size s2 ->. apply moves_print. intros _. now right.
              ** intros e s2 _. discriminate.
           ++ intros e s' _. discriminate.
      * intros e s' _. discriminate.
    + eapply moves_weaken; [apply nothing_to_build_visit|].
      intros r s' -> _. now left.
  - intros e s' _. discriminate.
Qed.

(** X21.  The packer takes the package folders in the order of their names
    in lower case and stores every file under its folder's name.  In every
    run of [main]: the folders are listed once at most; the folders whose
    files are listed are in ascending order of their names in lower case,
    and with the folders not reached they are a rearrangement of the
    listing, no folder not reached coming before one that is; when [main]
    returns, every folder of the listing has been visited; every file
    written to the archive is read from [assets/] followed by its name in
    the archive, and that name starts with the name of the folder whose
    files were listed last and a slash; and no file but [resources.zip] is
    ever removed. *)
Theorem packer_visits_in_order {W : Type} (os : PackerOS W) (p : process W) :
  (exists s,
     monitor visit_step {| to_visit := None; visiting := None |}
       (events (snd (@packer_main _ (recording_os os) (recording p)))) = Some s
     /\ (has_returned (fst (@packer_main _ (recording_os os) (recording p)))
         = true ->
         to_visit s = None \/ to_visit s = Some []))
  /\ StronglySorted
       (fun a b => String.ltb (str_lower b) (str_lower a) = false)
       (visited (events (snd (@packer_main _ (recording_os os) (recording p)))))
  /\ exists rest,
       Permutation
         (visited (events (snd (@packer_main _ (recording_os os) (recording p))))
          ++ rest)%list
         (listed (events (snd (@packer_main _ (recording_os os) (recording p)))))
       /\ (forall a b,
             In a (visited (events (snd (@packer_main _ (recording_os os)
                                           (recording p))))) ->
             In b rest ->
             String.ltb (str_lower b) (str_lower a) = false)
       /\ (has_returned (fst (@packer_main _ (recording_os os) (recording p)))
           = true ->
           rest = []).
Proof.
  destruct (packer_passes_visit_monitor os p) as (s & Hm & Hr).
  split; [now exists s|].
  pose proof (@monitor_visit_inv _ _ s [] [] Hm (conj eq_refl eq_refl)) as Hv.
  cbn [app] in Hv. unfold visit_inv in Hv.
  destruct (to_visit s) as [rest|] eqn:Et.
  - pose proof (sort_asc_sorted str_lower
                  (listed (events (snd (@packer_main _ (recording_os os)
                                          (recording p)))))) as Hs.
    rewrite <- Hv in Hs. apply sorted_app_inv in Hs. destruct Hs as [Hs Hc].
    split; [exact Hs|]. exists rest. split; [|split].
    + rewrite Hv. symmetry. apply sort_asc_perm.
    + exact Hc.
    + intros Hret. destruct (Hr Hret) as [Hx|Hx]; congruence.
  - destruct Hv as [-> ->]. split; [constructor|].
    exists []. repeat split; [constructor | intros a b []].
Qed.

(** ** The record changes nothing *)

Section Mirrors.
Context {W : Type} (os : PackerOS W).

Lemma mirrors_ret {A : Type} (a : A) :
  mirrors (@io_ret (W * list os_event) A a) (io_ret a).
Proof. intros p. reflexivity. Qed.

Lemma mirrors_print (line : string) :
  mirrors (@print (W * list os_event) line) (print line).
Proof. intros p. reflexivity. Qed.

Lemma mirrors_call {A : Type} (ev : outcome A -> os_event)
  (f : W -> outcome A * W) :
  mirrors (os_call (recorded ev f)) (os_call f).
Proof.
  intros p. unfold os_call, recorded, unrecorded. cbn [proc_os fst].
  destruct (f (fst (proc_os p))) as [r w']. reflexivity.
Qed.

Lemma mirrors_bind {A B : Type} (m' : io (W * list os_event) A) (m : io W A)
  (k' : A -> io (W * list os_event) B) (k : A -> io W B) :
  mirrors m' m -> (forall a, mirrors (k' a) (k a)) ->
  mirrors (io_bind m' k') (io_bind m k).
Proof.
  intros Hm Hk p. unfold io_bind. rewrite <- (Hm p).
  destruct (m' p) as [[a|e] p1]; cbn [fst snd]; [apply Hk|reflexivity].
Qed.

Lemma mirrors_for {A : Type} (l : list A)
  (body' : A -> io (W * list os_event) unit) (body : A -> io W unit) :
  (forall x, mirrors (body' x) (body x)) ->
  mirrors (io_for l body') (io_for l body).
Proof.
  intros Hb. induction l as [|x r IH]; cbn [io_for].
  - apply mirrors_ret.
  - apply mirrors_bind; [apply Hb|intros _; exact IH].
Qed.

Lemma mirrors_with_zip (body' : io (W * list os_event) unit)
  (body : io W unit) :
  mirrors body' body ->
  mirrors (@with_zip _ (recording_os os) body') (@with_zip _ os body).
Proof.
  intros Hb. unfold with_zip. apply mirrors_bind.
  - apply (mirrors_call (fun r => EvOpen (has_returned r)) (@zip_open W os)).
  - intros _ p. rewrite <- (Hb p).
    pose proof (mirrors_call (fun _ : outcome unit => EvClose)
                  (@zip_close W os) (snd (body' p))) as Hc.
    change (@zip_close _ (recording_os os))
      with (recorded (fun _ : outcome unit => EvClose) (@zip_close W os)).
    destruct (body' p) as [[[]|e] p1]; cbn [fst snd] in *.
    + exact Hc.
    + rewrite <- Hc.
      now destruct (os_call (recorded (fun _ : outcome unit => EvClose)
                               (@zip_close W os)) p1) as [[[]|e2] p2].
Qed.

Lemma mirrors_nothing_to_build (removed kept : string) :
  mirrors (@nothing_to_build _ (recording_os os) removed kept)
    (@nothing_to_build _ os removed kept).
Proof.
  unfold nothing_to_build. apply mirrors_bind.
  - apply (mirrors_call (fun _ => EvExists out_zip_path)
             (@path_exists W os out_zip_path)).
  - intros [|]; [|apply mirrors_print].
    apply mirrors_bind; [|intros _; apply mirrors_print].
    apply (mirrors_call (fun _ => EvUnlink out_zip_path)
             (@path_unlink W os out_zip_path)).
Qed.

(** The run of [main] on the recording system is its run on the system
    itself: the same outcome, the same file system, the same lines
    printed. *)
Lemma recording_transparent :
  mirrors (@packer_main _ (recording_os os)) (@packer_main _ os).
Proof.
  unfold packer_main. apply mirrors_bind.
  - apply (mirrors_call (fun _ => EvExists assets_path)
             (@path_exists W os assets_path)).
  - intros present. destruct (negb present);
      [apply mirrors_nothing_to_build|].
    apply mirrors_bind.
    + apply (mirrors_call (fun r => EvDirs (returned r)) (@package_dirs W os)).
    + intros [|d ds]; [apply mirrors_nothing_to_build|].
      apply mirrors_bind.
      * apply mirrors_with_zip. apply mirrors_for. intros pkg_dir.
        unfold add_dir_to_zip. apply mirrors_bind.
        -- apply (mirrors_call (fun _ => EvFiles pkg_dir)
                    (@files_under W os pkg_dir)).
        -- intros rels. apply mirrors_for. intros rel.
           apply (mirrors_call (fun _ => EvWrite _ _) (@zip_write W os _ _)).
      * intros _. apply mirrors_bind; [|intros size; apply mirrors_print].
        apply (mirrors_call (fun _ => EvSize) (@zip_size W os)).
Qed.
End Mirrors.

(** ** What the packer prints *)

Section Printing.
Context {W : Type} `{PackerOS W}.

Lemma quiet_call {A : Type} (f : W -> outcome A * W) : quiet (os_call f).
Proof.
  intros p. unfold os_call. destruct (f (proc_os p)) as [r w']. now split.
Qed.

Lemma quiet_ret {A : Type} (a : A) : quiet (@io_ret W A a).
Proof. intros p. now split. Qed.

Lemma quiet_bind {A B : Type} (m : io W A) (k : A -> io W B) :
  quiet m -> (forall a, quiet (k a)) -> quiet (io_bind m k).
Proof.
  intros Hm Hk p. unfold io_bind. destruct (Hm p) as [H1 H2].
  destruct (m p) as [[a|e] p1]; cbn [fst snd] in *; [|now split].
  destruct (Hk a p1) as [H3 H4]. split; congruence.
Qed.

Lemma quiet_for {A : Type} (l : list A) (body : A -> io W unit) :
  (forall x, quiet (body x)) -> quiet (io_for l body).
Proof.
  intros Hb. induction l as [|x r IH]; cbn [io_for].
  - apply quiet_ret.
  - apply quiet_bind; [apply Hb|intros _; exact IH].
Qed.

Lemma quiet_with_zip (body : io W unit) : quiet body -> quiet (with_zip body).
Proof.
  intros Hb. unfold with_zip. apply quiet_bind; [apply quiet_call|].
  intros _ p. destruct (Hb p) as [H1 H2].
  destruct (body p) as [[[]|e] p1]; cbn [fst snd] in *.
  - destruct (quiet_call zip_close p1) as [H3 H4]. split; congruence.
  - destruct (quiet_call zip_close p1) as [H3 H4].
    destruct (os_call zip_close p1) as [[[]|e2] p2]; cbn [fst snd] in *;
      split; congruence.
Qed.

Lemma prints_last_print (line : string) : prints_last (@print W line).
Proof. intros p. split; [reflexivity|]. cbn. now exists line. Qed.

Lemma prints_last_bind {A B : Type} (m : io W A) (k : A -> io W B) :
  quiet m -> (forall a, prints_last (k a)) -> prints_last (io_bind m k).
Proof.
  intros Hm Hk p. unfold io_bind. destruct (Hm p) as [H1 H2].
  destruct (m p) as [[a|e] p1]; cbn [fst snd has_returned] in *;
    [|now split].
  destruct (Hk a p1) as [H3 H4]. split; [congruence|].
  destruct (has_returned (fst (k a p1))).
  - destruct H4 as [line H4]. exists line. congruence.
  - congruence.
Qed.

Lemma prints_last_nothing_to_build (removed kept : string) :
  prints_last (nothing_to_build removed kept).
Proof.
  unfold nothing_to_build. apply prints_last_bind; [apply quiet_call|].
  intros [|]; [|apply prints_last_print].
  apply prints_last_bind; [apply quiet_call|].
  intros _. apply prints_last_print.
Qed.

Lemma packer_main_prints_last : prints_last packer_main.
Proof.
  unfold packer_main. apply prints_last_bind; [apply quiet_call|].
  intros present. destruct (negb present);
    [apply prints_last_nothing_to_build|].
  apply prints_last_bind; [apply quiet_call|].
  intros [|d ds]; [apply prints_last_nothing_to_build|].
  apply prints_last_bind.
  - apply quiet_with_zip. apply quiet_for. intros pkg_dir.
    unfold add_dir_to_zip. apply quiet_bind; [apply quiet_call|].
    intros rels. apply quiet_for. intros rel. apply quiet_call.
  - intros _. apply prints_last_bind; [apply quiet_call|].
    intros size. apply prints_last_print.
Qed.
End Printing.

(** X22.  The script of the packer prints one line and exits with status 0,
    or ends on an exception that is no [Exception] and prints nothing: when
    [main] returns, its report is the one line, on the standard output,
    printed after the last call into the file system; when [main] raises an
    [Exception], nothing was printed before and the warning is the one
    line, on the standard error stream. *)
Theorem packer_prints_one_line {W : Type} `{PackerOS W} (p : process W) :
  match fst (packer_script p) with
  | Exited status =>
      status = 0%Z
      /\ ((exists line,
             proc_stdout (snd (packer_script p)) = (proc_stdout p ++ [line])%list
             /\ proc_stderr (snd (packer_script p)) = proc_stderr p
             /\ has_returned (fst (packer_main p)) = true)
          \/ (exists line,
                proc_stdout (snd (packer_script p)) = proc_stdout p
                /\ proc_stderr (snd (packer_script p))
                   = (proc_stderr p ++ [line])%list
                /\ has_returned (fst (packer_main p)) = false))
  | Unhandled e =>
      is_Exception (exn_class_of e) = false
      /\ proc_stdout (snd (packer_script p)) = proc_stdout p
      /\ proc_stderr (snd (packer_script p)) = proc_stderr p
  end.
Proof.
  unfold packer_script. destruct (packer_main_prints_last p) as [He Ho].
  destruct (packer_main p) as [[[]|e] p1]; cbn [fst snd has_returned] in *.
  - split; [reflexivity|]. left. destruct Ho as [line Ho].
    exists line. now repeat split.
  - destruct (is_Exception (exn_class_of e)) eqn:Ee; cbn [fst snd].
    + split; [reflexivity|]. right. eexists.
      cbn [print_err fst snd proc_stdout proc_stderr].
      split; [exact Ho|]. split; [|reflexivity]. now rewrite He.
    + now repeat split.
Qed.

(** ** The wiring of the local assets *)

(** X23.  On resources that are a mapping the wiring of the local assets
    never fails and only adds: every entry that the manifest gave stays as
    it is (an icon or a screenshot named by the manifest wins over the local
    file), and a key that the manifest did not give is [icon] or
    [screenshot], set to the path of the file under the package's identifier,
    and only when the folder of the package and the file exist under
    [assets/]. *)
Theorem wiring_only_adds `{Env} (pkg_id : string) (kv : list (string * json)) :
  exists kv',
    wire_resources pkg_id (JObj kv) = Ok (JObj kv')
    /\ (forall k v, dict_get k kv = Some v -> dict_get k kv' = Some v)
    /\ (forall k, dict_has k kv' = true ->
          dict_has k kv = true
          \/ (k = "icon"
              /\ assets_dir_exists pkg_id = true /\ icon_exists pkg_id = true
              /\ dict_get k kv' = Some (JStr (pkg_id ++ "/icon.png")))
          \/ (k = "screenshot"
              /\ assets_dir_exists pkg_id = true
              /\ screenshot_exists pkg_id = true
              /\ dict_get k kv' = Some (JStr (pkg_id ++ "/screenshot.png")))).
Proof.
  unfold wire_resources. destruct (assets_dir_exists pkg_id).
  - destruct (wire_one_object (icon_exists pkg_id) "icon"
                (pkg_id ++ "/icon.png") kv) as (kv1 & -> & Hk1 & Ha1).
    cbn [bind].
    destruct (wire_one_object (screenshot_exists pkg_id) "screenshot"
                (pkg_id ++ "/screenshot.png") kv1) as (kv2 & -> & Hk2 & Ha2).
    exists kv2. split; [reflexivity|]. split.
    + intros k v Hk. apply Hk2, Hk1, Hk.
    + intros k Hk. destruct (Ha2 k Hk) as [Hin1|(-> & Hs & Hv)].
      * destruct (Ha1 k Hin1) as [Hin|(-> & Hi & Hv)]; [now left|].
        right. left. repeat split; try assumption. now apply Hk2.
      * right. right. now repeat split.
  - exists kv. split; [reflexivity|]. split; [tauto|]. intros k Hk. now left.
Qed.

(** ** The README: markers and block *)

Lemma starts_with_app (p b : text) : starts_with p (p ++ b)%list = true.
Proof.
  induction p as [|x p IH]; cbn [app starts_with]; [reflexivity|].
  now rewrite N.eqb_refl, IH.
Qed.

Lemma starts_with_split (p t : text) :
  starts_with p t = true -> t = (p ++ skipn (List.length p) t)%list.
Proof.
  revert t. induction p as [|x p IH]; intros t; cbn [starts_with].
  - reflexivity.
  - destruct t as [|y t]; [discriminate|].
    intros H. apply andb_prop in H as [Hx Hp]. apply N.eqb_eq in Hx as ->.
    cbn [List.length skipn app]. f_equal. now apply IH.
Qed.

(** Whether [t] starts with [p] is settled by the first characters of [t],
    as many as [p] has. *)
Lemma starts_with_long (p t b : text) :
  List.length p <= List.length t ->
  starts_with p (t ++ b)%list = starts_with p t.
Proof.
  revert t. induction p as [|x p IH]; intros t; cbn [starts_with List.length].
  - reflexivity.
  - destruct t as [|y t]; cbn [List.length app]; [lia|].
    intros Hl. rewrite IH by lia. reflexivity.
Qed.

Lemma starts_with_nil (p : text) : p <> [] -> starts_with p [] = false.
Proof. now destruct p. Qed.

Lemma contains_here (p t : text) :
  starts_with p t = true -> contains p t = true.
Proof. destruct t; cbn [contains]; [tauto|]. now intros ->. Qed.

Lemma contains_app_r (p a b : text) :
  contains p b = true -> contains p (a ++ b)%list = true.
Proof.
  induction a as [|x a IH]; cbn [app contains]; [tauto|].
  intros H. rewrite (IH H). apply Bool.orb_true_r.
Qed.

Lemma contains_middle (p a b : text) : contains p (a ++ p ++ b)%list = true.
Proof. apply contains_app_r, contains_here, starts_with_app. Qed.

Lemma Some_inj {A : Type} (x y : A) : Some x = Some y -> x = y.
Proof. congruence. Qed.

Lemma find_end_bounds (t : text) (k : nat) :
  find_end t = Some k -> List.length END <= k <= List.length t.
Proof.
  revert k. induction t as [|c r IH]; intros k; cbn [find_end]; [discriminate|].
  destruct (starts_with END (c :: r)) eqn:Es.
  - intros Hk%Some_inj. subst k. split; [lia|].
    apply starts_with_split in Es. rewrite Es at 1.
    rewrite length_app. lia.
  - destruct (find_end r) as [k'|]; [|discriminate].
    intros [= <-]. specialize (IH k' eq_refl). cbn [List.length]. lia.
Qed.

Lemma find_end_app (t b : text) (k : nat) :
  find_end t = Some k -> find_end (t ++ b)%list = Some k.
Proof.
  revert k. induction t as [|c r IH]; intros k; cbn [find_end app];
    [discriminate|].
  change (c :: (r ++ b))%list with ((c :: r) ++ b)%list.
  destruct (starts_with END (c :: r)) eqn:Es.
  - intros Hk%Some_inj. subst k. apply starts_with_split in Es.
    rewrite Es, <- app_assoc, starts_with_app. reflexivity.
  - destruct (find_end r) as [k'|] eqn:Ef; [|discriminate].
    intros [= <-].
    rewrite starts_with_long, Es.
    + now rewrite (IH k' eq_refl).
    + apply find_end_bounds in Ef. cbn [List.length]. lia.
Qed.

Lemma find_end_split (t : text) (k : nat) :
  find_end t = Some k ->
  exists m, t = (m ++ END ++ skipn k t)%list /\ k = List.length m + List.length END.
Proof.
  revert k. induction t as [|c r IH]; intros k; cbn [find_end]; [discriminate|].
  destruct (starts_with END (c :: r)) eqn:Es.
  - intros Hk%Some_inj. subst k. exists []. split; [|reflexivity].
    now apply starts_with_split.
  - destruct (find_end r) as [k'|]; [|discriminate].
    intros [= <-]. destruct (IH k' eq_refl) as (m & Hr & Hk).
    exists (c :: m). cbn [skipn app List.length]. split; [|lia].
    f_equal. exact Hr.
Qed.

Lemma find_end_none_skipn (n : nat) (t : text) :
  find_end t = None -> find_end (skipn n t) = None.
Proof.
  revert t. induction n as [|n IH]; intros t; [tauto|].
  destruct t as [|c r]; cbn [skipn find_end]; [tauto|].
  destruct (starts_with END (c :: r)); [discriminate|].
  destruct (find_end r) eqn:Ef; [discriminate|]. intros _. now apply IH.
Qed.

Lemma find_end_here (t : text) :
  starts_with END t = true -> find_end t = Some (List.length END).
Proof.
  destruct t as [|c r]; [discriminate|]. cbn [find_end]. now intros ->.
Qed.

(** An [END] in the text is found. *)
Lemma find_end_finds (a b : text) : find_end (a ++ END ++ b)%list <> None.
Proof.
  induction a as [|c a IH].
  - cbn [app]. rewrite find_end_here; [discriminate|apply starts_with_app].
  - cbn [app find_end].
    destruct (starts_with END (c :: a ++ END ++ b)); [discriminate|].
    destruct (find_end (a ++ END ++ b)%list); [discriminate|].
    now destruct IH.
Qed.

Lemma sub_from_skip (new : text) (t : text) :
  forall n, sub_from n new t = sub_from 0 new (skipn n t).
Proof.
  induction t as [|c r IH]; intros n.
  - now destruct n.
  - destruct n as [|n]; [reflexivity|]. cbn [sub_from skipn]. apply IH.
Qed.

Lemma sub_match (new t : text) (k : nat) :
  starts_with START t = true ->
  find_end (skipn (List.length START) t) = Some k ->
  sub_from 0 new t
  = (new ++ sub_from 0 new (skipn (List.length START + k) t))%list.
Proof.
  intros Hs Hf. destruct t as [|c r]; [discriminate|].
  cbn [sub_from]. rewrite Hs, Hf, sub_from_skip. reflexivity.
Qed.

Lemma sub_copy (new : text) (c : N) (r : text) :
  starts_with START (c :: r) = false
  \/ find_end (skipn (List.length START) (c :: r)) = None ->
  sub_from 0 new (c :: r) = c :: sub_from 0 new r.
Proof.
  intros [Hs|Hf]; cbn [sub_from].
  - now rewrite Hs.
  - rewrite Hf. now destruct (starts_with START (c :: r)).
Qed.

(** Without an [END] behind a [START] nothing is replaced. *)
Lemma sub_no_end (new t : text) :
  find_end (skipn (List.length START) t) = None -> sub_from 0 new t = t.
Proof.
  induction t as [|c r IH]; intros Hf; [reflexivity|].
  rewrite sub_copy by now right. f_equal. apply IH.
  apply (find_end_none_skipn 1) in Hf. rewrite skipn_skipn in Hf.
  replace (1 + List.length START) with (S (List.length START)) in Hf by lia.
  exact Hf.
Qed.

(** The first match: either nothing is replaced, or the text is a part
    without a [START], then a [START], then the text up to the first [END]
    behind it, then a rest. *)
Lemma sub_first_match (new t : text) :
  sub_from 0 new t = t
  \/ exists pre u k,
       t = (pre ++ u)%list
       /\ (forall i, i < List.length pre ->
             starts_with START (skipn i t) = false)
       /\ starts_with START u = true
       /\ find_end (skipn (List.length START) u) = Some k
       /\ sub_from 0 new t
          = (pre ++ new
             ++ sub_from 0 new (skipn (List.length START + k) u))%list.
Proof.
  induction t as [|c r IH]; [now left|].
  destruct (starts_with START (c :: r)) eqn:Es.
  - destruct (find_end (skipn (List.length START) (c :: r))) as [k|] eqn:Ef.
    + right. exists [], (c :: r), k. split; [reflexivity|].
      split; [cbn; intros i Hi; lia|]. split; [exact Es|].
      split; [exact Ef|]. now apply sub_match.
    + left. now apply sub_no_end.
  - rewrite sub_copy by now left.
    destruct IH as [IH|(pre & u & k & Hr & Hno & Hu & Hf & Hsub)].
    + left. now rewrite IH.
    + right. exists (c :: pre), u, k. split; [cbn; now rewrite Hr|].
      split; [|split; [exact Hu|split; [exact Hf|cbn; now rewrite Hsub]]].
      intros [|i] Hi; [exact Es|]. cbn [skipn]. apply Hno.
      cbn [List.length] in Hi. lia.
Qed.

Lemma sub_after_prefix (new pre v : text) :
  (forall i, i < List.length pre ->
     starts_with START (skipn i (pre ++ v)%list) = false) ->
  sub_from 0 new (pre ++ v)%list = (pre ++ sub_from 0 new v)%list.
Proof.
  induction pre as [|c pre IH]; intros Hno; [reflexivity|].
  cbn [app]. rewrite sub_copy.
  - f_equal. apply IH. intros i Hi. apply (Hno (S i)). cbn [List.length]. lia.
  - left. apply (Hno 0). cbn [List.length]. lia.
Qed.

Lemma skipn_exact {A : Type} (l x : list A) :
  skipn (List.length l) (l ++ x)%list = x.
Proof. induction l as [|a l IH]; [reflexivity|exact IH]. Qed.

(** The block goes in as it is when it is met again. *)
Lemma sub_block_again (mid x : text) :
  find_end (mid ++ END)%list = Some (List.length mid + List.length END) ->
  sub_from 0 (START ++ mid ++ END)%list ((START ++ mid ++ END) ++ x)%list
  = ((START ++ mid ++ END) ++ sub_from 0 (START ++ mid ++ END)%list x)%list.
Proof.
  intros He.
  rewrite (@sub_match _ _ (List.length mid + List.length END)).
  - f_equal. f_equal.
    replace (List.length START + (List.length mid + List.length END))
      with (List.length (START ++ mid ++ END)%list)
      by (rewrite !length_app; lia).
    apply skipn_exact.
  - rewrite <- app_assoc. apply starts_with_app.
  - rewrite <- !app_assoc, skipn_exact.
    rewrite app_assoc. now apply find_end_app.
Qed.

(** Replacing twice is replacing once, for a block that holds [END] at its
    end only. *)
Lemma sub_idempotent (mid : text) :
  find_end (mid ++ END)%list = Some (List.length mid + List.length END) ->
  forall t,
    sub_from 0 (START ++ mid ++ END)%list
      (sub_from 0 (START ++ mid ++ END)%list t)
    = sub_from 0 (START ++ mid ++ END)%list t.
Proof.
  intros He t.
  remember (List.length t) as n eqn:Hn. revert t Hn.
  induction n as [n IH] using lt_wf_ind. intros t Hn.
  destruct (sub_first_match (START ++ mid ++ END)%list t)
    as [Hsame|(pre & u & k & Ht & Hno & Hu & Hf & Hsub)].
  - now rewrite !Hsame.
  - rewrite Hsub.
    pose proof (starts_with_split _ _ Hu) as Hsplit.
    rewrite sub_after_prefix.
    + f_equal. rewrite sub_block_again by exact He. f_equal.
      eapply IH; [|reflexivity].
      subst n t. rewrite length_app, length_skipn.
      apply find_end_bounds in Hf. rewrite length_skipn in Hf.
      assert (0 < List.length END) by (cbn; lia). lia.
    + intros i Hi. specialize (Hno i Hi). rewrite Ht, Hsplit in Hno.
      rewrite skipn_app in Hno |- *.
      replace (i - List.length pre) with 0 in * by lia.
      cbn [skipn] in *.
      rewrite <- app_assoc.
      rewrite app_assoc in Hno |- *.
      rewrite starts_with_long in Hno |- *;
        try (rewrite length_app; lia).
      exact Hno.
Qed.

Lemma sub_nothing (new t : text) :
  (forall i, starts_with START (skipn i t) = true ->
             find_end (skipn (i + List.length START) t) = None) ->
  sub_from 0 new t = t.
Proof.
  induction t as [|c r IH]; intros Hno; [reflexivity|].
  rewrite sub_copy.
  - f_equal. apply IH. intros i Hi. apply (Hno (S i)). exact Hi.
  - destruct (starts_with START (c :: r)) eqn:Es; [right|now left].
    apply (Hno 0). exact Es.
Qed.

(** A text that the replacement changes holds the new block afterwards. *)
Lemma sub_changed (new t : text) :
  sub_from 0 new t <> t ->
  exists pre post, sub_from 0 new t = (pre ++ new ++ post)%list.
Proof.
  intros Hne.
  destruct (sub_first_match new t)
    as [Hsame|(pre & u & k & _ & _ & _ & _ & Hsub)]; [now destruct Hne|].
  eexists pre, _. exact Hsub.
Qed.

Lemma expand_template_plain (t : text) :
  existsb (N.eqb 92) t = false -> expand_template false t = Ok t.
Proof.
  induction t as [|c r IH]; cbn [existsb expand_template]; [reflexivity|].
  intros H. apply Bool.orb_false_elim in H as [Hc Hr].
  rewrite N.eqb_sym, Hc, (IH Hr). reflexivity.
Qed.

Lemma Ok_inj {A : Type} (x y : A) : Ok x = Ok y -> x = y.
Proof. congruence. Qed.

Lemma nested_block (a b c d e f g h i j k l m n o p q z : text) :
  (a ++ b ++ c ++ d ++ e ++ f ++ g ++ h ++ i ++ j ++ k ++ l ++ m ++ n ++ o
   ++ p ++ q ++ z)%list
  = (a ++ (b ++ c ++ (d ++ e ++ f ++ g ++ h ++ i ++ j ++ k ++ l ++ m ++ n
                      ++ o ++ p ++ q)) ++ z)%list.
Proof. now rewrite <- !app_assoc. Qed.

Lemma render_block_shape `{Env} (ts : string) (pkgs : json) (block : text) :
  render_block ts pkgs = Ok block ->
  exists mid, block = (START ++ (line_break ++ line_break ++ mid) ++ END)%list.
Proof.
  unfold render_block.
  destruct (py_len pkgs) as [count|]; cbn [bind]; [|discriminate].
  destruct (build_table pkgs) as [table|]; cbn [bind]; [|discriminate].
  intros Hb. apply Ok_inj in Hb. subst block. eexists. apply nested_block.
Qed.

(** ** The markers of the README *)

(** X24.  After [ensure_markers] a README holds both markers, and a second
    application changes nothing. *)
Theorem ensure_markers_ensures (t : text) :
  contains START (ensure_markers t) = true
  /\ contains END (ensure_markers t) = true
  /\ ensure_markers (ensure_markers t) = ensure_markers t.
Proof.
  assert (Hboth : contains START (ensure_markers t) = true
                  /\ contains END (ensure_markers t) = true).
  { unfold ensure_markers.
    destruct (contains START t && contains END t)%bool eqn:E.
    - now apply andb_prop in E.
    - split.
      + do 6 apply contains_app_r. apply contains_here, starts_with_app.
      + do 8 apply contains_app_r. apply contains_here, starts_with_app. }
  destruct Hboth as [Hs He]. split; [exact Hs|]. split; [exact He|].
  unfold ensure_markers at 1. now rewrite Hs, He.
Qed.

(** ** A second run of the README generator *)

(** Texts without carriage return stay so, and are read back as written. *)
Lemma sub_from_no_cr (new t : text) :
  existsb (N.eqb 13) new = false ->
  existsb (N.eqb 13) t = false ->
  forall skip, existsb (N.eqb 13) (sub_from skip new t) = false.
Proof.
  intros Hn. induction t as [|c r IH]; intros Ht skip; [reflexivity|].
  cbn [existsb] in Ht. apply orb_false_iff in Ht. destruct Ht as [Hc Hr].
  cbn [sub_from]. destruct skip as [|n]; [|now apply IH].
  destruct (starts_with START (c :: r));
    [destruct (find_end (skipn (List.length START) (c :: r)))|];
    rewrite ?existsb_app; cbn [existsb]; rewrite ?Hn, ?Hc, ?IH; auto.
Qed.

Lemma text_rstrip_no_cr (t : text) :
  existsb (N.eqb 13) t = false -> existsb (N.eqb 13) (text_rstrip t) = false.
Proof.
  induction t as [|c r IH]; [reflexivity|].
  cbn [existsb]. intros Ht. apply orb_false_iff in Ht. destruct Ht as [Hc Hr].
  cbn [text_rstrip]. specialize (IH Hr).
  destruct (text_rstrip r) as [|x r'].
  - destruct (is_uspace c); cbn [existsb]; [reflexivity|].
    now rewrite Hc.
  - change (existsb (N.eqb 13) (c :: x :: r'))
      with (N.eqb 13 c || existsb (N.eqb 13) (x :: r'))%bool.
    now rewrite Hc, IH.
Qed.

Lemma ensure_markers_no_cr (t : text) :
  existsb (N.eqb 13) t = false ->
  existsb (N.eqb 13) (ensure_markers t) = false.
Proof.
  intros Ht. unfold ensure_markers.
  destruct (contains START t && contains END t)%bool; [exact Ht|].
  rewrite existsb_app, (text_rstrip_no_cr _ Ht). cbn [orb].
  vm_compute. reflexivity.
Qed.

Lemma universal_newlines_no_cr (t : text) :
  existsb (N.eqb 13) t = false -> universal_newlines t = t.
Proof.
  unfold universal_newlines. induction t as [|c r IH]; [reflexivity|].
  cbn [existsb]. intros Ht. apply orb_false_iff in Ht. destruct Ht as [Hc Hr].
  cbn [universal_newlines_from]. rewrite N.eqb_sym, Hc. cbn [andb].
  now rewrite IH.
Qed.

(** X25.  A second run of the generator at the same time and on the same
    package data changes nothing.  Take a run that has ended well, on a
    README without carriage return (a text read with universal newlines
    holds none) or without README, in which the block rendered holds no
    backslash and no carriage return and holds the end marker at its end
    only.  Then a run on the README as the first run left it, read back
    with universal newlines, writes nothing and reports that the README is
    up to date. *)
Theorem readme_rerun_is_noop `{Env} (packages_text : result string)
  (ts : string) (readme : option (result text)) (pkgs : json) (block : text)
  (written : option text) (line : string) :
  load_packages packages_text = Ok pkgs ->
  render_block ts pkgs = Ok block ->
  existsb (N.eqb 92) block = false ->
  existsb (N.eqb 13) block = false ->
  (forall c, readme = Some (Ok c) -> existsb (N.eqb 13) c = false) ->
  find_end (skipn (List.length START) block)
  = Some (List.length block - List.length START) ->
  readme_main packages_text ts readme = Ok (written, line) ->
  readme_main packages_text ts (readme_after readme written)
  = Ok (None, "README.md is already up to date.").
Proof.
  intros Hl Hr Hb Hcb Hcr He Hrun.
  assert (Hmain : forall rd,
            readme_main packages_text ts rd
            = (content <- match rd with
                          | Some r => c <- r ;; Ok (ensure_markers c)
                          | None => Ok default_readme
                          end ;;
               if list_eq_dec N.eq_dec (sub_from 0 block content) content
               then Ok (None, "README.md is already up to date.")
               else Ok (Some (sub_from 0 block content), "README.md updated."))).
  { intros rd. unfold readme_main. rewrite Hl. cbn [bind]. rewrite Hr.
    cbn [bind]. destruct rd as [[c|e]|]; cbn [bind]; try reflexivity;
      unfold replace_block; rewrite (expand_template_plain _ Hb);
      reflexivity. }
  assert (Hcc : forall c,
            match readme with
            | Some r => c <- r ;; Ok (ensure_markers c)
            | None => Ok default_readme
            end = Ok c ->
            existsb (N.eqb 13) c = false).
  { intros c. destruct readme as [[c0|e]|]; cbn [bind].
    - intros Hc. apply Ok_inj in Hc. subst c.
      apply ensure_markers_no_cr, Hcr. reflexivity.
    - discriminate.
    - intros Hc. apply Ok_inj in Hc. subst c. vm_compute. reflexivity. }
  rewrite Hmain in Hrun. rewrite Hmain.
  destruct written as [new|]; cbn [readme_after].
  - destruct (match readme with
              | Some r => c <- r ;; Ok (ensure_markers c)
              | None => Ok default_readme
              end) as [c|]; cbn [bind] in Hrun; [|discriminate].
    destruct (list_eq_dec N.eq_dec (sub_from 0 block c) c) as [Heq|Hne];
      [discriminate|].
    apply Ok_inj in Hrun. apply (f_equal fst) in Hrun. cbn [fst] in Hrun.
    apply Some_inj in Hrun. subst new.
    rewrite (universal_newlines_no_cr _
               (sub_from_no_cr _ _ Hcb (Hcc c eq_refl) 0)).
    cbn [bind].
    destruct (render_block_shape _ _ Hr) as (mid & Hshape).
    destruct (@sub_changed block c Hne) as (pre & post & Hsub).
    assert (Hm : ensure_markers (sub_from 0 block c) = sub_from 0 block c).
    { unfold ensure_markers.
      assert (Hs : contains START (sub_from 0 block c) = true).
      { rewrite Hsub, Hshape. apply contains_app_r.
        rewrite <- app_assoc. apply contains_here, starts_with_app. }
      assert (Hen : contains END (sub_from 0 block c) = true).
      { rewrite Hsub, Hshape. apply contains_app_r.
        rewrite <- (app_assoc START). apply contains_app_r.
        rewrite <- (app_assoc _ END). apply contains_app_r.
        apply contains_here, starts_with_app. }
      now rewrite Hs, Hen. }
    rewrite Hm.
    assert (Hidem : sub_from 0 block (sub_from 0 block c) = sub_from 0 block c).
    { rewrite Hshape. apply sub_idempotent.
      rewrite Hshape in He. rewrite skipn_exact in He. rewrite He. f_equal.
      rewrite !length_app. lia. }
    rewrite Hidem.
    destruct (list_eq_dec N.eq_dec (sub_from 0 block c) (sub_from 0 block c))
      as [_|Hn]; [reflexivity|now destruct Hn].
  - destruct (match readme with
              | Some r => c <- r ;; Ok (ensure_markers c)
              | None => Ok default_readme
              end) as [c|]; cbn [bind] in *; [|discriminate].
    destruct (list_eq_dec N.eq_dec (sub_from 0 block c) c);
      [reflexivity|].
    apply Ok_inj in Hrun. apply (f_equal fst) in Hrun. discriminate.
Qed.

Lemma readme_rerun_is_noop_witness :
  exists written line,
    @readme_main example_env (Ok doc_index) example_ts None
    = Ok (written, line)
    /\ @readme_main example_env (Ok doc_index) example_ts
         (readme_after None written)
       = Ok (None, "README.md is already up to date.").
Proof.
  destruct (@readme_main example_env (Ok doc_index) example_ts None)
    as [[written line]|e] eqn:E.
  - exists written, line. split; [reflexivity|].
    eapply (@readme_rerun_is_noop example_env (Ok doc_index) example_ts None);
      [vm_compute; reflexivity | vm_compute; reflexivity
      | vm_compute; reflexivity | vm_compute; reflexivity
      | intros c Hc; discriminate
      | vm_compute; reflexivity | exact E].
  - vm_compute in E. discriminate.
Defined.

(** ** The first README *)

Lemma no_start_before (t : text) (n : nat) :
  forallb (fun i => negb (starts_with START (skipn i t))) (seq 0 n) = true ->
  forall i, i < n -> starts_with START (skipn i t) = false.
Proof.
  intros Hall i Hi. rewrite forallb_forall in Hall.
  specialize (Hall i). rewrite in_seq in Hall.
  apply Bool.negb_true_iff, Hall. lia.
Qed.

(** X26.  Where there is no README, the generator writes one: the fixed
    title, sentence and heading, then the block, then a line break.  This
    holds for every block without a backslash. *)
Theorem readme_created `{Env} (packages_text : result string) (ts : string)
  (pkgs : json) (block : text) :
  load_packages packages_text = Ok pkgs ->
  render_block ts pkgs = Ok block ->
  existsb (N.eqb 92) block = false ->
  readme_main packages_text ts None
  = Ok (Some (readme_head ++ block ++ line_break)%list, "README.md updated.").
Proof.
  intros Hl Hr Hb. unfold readme_main. rewrite Hl. cbn [bind]. rewrite Hr.
  cbn [bind]. unfold replace_block. rewrite (expand_template_plain _ Hb).
  cbn [bind].
  assert (Hdef : default_readme
                 = (readme_head ++ (START ++ line_break ++ END ++ line_break))%list)
    by (vm_compute; reflexivity).
  assert (Hsub : sub_from 0 block default_readme
                 = (readme_head ++ block ++ line_break)%list).
  { rewrite Hdef. rewrite sub_after_prefix.
    - apply f_equal. reflexivity.
    - apply no_start_before. vm_compute. reflexivity. }
  rewrite Hsub.
  destruct (list_eq_dec N.eq_dec (readme_head ++ block ++ line_break)%list
              default_readme) as [Heq|_]; [exfalso|reflexivity].
  rewrite Hdef in Heq. apply app_inv_head in Heq.
  destruct (render_block_shape _ _ Hr) as (mid & ->).
  rewrite <- (app_assoc START) in Heq. apply app_inv_head in Heq.
  apply (f_equal (firstn 2)) in Heq. vm_compute in Heq. discriminate.
Qed.

Lemma readme_created_witness :
  exists block,
    @render_block example_env example_ts
      (JList [JObj [("identifier", JStr "com.example.foo");
                    ("name", JStr "Foo"); ("license", JStr "MIT");
                    ("maintainer",
                     JObj [("name", JStr " Ann ");
                           ("contact",
                            JObj [("web", JStr "https://example.org/ann")])])]])
    = Ok block
    /\ contains (txt "| Foo | [Ann](https://example.org/ann) | MIT |") block
       = true
    /\ @readme_main example_env (Ok doc_index) example_ts None
       = Ok (Some (readme_head ++ block ++ line_break)%list,
             "README.md updated.").
Proof.
  eexists. split; [vm_compute; reflexivity|].
  split; [vm_compute; reflexivity|].
  eapply (@readme_created example_env (Ok doc_index) example_ts);
    [vm_compute; reflexivity | vm_compute; reflexivity
    | vm_compute; reflexivity].
Defined.

(** ** Markers in the wrong order *)

(** X27.  A README that holds both markers, but no start marker with an end
    marker behind it, stays as it is: the generator finds nothing to
    replace, writes nothing and reports that the README is up to date,
    whatever the package data are. *)
Theorem readme_markers_out_of_order `{Env} (packages_text : result string)
  (ts : string) (pkgs : json) (block template c : text) :
  load_packages packages_text = Ok pkgs ->
  render_block ts pkgs = Ok block ->
  expand_template false block = Ok template ->
  contains START c = true ->
  contains END c = true ->
  (forall i, starts_with START (skipn i c) = true ->
             find_end (skipn (i + List.length START) c) = None) ->
  readme_main packages_text ts (Some (Ok c))
  = Ok (None, "README.md is already up to date.").
Proof.
  intros Hl Hr Ht Hs He Hno. unfold readme_main. rewrite Hl. cbn [bind].
  rewrite Hr. cbn [bind]. unfold ensure_markers. rewrite Hs, He. cbn [andb].
  unfold replace_block. rewrite Ht. cbn [bind].
  rewrite (@sub_nothing template c Hno).
  destruct (list_eq_dec N.eq_dec c c) as [_|Hn]; [reflexivity|now destruct Hn].
Qed.

Lemma readme_markers_out_of_order_witness :
  @readme_main example_env (Ok doc_index) example_ts
    (Some (Ok (END ++ line_break ++ START ++ line_break)%list))
  = Ok (None, "README.md is already up to date.").
Proof.
  eapply (@readme_markers_out_of_order example_env (Ok doc_index) example_ts);
    [vm_compute; reflexivity | vm_compute; reflexivity
    | vm_compute; reflexivity | vm_compute; reflexivity
    | vm_compute; reflexivity | ].
  intros i _. rewrite <- skipn_skipn. apply find_end_none_skipn.
  vm_compute. reflexivity.
Defined.

(** ** The cells of the table *)

Lemma append_nonempty (a b : string) : a <> EmptyString -> (a ++ b) <> EmptyString.
Proof. destruct a; [tauto|discriminate]. Qed.

Lemma is_truthy_str_some (o : option string) :
  is_truthy_str o = true -> exists s, o = Some s /\ s <> EmptyString.
Proof.
  destruct o as [s|]; cbn [is_truthy_str]; [|discriminate].
  intros Hs. exists s. split; [reflexivity|].
  apply Bool.negb_true_iff in Hs. now apply String.eqb_neq.
Qed.

Lemma license_parts_nonempty (normalize : json -> option string)
  (items : list json) :
  Forall (fun s => s <> EmptyString) (license_parts normalize items).
Proof.
  induction items as [|item r IH]; cbn [license_parts]; [constructor|].
  destruct (is_truthy_str (normalize item)) eqn:Et; [|exact IH].
  apply is_truthy_str_some in Et as (s & -> & Hs). now constructor.
Qed.

Lemma join_str_nonempty (sep : string) (parts : list string) :
  parts <> [] -> Forall (fun s => s <> EmptyString) parts ->
  join_str sep parts <> EmptyString.
Proof.
  destruct parts as [|x r]; [tauto|]. intros _ Hall.
  inversion Hall as [|? ? Hx _]; subst. cbn [join_str].
  destruct r; [exact Hx|now apply append_nonempty].
Qed.

Lemma first_license_in_nonempty (keys : list string)
  (d : list (string * json)) (s : string) :
  first_license_in keys d = Some s -> s <> EmptyString.
Proof.
  induction keys as [|k r IH]; cbn [first_license_in]; [discriminate|].
  destruct (py_get d k); try exact IH.
  destruct (negb (String.eqb (str_strip s0) EmptyString)) eqn:E; [|exact IH].
  intros [= <-]. apply Bool.negb_true_iff in E. now apply String.eqb_neq.
Qed.

Lemma normalize_license_field_nonempty (value : json) (s : string) :
  normalize_license_field value = Some s -> s <> EmptyString.
Proof.
  destruct value as [| b | z | f | t | l | d]; cbn [normalize_license_field];
    try (destruct (negb (truthy _)); discriminate).
  - destruct (negb (truthy (JStr t))); [discriminate|].
    unfold nonempty. destruct (String.eqb (str_strip t) EmptyString) eqn:E;
      [discriminate|].
    intros [= <-]. now apply String.eqb_neq.
  - destruct (negb (truthy (JList l))); [discriminate|].
    pose proof (license_parts_nonempty normalize_license_field l) as Hall.
    destruct (license_parts normalize_license_field l) as [|x r] eqn:Ep;
      [discriminate|].
    intros Hj. assert (Hs : s = join_str ", " (x :: r)) by congruence.
    subst s. now apply join_str_nonempty.
  - destruct (negb (truthy (JObj d))); [discriminate|].
    apply first_license_in_nonempty.
Qed.

Lemma or_else_nonempty (o : option string) (otherwise : result string)
  (s : string) :
  (otherwise = Ok s -> s <> EmptyString) ->
  or_else o otherwise = Ok s -> s <> EmptyString.
Proof.
  intros Hk. unfold or_else. destruct o as [v|]; [|exact Hk].
  destruct (is_truthy_str (Some v)) eqn:Et; [|exact Hk].
  intros [= <-]. apply is_truthy_str_some in Et as (s' & [= <-] & Hs).
  exact Hs.
Qed.

Lemma named_link_nonempty (name : string) (url : option string) :
  name <> EmptyString -> named_link name url <> EmptyString.
Proof. intros Hn. destruct url; cbn [named_link]; [discriminate|exact Hn]. Qed.

(** X28.  No cell of the table is blank for want of data: the license that
    [get_license] returns and the maintainer that [get_maintainer] returns
    are never the empty string (a missing license reads [not specified], a
    missing maintainer and author read [-]), and a value that
    [normalize_license_field] returns is never empty either. *)
Theorem table_cells_never_blank (pkg : json) (s : string) :
  get_license pkg = Ok s \/ get_maintainer pkg = Ok s
  \/ normalize_license_field pkg = Some s ->
  s <> EmptyString.
Proof.
  intros [Hl|[Hm|Hn]]; [| |now apply normalize_license_field_nonempty in Hn].
  - unfold get_license in Hl.
    destruct (as_dict pkg) as [d|]; cbn [bind] in Hl; [|discriminate].
    revert Hl. apply or_else_nonempty. apply or_else_nonempty.
    destruct (as_dict (py_or (py_get d "resources") (JObj []))) as [res|];
      cbn [bind]; [|discriminate].
    apply or_else_nonempty.
    destruct (truthy (py_or (py_get d "versions") (JList [])));
      [|intros [= <-]; discriminate].
    destruct (first_item _) as [newest|]; cbn [bind]; [|discriminate].
    destruct (as_dict newest) as [n|]; cbn [bind]; [|discriminate].
    apply or_else_nonempty.
    destruct (as_dict (py_or (py_get n "resources") (JObj []))) as [nres|];
      cbn [bind]; [|discriminate].
    apply or_else_nonempty. intros [= <-]. discriminate.
  - unfold get_maintainer in Hm.
    destruct (as_dict pkg) as [d|]; cbn [bind] in Hm; [|discriminate].
    destruct (as_dict (py_or (py_get d "maintainer") (JObj []))) as [m|];
      cbn [bind] in Hm; [|discriminate].
    destruct (stripped_name m) as [name|]; cbn [bind] in Hm; [|discriminate].
    destruct (negb (String.eqb name EmptyString)) eqn:En.
    + injection Hm as <-. apply named_link_nonempty.
      apply Bool.negb_true_iff in En. now apply String.eqb_neq.
    + destruct (as_dict (py_or (py_get d "author") (JObj []))) as [a|];
        cbn [bind] in Hm; [|discriminate].
      destruct (stripped_name a) as [aname|]; cbn [bind] in Hm;
        [|discriminate].
      destruct (negb (String.eqb aname EmptyString)) eqn:Ea.
      * injection Hm as <-. apply named_link_nonempty.
        apply Bool.negb_true_iff in Ea. now apply String.eqb_neq.
      * injection Hm as <-. discriminate.
Qed.

Lemma table_cells_never_blank_witness :
  get_license (JObj [("license", JStr "  "); ("licenses", JList [JStr " "])])
  = Ok "not specified"
  /\ "not specified" <> EmptyString.
Proof.
  split; [vm_compute; reflexivity|].
  apply (@table_cells_never_blank
           (JObj [("license", JStr "  "); ("licenses", JList [JStr " "])])
           "not specified").
  left. vm_compute. reflexivity.
Defined.

(** ** The identifiers of the configuration editor *)

Lemma dash_runs_chars (s : string) :
  forall in_run, all_chars_in id_char (dash_runs in_run s) = true.
Proof.
  induction s as [|c r IH]; intros in_run; cbn [dash_runs all_chars_in];
    [reflexivity|].
  destruct (id_char c) eqn:Ec.
  - cbn [all_chars_in]. now rewrite Ec, IH.
  - destruct in_run; [apply IH|]. cbn [all_chars_in]. now rewrite IH.
Qed.

Lemma id_char_lower (c : ascii) : id_char c = true -> chr_lower c = c.
Proof. all_chars c; vm_compute; congruence. Qed.

Lemma slug_of_id_chars (s : string) :
  all_chars_in id_char s = true -> slug s = s.
Proof.
  unfold slug. induction s as [|c r IH]; cbn [all_chars_in str_lower dash_runs];
    [reflexivity|].
  intros H. apply andb_prop in H as [Hc Hr].
  rewrite (id_char_lower _ Hc), Hc. f_equal. now apply IH.
Qed.

Lemma str_lower_app (a b : string) :
  str_lower (a ++ b) = str_lower a ++ str_lower b.
Proof.
  induction a as [|c a IH]; cbn [append str_lower]; [reflexivity|].
  now rewrite IH.
Qed.

(** Kept characters are copied. *)
Lemma dash_runs_kept (a b : string) :
  all_chars_in id_char a = true ->
  dash_runs false (a ++ b) = a ++ dash_runs false b.
Proof.
  induction a as [|c a IH]; cbn [append all_chars_in dash_runs];
    [reflexivity|].
  intros H. apply andb_prop in H as [Hc Ha]. rewrite Hc. f_equal. now apply IH.
Qed.

(** Inside a run, other characters vanish up to the next kept one. *)
Lemma dash_runs_inside (run b : string) :
  all_chars_in (fun c => negb (id_char c)) run = true ->
  dash_runs true (run ++ b) = dash_runs true b.
Proof.
  induction run as [|c r IH]; cbn [append all_chars_in dash_runs];
    [reflexivity|].
  intros H. apply andb_prop in H as [Hc Hr].
  apply negb_true_iff in Hc. rewrite Hc. now apply IH.
Qed.

Lemma dash_runs_at_kept (b : string) :
  match b with
  | EmptyString => True
  | String c _ => id_char c = true
  end ->
  dash_runs true b = dash_runs false b.
Proof.
  destruct b as [|c r]; cbn [dash_runs]; [reflexivity|]. now intros ->.
Qed.

(** A whole run gives one dash. *)
Lemma dash_runs_run (run b : string) :
  run <> EmptyString ->
  all_chars_in (fun c => negb (id_char c)) run = true ->
  match b with
  | EmptyString => True
  | String c _ => id_char c = true
  end ->
  dash_runs false (run ++ b) = String "-" (dash_runs false b).
Proof.
  destruct run as [|c r]; [now intros []|]. intros _ H Hb.
  cbn [append all_chars_in dash_runs] in *.
  apply andb_prop in H as [Hc Hr]. apply negb_true_iff in Hc. rewrite Hc.
  f_equal. rewrite dash_runs_inside by exact Hr. now apply dash_runs_at_kept.
Qed.

(** ** The last segment and the stem *)

Lemma last_segment_none (s : string) :
  has_char "/" s = false -> last_segment s = s.
Proof.
  destruct s as [|c r]; cbn [has_char last_segment]; [reflexivity|].
  intros H. apply orb_false_iff in H as [Hc Hr]. now rewrite Hr, Hc.
Qed.

Lemma last_segment_after (a b : string) :
  has_char "/" b = false -> last_segment (a ++ "/" ++ b) = b.
Proof.
  intros Hb. induction a as [|c a IH].
  - cbn [append last_segment]. rewrite Hb. reflexivity.
  - change ((String c a ++ "/" ++ b)) with (String c (a ++ "/" ++ b)).
    cbn [last_segment]. rewrite has_char_app.
    cbn [append has_char]. rewrite Ascii.eqb_refl, orb_true_r. exact IH.
Qed.

Lemma split_all_nonempty (sep : ascii) (s : string) : split_all sep s <> [].
Proof.
  destruct s as [|c r]; cbn [split_all]; [discriminate|].
  destruct (Ascii.eqb c sep); [discriminate|].
  destruct (split_all sep r); discriminate.
Qed.

Lemma split_all_none (sep : ascii) (s : string) :
  has_char sep s = false -> split_all sep s = [s].
Proof.
  induction s as [|c r IH]; cbn [has_char split_all]; [reflexivity|].
  intros H. apply orb_false_iff in H as [Hc Hr]. rewrite Hc, (IH Hr).
  reflexivity.
Qed.

Lemma split_all_app (sep : ascii) (a b : string) :
  split_all sep (a ++ String sep b) = (split_all sep a ++ split_all sep b)%list.
Proof.
  induction a as [|c a IH].
  - cbn [append split_all app]. now rewrite Ascii.eqb_refl.
  - change (String c a ++ String sep b) with (String c (a ++ String sep b)).
    cbn [split_all]. rewrite IH.
    destruct (Ascii.eqb c sep); [reflexivity|].
    pose proof (split_all_nonempty sep a) as Hne.
    destruct (split_all sep a) as [|x xs]; [now destruct Hne|]. reflexivity.
Qed.

Lemma path_name_after (dir name : string) :
  name <> EmptyString -> name <> "." -> has_char "/" name = false ->
  path_name (dir ++ "/" ++ name) = name.
Proof.
  intros H0 H1 Hs. unfold path_name.
  change (dir ++ "/" ++ name) with (dir ++ String "/" name).
  rewrite split_all_app, (@split_all_none "/" name Hs), filter_app.
  cbn [filter].
  apply String.eqb_neq in H0, H1. rewrite H0, H1. cbn [orb negb].
  apply last_last.
Qed.

Lemma path_name_alone (name : string) :
  name <> EmptyString -> name <> "." -> has_char "/" name = false ->
  path_name name = name.
Proof.
  intros H0 H1 Hs. unfold path_name.
  rewrite split_all_none by exact Hs. cbn [filter].
  apply String.eqb_neq in H0, H1. rewrite H0, H1. reflexivity.
Qed.

Lemma split_last_none (sep : ascii) (s : string) :
  has_char sep s = false -> split_last sep s = None.
Proof.
  induction s as [|c r IH]; cbn [has_char split_last]; [reflexivity|].
  intros H. apply orb_false_iff in H as [Hc Hr]. now rewrite (IH Hr), Hc.
Qed.

Lemma split_last_after (sep : ascii) (a b : string) :
  has_char sep b = false -> split_last sep (a ++ String sep b) = Some (a, b).
Proof.
  intros Hb. induction a as [|c a IH].
  - cbn [append split_last]. rewrite split_last_none by exact Hb. now rewrite Ascii.eqb_refl.
  - change (String c a ++ String sep b) with (String c (a ++ String sep b)).
    cbn [split_last]. now rewrite IH.
Qed.

Lemma dotted_not_dot (base ext : string) :
  base <> EmptyString -> base ++ "." ++ ext <> ".".
Proof.
  intros Hb H. destruct base as [|c base]; [now destruct Hb|].
  cbn [append] in H. injection H as _ H. destruct base; discriminate.
Qed.

Lemma stem_of_dotted (base ext : string) :
  base <> EmptyString -> ext <> EmptyString -> has_char "." ext = false ->
  match split_last "." (base ++ "." ++ ext) with
  | Some (a, b) =>
      if (String.eqb a EmptyString || String.eqb b EmptyString)%bool
      then base ++ "." ++ ext else a
  | None => base ++ "." ++ ext
  end = base.
Proof.
  intros Hb He Hd.
  change (base ++ "." ++ ext) with (base ++ String "." ext).
  rewrite split_last_after by exact Hd.
  apply String.eqb_neq in Hb, He. now rewrite Hb, He.
Qed.

(** X29.  The identifier that the editor gives a new source is the text in
    lower case in which every run of characters other than [a-z], [0-9],
    [-] and [_] has become one [-]: it holds only those characters; kept
    characters are copied in lower case; a run of other characters, taken
    up to the next kept character or to the end, gives one [-]; and making
    an identifier of an identifier gives it back.  The text is the part
    after the last slash of the [owner/repo] given, and, for a mirror, the
    last component of the path of the URL without its last suffix. *)
Theorem source_ids_normalized :
  (forall s, all_chars_in id_char (slug s) = true)
  /\ (forall s, slug (slug s) = slug s)
  /\ slug EmptyString = EmptyString
  /\ (forall a b,
        all_chars_in id_char (str_lower a) = true ->
        slug (a ++ b) = str_lower a ++ slug b)
  /\ (forall run b,
        run <> EmptyString ->
        all_chars_in (fun c => negb (id_char c)) (str_lower run) = true ->
        match b with
        | EmptyString => True
        | String c _ => id_char (chr_lower c) = true
        end ->
        slug (run ++ b) = "-" ++ slug b)
  /\ slug "KiCad  Libs (v2)!" = "kicad-libs-v2-"
  /\ (forall s, has_char "/" s = false -> last_segment s = s)
  /\ (forall a b, has_char "/" b = false -> last_segment (a ++ "/" ++ b) = b)
  /\ (forall owner repo glob only_latest,
        has_char "/" repo = false ->
        json_field (release_source (owner ++ "/" ++ repo) glob only_latest) "id"
        = JStr (slug repo))
  /\ (forall dir base ext,
        base <> EmptyString -> has_char "/" base = false ->
        ext <> EmptyString -> has_char "/" ext = false ->
        has_char "." ext = false ->
        path_stem (dir ++ "/" ++ base ++ "." ++ ext) = base
        /\ path_stem (base ++ "." ++ ext) = base
        /\ json_field (mirror_source (dir ++ "/" ++ base ++ "." ++ ext)) "id"
           = JStr (slug base))
  /\ (forall dir name,
        name <> EmptyString -> has_char "/" name = false ->
        has_char "." name = false ->
        path_stem (dir ++ "/" ++ name) = name
        /\ json_field (mirror_source (dir ++ "/" ++ name)) "id"
           = JStr (slug name)).
Proof.
  split; [intros s; apply dash_runs_chars|].
  split; [intros s; apply slug_of_id_chars, dash_runs_chars|].
  split; [reflexivity|].
  split.
  { intros a b Ha. unfold slug. rewrite str_lower_app.
    now apply dash_runs_kept. }
  split.
  { intros run b Hne Hrun Hb. unfold slug. rewrite str_lower_app.
    apply dash_runs_run.
    - destruct run; [now destruct Hne|discriminate].
    - exact Hrun.
    - destruct b; [exact I|exact Hb]. }
  split; [vm_compute; reflexivity|].
  split; [exact last_segment_none|].
  split; [exact last_segment_after|].
  split.
  { intros owner repo glob only_latest Hr. unfold release_source.
    cbn [json_field]. unfold py_get. cbn [dict_get].
    now rewrite last_segment_after by exact Hr. }
  split.
  - intros dir base ext Hb Hbs He Hes Hed.
    assert (Hn : has_char "/" (base ++ "." ++ ext) = false).
    { rewrite !has_char_app, Hbs, Hes. reflexivity. }
    assert (Hne : base ++ "." ++ ext <> EmptyString).
    { destruct base; [now destruct Hb|discriminate]. }
    assert (H1 : path_stem (dir ++ "/" ++ base ++ "." ++ ext) = base).
    { unfold path_stem.
      rewrite path_name_after;
        [|exact Hne|now apply dotted_not_dot|exact Hn].
      now apply stem_of_dotted. }
    split; [exact H1|]. split.
    + unfold path_stem.
      rewrite path_name_alone;
        [|exact Hne|now apply dotted_not_dot|exact Hn].
      now apply stem_of_dotted.
    + unfold mirror_source. cbn [json_field]. unfold py_get. cbn [dict_get].
      now rewrite H1.
  - intros dir name Hn Hs Hd.
    assert (Hdot : name <> ".").
    { intros ->. discriminate. }
    assert (H1 : path_stem (dir ++ "/" ++ name) = name).
    { unfold path_stem. rewrite path_name_after by assumption.
      now rewrite split_last_none by exact Hd. }
    split; [exact H1|].
    unfold mirror_source. cbn [json_field]. unfold py_get. cbn [dict_get].
    now rewrite H1.
Qed.

(** ** Removing a source *)

Lemma dict_set_set {V : Type} (k : string) (v v' : V) (d : list (string * V)) :
  dict_set k v (dict_set k v' d) = dict_set k v d.
Proof.
  induction d as [|[k0 v0] r IH]; cbn [dict_set].
  - now rewrite String.eqb_refl.
  - destruct (String.eqb k k0) eqn:E; cbn [dict_set]; rewrite E;
      [reflexivity|now rewrite IH].
Qed.

Lemma filter_result_keeps (rid : string) (l kept : list json) :
  filter_result (keeps_source rid) l = Ok kept ->
  kept = filter (fun s => negb (json_is_str rid (json_field s "id"))) l
  /\ filter_result (keeps_source rid) kept = Ok kept.
Proof.
  revert kept. induction l as [|s r IH]; intros kept;
    cbn [filter_result filter].
  - intros [= <-]. now split.
  - unfold keeps_source at 1.
    destruct s as [| | | | | | d]; cbn [as_dict bind]; try discriminate.
    destruct (filter_result (keeps_source rid) r) as [rest|]; cbn [bind];
      [|discriminate].
    destruct (IH rest eq_refl) as [Hrest Hagain].
    cbn [json_field].
    destruct (negb (json_is_str rid (py_get d "id"))) eqn:Ek; intros [= <-].
    + split; [now rewrite <- Hrest|].
      cbn [filter_result]. unfold keeps_source at 1. cbn [as_dict bind].
      now rewrite Ek, Hagain.
    + now split.
Qed.

(** X30.  [remove] takes away every source with the given identifier, and
    nothing else: the sources left are those whose [id] is not that text,
    in their order, every other key of the configuration keeps its value,
    and a second [remove] of the same identifier rewrites the file with the
    same configuration. *)
Theorem remove_drops_every_match (prog rid : string) (more : list string)
  (cfg : list (string * json)) (l : list json) (new_cfg : json) :
  dict_get "sources" cfg = Some (JList l) ->
  manage_main (prog :: "remove" :: rid :: more) (Ok (JObj cfg))
  = Ok (Rewritten new_cfg) ->
  new_cfg
  = JObj (dict_set "sources"
            (JList (filter
                      (fun s => negb (json_is_str rid (json_field s "id"))) l))
            cfg)
  /\ (forall k, k <> "sources" -> json_field new_cfg k = py_get cfg k)
  /\ manage_main (prog :: "remove" :: rid :: more) (Ok new_cfg)
     = Ok (Rewritten new_cfg).
Proof.
  intros Hs. unfold manage_main. cbn [bind as_dict].
  change (String.eqb "remove" "add_release") with false.
  change (String.eqb "remove" "add_mirror") with false.
  change (String.eqb "remove" "remove") with true. cbn iota.
  unfold remove_source at 1. rewrite Hs.
  destruct (filter_result (keeps_source rid) l) as [kept|] eqn:Ef;
    cbn [bind]; [|discriminate].
  intros [= <-]. apply filter_result_keeps in Ef as [Hk Hagain].
  split; [now rewrite Hk|]. split.
  - intros k Hne. cbn [json_field]. unfold py_get.
    now rewrite dict_get_set_other by exact Hne.
  - cbn [bind as_dict]. unfold remove_source.
    rewrite dict_get_set_same, Hagain. cbn [bind].
    now rewrite dict_set_set.
Qed.

Lemma remove_drops_every_match_witness :
  let foo := JObj [("id", JStr "foo"); ("mode", JStr "release_scan")] in
  let bar := JObj [("id", JStr "bar"); ("mode", JStr "release_scan")] in
  manage_main ["manage_repos.py"; "remove"; "foo"]
    (Ok (JObj [("name", JStr "Index"); ("sources", JList [foo; bar; foo])]))
  = Ok (Rewritten (JObj [("name", JStr "Index"); ("sources", JList [bar])])).
Proof.
  intros foo bar.
  destruct (manage_main ["manage_repos.py"; "remove"; "foo"]
              (Ok (JObj [("name", JStr "Index");
                         ("sources", JList [foo; bar; foo])])))
    as [[new_cfg|line]|e] eqn:E.
  - destruct (@remove_drops_every_match "manage_repos.py" "foo" []
                [("name", JStr "Index"); ("sources", JList [foo; bar; foo])]
                [foo; bar; foo] new_cfg eq_refl E) as [-> _].
    reflexivity.
  - vm_compute in E. discriminate.
  - vm_compute in E. discriminate.
Defined.
